(** * Chat-to-graph animation sequencer of the transit-status frontend

    A shallow embedding of the frontend's request gateway
    ([hooks/useAgentAPI.ts]), viewport fit calculator
    ([hooks/useViewportAwareFitView.ts]), graph animation sequencer
    ([components/MainArea/MainArea.tsx]) and chat panel height observer
    ([hooks/useChatAreaMeasurement]), with the properties the
    specification states about them. *)

From Stdlib Require Import ZArith NArith List Bool Ascii String Floats Lia.
From stdpp Require Import base decidable option numbers list.

#[local] Set Warnings "-inexact-float".
#[local] Open Scope bool_scope.

(* ================================================================== *)
(** * JavaScript values used by the program *)
(* ================================================================== *)

Module Js.

(** A JavaScript string is a sequence of UTF-16 code units. *)
Definition jsstring : Type := list N.

(** String literals of the source (all of them ASCII). *)
Definition js (s : string) : jsstring :=
  List.map N_of_ascii (list_ascii_of_string s).

(** ECMAScript [WhiteSpace] and [LineTerminator] code points: what
    [String.prototype.trim] strips. *)
Definition is_whitespace (c : N) : bool :=
  ((c =? 0x9) || (c =? 0xA) || (c =? 0xB) || (c =? 0xC) || (c =? 0xD)
   || (c =? 0x20) || (c =? 0xA0) || (c =? 0x1680)
   || ((0x2000 <=? c) && (c <=? 0x200A))
   || (c =? 0x2028) || (c =? 0x2029) || (c =? 0x202F) || (c =? 0x205F)
   || (c =? 0x3000) || (c =? 0xFEFF))%N.

Fixpoint trimStart (s : jsstring) : jsstring :=
  match s with
  | [] => []
  | c :: s' => if is_whitespace c then trimStart s' else s
  end.

Definition trimEnd (s : jsstring) : jsstring := rev (trimStart (rev s)).

(** [s.trim()] *)
Definition trim (s : jsstring) : jsstring := trimEnd (trimStart s).

(** Truthiness of a string: every string but the empty one. *)
Definition truthy (s : jsstring) : bool :=
  match s with [] => false | _ :: _ => true end.

(** [a === b] on strings *)
Definition strict_eq (a b : jsstring) : bool := bool_decide (a = b).

(** A JavaScript number is an IEEE 754 binary64 value. *)
Definition number : Type := float.

(** [Math.max(a, b)] and [Math.min(a, b)]: NaN if either argument is NaN,
    and +0 is larger than -0. *)
Definition Math_max (a b : number) : number :=
  if PrimFloat.is_nan a || PrimFloat.is_nan b then nan
  else if (a <? b)%float then b
  else if (b <? a)%float then a
  else if PrimFloat.get_sign a then b else a.

Definition Math_min (a b : number) : number :=
  if PrimFloat.is_nan a || PrimFloat.is_nan b then nan
  else if (a <? b)%float then a
  else if (b <? a)%float then b
  else if PrimFloat.get_sign a then a else b.

(** [a > b] on numbers *)
Definition gt (a b : number) : bool := (b <? a)%float.

End Js.

(* ================================================================== *)
(** * hooks/useViewportAwareFitView.ts *)
(* ================================================================== *)

Module FitView.
Import Js.

(** The options object handed to React Flow's [fitView]. *)
Record FitViewOptions := {
  padding : number;
  duration : number;
  minZoom : number;
  maxZoom : number
}.

(** [fitViewWithViewportLogic({ chatHeight, isExpanded })]; the two reads of
    [window.innerHeight] and [window.innerWidth] are the first two
    arguments, the result is the argument of the [fitView] call. *)
Definition fitViewWithViewportLogic
    (innerHeight innerWidth : number) (chatHeight : number) (isExpanded : bool)
    : FitViewOptions :=
  let viewportHeight := innerHeight in
  let viewportWidth := innerWidth in
  let availableHeight := (viewportHeight - chatHeight - 40)%float in
  let availableWidth := (viewportWidth - 320)%float in
  let padding :=
    if (availableHeight <? 400)%float || (availableWidth <? 600)%float
    then 0.15%float
    else if (availableHeight <? 600)%float || (availableWidth <? 800)%float
    then 0.25%float
    else 0.35%float in
  let '(minZoom, maxZoom) :=
    if isExpanded
    then (Math_max 0.4 (availableHeight / 1200), Math_min 1.8 (availableWidth / 600))%float
    else (0.6, 1.8)%float in
  {| padding := padding; duration := 300%float;
     minZoom := minZoom; maxZoom := maxZoom |}.

(** The calculator as the specification words it: derived sizes, the
    padding tiers, the zoom bounds. *)
Definition availableHeight_spec (windowHeight chatHeight : number) : number :=
  (windowHeight - chatHeight - 40)%float.

Definition availableWidth_spec (windowWidth : number) : number :=
  (windowWidth - 320)%float.

Definition padding_spec (h w : number) : number :=
  if (h <? 400)%float || (w <? 600)%float then 0.15%float
  else if (h <? 600)%float || (w <? 800)%float then 0.25%float
  else 0.35%float.

Definition minZoom_spec (h : number) (isExpanded : bool) : number :=
  if isExpanded then Math_max 0.4%float (h / 1200)%float else 0.6%float.

Definition maxZoom_spec (w : number) (isExpanded : bool) : number :=
  if isExpanded then Math_min 1.8%float (w / 600)%float else 1.8%float.

End FitView.

(* ================================================================== *)
(** * hooks/useAgentAPI.ts *)
(* ================================================================== *)

Module AgentAPI.
Import Js.

(** [types/Message.ts] *)
Inductive Role := assistant | user.

Record Message := {
  role : Role;
  content : jsstring;
  id : N;              (* a v4 uuid, kept abstract: see [uuid] *)
  animate : bool
}.

(** A JavaScript array of messages: its elements (what [length], spread,
    [map] and [JSON.stringify] see) and the own properties whose key is not
    an array index, such as ["-1"]. *)
Record JsArray := {
  elems : list Message;
  props : list (Z * Message)
}.

Definition array_lit (l : list Message) : JsArray :=
  {| elems := l; props := [] |}.

(** [[...a]]: the spread copies the elements only. *)
Definition spread (a : JsArray) : JsArray := array_lit (elems a).

(** [a[a.length - 1] = m]. With [a.length = 0] the key is [-1], which is
    not an array index: the assignment defines the property ["-1"] and
    leaves the elements and [length] alone. *)
Definition assign_last (a : JsArray) (m : Message) : JsArray :=
  let i := (Z.of_nat (length (elems a)) - 1)%Z in
  if (i <? 0)%Z
  then {| elems := elems a;
          props := (i, m) :: filter (fun p => negb (fst p =? i)%Z) (props a) |}
  else {| elems := <[Z.to_nat i := m]> (elems a); props := props a |}.

(** Values a promise rejects with, or a [throw] raises. *)
Inductive Exn :=
| Error (message : jsstring)
| AxiosError (code : jsstring) (status : option N).

(** What the hook does to the outside, in order. *)
Inductive Event :=
| EvSetLoading (b : bool)
| EvOnStart
| EvOnSuccess (response : jsstring)
| EvOnError (e : Exn)
| EvPost (path : jsstring) (prompt : jsstring).

(** The state the hook works on: the caller's message log (reached through
    [setMessages]), the hook's own [loading] flag, the supply [uuid()]
    draws from, and the effects so far (oldest first). *)
Record World := {
  messages : JsArray;
  loading : bool;
  uuid_next : N;
  trace : list Event
}.

Definition with_messages (a : JsArray) (w : World) : World :=
  {| messages := a; loading := loading w;
     uuid_next := uuid_next w; trace := trace w |}.

Definition with_loading (b : bool) (w : World) : World :=
  {| messages := messages w; loading := b;
     uuid_next := uuid_next w; trace := trace w |}.

Definition with_uuid_next (n : N) (w : World) : World :=
  {| messages := messages w; loading := loading w;
     uuid_next := n; trace := trace w |}.

Definition with_event (e : Event) (w : World) : World :=
  {| messages := messages w; loading := loading w;
     uuid_next := uuid_next w; trace := trace w ++ [e] |}.

(** How a statement, or an awaited promise, completes. *)
Inductive Completion (A : Type) :=
| Normal (a : A)
| Throw (e : Exn).
Arguments Normal {A} a.
Arguments Throw {A} e.

(** Computations over the world that may throw. *)
Definition M (A : Type) : Type := World -> Completion A * World.

Definition ret {A} (a : A) : M A := fun w => (Normal a, w).

Definition throw {A} (e : Exn) : M A := fun w => (Throw e, w).

Definition bind {A B} (m : M A) (k : A -> M B) : M B :=
  fun w =>
    match m w with
    | (Normal a, w') => k a w'
    | (Throw e, w') => (Throw e, w')
    end.

Notation "x <- m ;; k" := (bind m (fun x => k))
  (at level 100, m at next level, right associativity).
Notation "m ;;; k" := (bind m (fun _ => k))
  (at level 100, right associativity).

(** [try { body } catch (error) { handler }] *)
Definition try_catch {A} (body : M A) (handler : Exn -> M A) : M A :=
  fun w =>
    match body w with
    | (Normal a, w') => (Normal a, w')
    | (Throw e, w') => handler e w'
    end.

(** [try { body } finally { fin }]: [fin] runs on every exit of [body]; the
    completion of [body] stands unless [fin] itself throws. *)
Definition try_finally {A} (body : M A) (fin : M unit) : M A :=
  fun w =>
    match body w with
    | (c, w') =>
        match fin w' with
        | (Normal _, w'') => (c, w'')
        | (Throw e, w'') => (Throw e, w'')
        end
    end.

Definition modify (f : World -> World) : M unit := fun w => (Normal tt, f w).

(** [setMessages(updater)]: the updaters are applied in the order queued. *)
Definition setMessages (updater : JsArray -> JsArray) : M unit :=
  modify (fun w => with_messages (updater (messages w)) w).

(** [setLoading(b)] *)
Definition setLoading (b : bool) : M unit :=
  modify (fun w => with_loading b (with_event (EvSetLoading b) w)).

(** [uuid()]: a v4 uuid is taken to differ from every uuid drawn before. *)
Definition uuid : M N :=
  fun w => (Normal (uuid_next w), with_uuid_next (N.succ (uuid_next w)) w).

(** A caller-supplied callback: it may queue updates of the caller's
    message log, and it returns or throws. *)
Definition Callback (A : Type) : Type :=
  A -> JsArray -> Completion unit * JsArray.

Record Callbacks := {
  onStart : option (Callback unit);
  onSuccess : option (Callback jsstring);
  onError : option (Callback Exn)
}.

(** [callbacks?.f] *)
Definition opt_chain {A} (callbacks : option Callbacks)
    (f : Callbacks -> option A) : option A :=
  match callbacks with
  | None => None
  | Some c => f c
  end.

(** [if (cb) { cb(a) }] *)
Definition call_if_present {A} (cb : option (Callback A)) (ev : Event) (a : A)
    : M unit :=
  match cb with
  | None => ret tt
  | Some f =>
      fun w =>
        let w1 := with_event ev w in
        let '(c, l) := f a (messages w1) in
        (c, with_messages l w1)
  end.

(** One request to the remote agent, as the caller sees it: what the rest
    of the application does to the world while the call is suspended in
    [await], and how the promise of [axios.post] settles
    ([response.data.response] on a 2xx answer, a rejection otherwise). *)
Record Net := {
  during : World -> World;
  outcome : Completion jsstring
}.

Definition agent_prompt_path : jsstring := js "/agent/prompt".

(** [await axios.post(`${EXCHANGE_APP_API_URL}/agent/prompt`, { prompt })] *)
Definition axios_post (net : Net) (prompt : jsstring) : M jsstring :=
  fun w => (outcome net, during net (with_event (EvPost agent_prompt_path prompt) w)).

(** [sendMessage], lines 37-56. *)
Definition sendMessage (net : Net) (prompt : jsstring) : M jsstring :=
  if negb (truthy (trim prompt))
  then throw (Error (js "Prompt cannot be empty"))
  else
    setLoading true ;;;
    try_finally
      (try_catch
         (response <- axios_post net prompt ;;
          ret response)
         (fun error => throw error))
      (setLoading false).

(** Lines 69-92 of [sendMessageWithCallback]: everything before [try]. *)
Definition send_prologue (prompt : jsstring) (callbacks : option Callbacks)
    : M unit :=
  id_user <- uuid ;;
  let userMessage :=
    {| role := user; content := prompt; id := id_user; animate := false |} in
  id_loading <- uuid ;;
  let loadingMessage :=
    {| role := assistant; content := js "..."; id := id_loading;
       animate := true |} in
  setMessages (fun prevMessages =>
    array_lit (elems prevMessages ++ [userMessage; loadingMessage])) ;;;
  setLoading true ;;;
  call_if_present (opt_chain callbacks onStart) EvOnStart tt.

(** Lines 94-133: the [try] / [catch] / [finally] statement. *)
Definition send_request (net : Net) (prompt : jsstring)
    (callbacks : option Callbacks) : M unit :=
  try_finally
    (try_catch
       (response <- axios_post net prompt ;;
        id_reply <- uuid ;;
        setMessages (fun prevMessages =>
          let updatedMessages := spread prevMessages in
          assign_last updatedMessages
            {| role := assistant; content := response; id := id_reply;
               animate := true |}) ;;;
        call_if_present (opt_chain callbacks onSuccess)
          (EvOnSuccess response) response)
       (fun error =>
          id_reply <- uuid ;;
          setMessages (fun prevMessages =>
            let updatedMessages := spread prevMessages in
            assign_last updatedMessages
              {| role := assistant;
                 content := js "Sorry, I encountered an error.";
                 id := id_reply; animate := false |}) ;;;
          call_if_present (opt_chain callbacks onError)
            (EvOnError error) error))
    (setLoading false).

(** [sendMessageWithCallback], lines 58-134. *)
Definition sendMessageWithCallback (net : Net) (prompt : jsstring)
    (callbacks : option Callbacks) : M unit :=
  if negb (truthy (trim prompt)) then ret tt
  else
    send_prologue prompt callbacks ;;;
    send_request net prompt callbacks.

(** A callback that leaves the caller's message log as it found it. *)
Definition keeps_log {A} (cb : option (Callback A)) : Prop :=
  forall f a l, cb = Some f -> snd (f a l) = l.

(** A callback that returns (does not throw). *)
Definition returns {A} (cb : option (Callback A)) : Prop :=
  forall f a l, cb = Some f -> fst (f a l) = Normal tt.

Definition callbacks_keep_log (callbacks : option Callbacks) : Prop :=
  keeps_log (opt_chain callbacks onStart)
  /\ keeps_log (opt_chain callbacks onSuccess)
  /\ keeps_log (opt_chain callbacks onError).

Definition fallback : jsstring := js "Sorry, I encountered an error.".

(** The rest of the application leaves the world alone while the request
    is in flight: no concurrent send, no other mutation of the log. *)
Definition undisturbed (net : Net) : Prop := forall w, during net w = w.

(** The prologue runs to its end ([onStart], when given, returns), so the
    request is issued and the call settles with it. *)
Definition request_issued (prompt : jsstring) (callbacks : option Callbacks)
    (w : World) : Prop :=
  fst (send_prologue prompt callbacks w) = Normal tt.

(** Postcondition of one settled send on the log it started from: the
    prologue appended [userMessage] and the placeholder [loadingMessage],
    and the log ends with [userMessage] and a [reply] put in the
    placeholder's place. *)
Definition placeholder_replaced (net : Net) (prompt : jsstring)
    (callbacks : option Callbacks) (w : World) : Prop :=
  exists userMessage loadingMessage reply w1,
    send_prologue prompt callbacks w = (Normal tt, w1)
    /\ elems (messages w1)
       = elems (messages w) ++ [userMessage; loadingMessage]
    /\ content loadingMessage = js "..."
    /\ let w2 := snd (sendMessageWithCallback net prompt callbacks w) in
       elems (messages w2) = elems (messages w) ++ [userMessage; reply]
       /\ length (elems (messages w2)) = length (elems (messages w)) + 2
       /\ role userMessage = user /\ content userMessage = prompt
       /\ role reply = assistant
       /\ ((exists resp, outcome net = Normal resp
                        /\ content reply = resp /\ animate reply = true)
           \/ (content reply = fallback /\ animate reply = false))
       /\ (forall e, outcome net = Throw e ->
           content reply = fallback /\ animate reply = false)
       /\ (forall resp, outcome net = Normal resp ->
           returns (opt_chain callbacks onSuccess) ->
           content reply = resp /\ animate reply = true)
       /\ (content reply = js "..." -> outcome net = Normal (js "..."))
       /\ id reply <> id loadingMessage.

(** A request during which nothing else runs. *)
Definition quiet_net (o : Completion jsstring) : Net :=
  {| during := fun w => w; outcome := o |}.

(** A request during which the user clears the conversation. *)
Definition cleared_net (o : Completion jsstring) : Net :=
  {| during := fun w => with_messages (array_lit []) w; outcome := o |}.

(** A fresh page: empty log, idle gateway. *)
Definition initial_world : World :=
  {| messages := array_lit []; loading := false; uuid_next := 0%N;
     trace := [] |}.

End AgentAPI.

(* ================================================================== *)
(** * components/MainArea/MainArea.tsx *)
(* ================================================================== *)

Module Sequencer.
Import Js.

(** A React Flow node or edge, with the fields the sequencer reads and
    writes: [obj.id], [obj.type] and [obj.data.active]. *)
Record GraphObj := {
  obj_id : jsstring;
  obj_type : jsstring;
  active : option bool      (* [None]: [data.active] never set *)
}.

Record AnimationStep := { ids : list jsstring }.

Record GraphConfig := {
  config_nodes : list GraphObj;
  config_edges : list GraphObj;
  animationSequence : list AnimationStep
}.

(** [utils/graphConfigs]: the supervisor, the alerts agent and the edge
    between them. *)
Definition graphConfig : GraphConfig :=
  {| config_nodes :=
       [ {| obj_id := js "1"; obj_type := js "customNode"; active := None |};
         {| obj_id := js "2"; obj_type := js "customNode"; active := None |} ];
     config_edges :=
       [ {| obj_id := js "1-2"; obj_type := js "custom"; active := None |} ];
     animationSequence :=
       [ {| ids := [js "1"] |}; {| ids := [js "1-2"] |}; {| ids := [js "2"] |} ] |}.

Definition DELAY_DURATION : nat := 500.
Definition HIGHLIGHT_ON : bool := true.
Definition HIGHLIGHT_OFF : bool := false.

(** State shared by every run of the effect: the graph collections
    ([useNodesState], [useEdgesState]), the lock ([animationLock.current])
    and the two flags owned by the parent component. *)
Record Shared := {
  nodes : list GraphObj;
  edges : list GraphObj;
  animationLock : bool;
  buttonClicked : bool;
  aiReplied : bool
}.

Definition with_graph (ns es : list GraphObj) (s : Shared) : Shared :=
  {| nodes := ns; edges := es; animationLock := animationLock s;
     buttonClicked := buttonClicked s; aiReplied := aiReplied s |}.

Definition with_lock (b : bool) (s : Shared) : Shared :=
  {| nodes := nodes s; edges := edges s; animationLock := b;
     buttonClicked := buttonClicked s; aiReplied := aiReplied s |}.

Definition with_buttonClicked (b : bool) (s : Shared) : Shared :=
  {| nodes := nodes s; edges := edges s; animationLock := animationLock s;
     buttonClicked := b; aiReplied := aiReplied s |}.

Definition with_aiReplied (b : bool) (s : Shared) : Shared :=
  {| nodes := nodes s; edges := edges s; animationLock := animationLock s;
     buttonClicked := buttonClicked s; aiReplied := b |}.

(** [{ ...obj, data: { ...obj.data, active } }] *)
Definition set_active (b : bool) (obj : GraphObj) : GraphObj :=
  {| obj_id := obj_id obj; obj_type := obj_type obj; active := Some b |}.

(** [updateStyle(id, active)], lines 129-143. *)
Definition updateStyle (id : jsstring) (b : bool) (s : Shared) : Shared :=
  let upd := List.map (fun obj =>
                         if strict_eq (obj_id obj) id then set_active b obj
                         else obj) in
  with_graph (upd (nodes s)) (upd (edges s)) s.

(** What one run of [waitForAnimationAndRun] does, as others can see it. *)
Inductive Action :=
| Acquire                                  (* [animationLock.current = true] *)
| Release                                  (* [animationLock.current = false] *)
| UpdateStyle (id : jsstring) (b : bool)
| Delay (ms : nat)                         (* [await delay(ms)] *)
| SetAiReplied (b : bool)
| SetButtonClicked (b : bool).

(** Where a run is suspended. *)
Inductive Pc :=
| AtLockTest                  (* before the [while] test: on entry and after [delay(100)] *)
| AfterOn (step : AnimationStep) (rest : list AnimationStep)
                              (* in the delay of [animate(step.ids, HIGHLIGHT.ON)] *)
| AfterOff (rest : list AnimationStep)
                              (* in the delay of [animate(step.ids, HIGHLIGHT.OFF)] *)
| Returned.

(** One run of the effect's async function: the [aiReplied] its closure
    captured, and where it stands. *)
Record Task := {
  aiReplied_seen : bool;
  pc : Pc
}.

(** A synchronous stretch of code: the actions it performs, the shared
    state it leaves, and where the run suspends. *)
Definition Segment : Type := list Action * Shared * Pc.

(** [animate(ids, active)] up to its [await], lines 155-158. *)
Definition animate (step_ids : list jsstring) (b : bool) (s : Shared)
    : list Action * Shared :=
  (List.map (fun id => UpdateStyle id b) step_ids ++ [Delay DELAY_DURATION],
   fold_left (fun s' id => updateStyle id b s') step_ids s).

(** The head of the [for ... of] loop of [animateGraph] with [remaining]
    steps to go, and the two statements after the loop, lines 163-172. *)
Definition loop_head (remaining : list AnimationStep) (s : Shared) : Segment :=
  match remaining with
  | step :: rest =>
      let '(acts, s') := animate (ids step) HIGHLIGHT_ON s in
      (acts, s', AfterOn step rest)
  | [] =>
      ([SetButtonClicked false; Release],
       with_lock false (with_buttonClicked false s), Returned)
  end.

(** [waitForAnimationAndRun], lines 148-176: the code run from where the
    task stands to its next [await] of a timer. *)
Definition resume (config : GraphConfig) (t : Task) (s : Shared) : Segment :=
  match pc t with
  | AtLockTest =>
      if animationLock s then ([Delay 100], s, AtLockTest)
      else
        let s1 := with_lock true s in
        if negb (aiReplied_seen t) then
          let '(acts, s2, pc') := loop_head (animationSequence config) s1 in
          (Acquire :: acts, s2, pc')
        else
          ([Acquire; SetAiReplied false; SetButtonClicked false; Release],
           with_lock false (with_buttonClicked false (with_aiReplied false s1)),
           Returned)
  | AfterOn step rest =>
      let '(acts, s') := animate (ids step) HIGHLIGHT_OFF s in
      (acts, s', AfterOff rest)
  | AfterOff rest => loop_head rest s
  | Returned => ([], s, Returned)
  end.

(** The component between two turns of the event loop: the shared state,
    every run of the effect started so far (a run is named by its
    position), and what the runs did, oldest first. *)
Record System := {
  shared : Shared;
  tasks : list Task;
  history : list (nat * Action)
}.

(** One turn of the event loop. *)
Inductive Turn :=
| Trigger                         (* the effect of lines 145-186 runs *)
| Timer (tid : nat)               (* the delay run [tid] awaits elapses *)
| Parent (clicked replied : bool) (* the parent sets its two flags *)
| Graph (ns es : list GraphObj).  (* [setNodes] / [setEdges] from elsewhere *)

Definition is_returned (p : Pc) : bool :=
  match p with Returned => true | _ => false end.

Definition run_segment (config : GraphConfig) (tid : nat) (t : Task)
    (rest_of : Task -> list Task) (sys : System) : System :=
  let '(acts, s', pc') := resume config t (shared sys) in
  {| shared := s';
     tasks := rest_of {| aiReplied_seen := aiReplied_seen t; pc := pc' |};
     history := history sys ++ List.map (fun a => (tid, a)) acts |}.

Definition turn (config : GraphConfig) (c : Turn) (sys : System) : System :=
  match c with
  | Trigger =>
      (* [if (!buttonClicked && !aiReplied) return] *)
      if negb (buttonClicked (shared sys)) && negb (aiReplied (shared sys))
      then sys
      else
        run_segment config (length (tasks sys))
          {| aiReplied_seen := aiReplied (shared sys); pc := AtLockTest |}
          (fun t' => tasks sys ++ [t']) sys
  | Timer tid =>
      match tasks sys !! tid with
      | Some t =>
          if is_returned (pc t) then sys
          else run_segment config tid t (fun t' => <[tid := t']> (tasks sys)) sys
      | None => sys
      end
  | Parent clicked replied =>
      {| shared := with_aiReplied replied (with_buttonClicked clicked (shared sys));
         tasks := tasks sys; history := history sys |}
  | Graph ns es =>
      {| shared := with_graph ns es (shared sys);
         tasks := tasks sys; history := history sys |}
  end.

(** A schedule: the turns the event loop takes, in order. *)
Definition exec (config : GraphConfig) (schedule : list Turn) (sys : System)
    : System :=
  fold_left (fun sys' c => turn config c sys') schedule sys.

(** The component as mounted: the graph of the configuration, the lock
    free, both flags down, no run started. *)
Definition mounted (config : GraphConfig) : System :=
  {| shared := {| nodes := config_nodes config; edges := config_edges config;
                  animationLock := false; buttonClicked := false;
                  aiReplied := false |};
     tasks := []; history := [] |}.

(** A run holds the lock from its [Acquire] to its [Release]: exactly
    while it is suspended inside the sweep. *)
Definition holding (p : Pc) : bool :=
  match p with AfterOn _ _ | AfterOff _ => true | _ => false end.

(** Reading a history for the lock discipline. [serialized_from h hist]
    follows who holds the lock, starting from holder [h]: a run acquires
    only a free lock and releases only its own; it updates styles, sets
    flags and sleeps its 500ms only while it is the holder; and a run
    sleeps 100ms only while another run is the holder. The result is the
    holder at the end, or [None] if the history breaks the discipline. *)
Fixpoint serialized_from (h : option nat) (hist : list (nat * Action))
    : option (option nat) :=
  match hist with
  | [] => Some h
  | (tid, a) :: rest =>
      match h, a with
      | None, Acquire => serialized_from (Some tid) rest
      | Some _, Acquire => None
      | Some t, Release =>
          if Nat.eqb t tid then serialized_from None rest else None
      | Some t, Delay ms =>
          if Nat.eqb t tid
          then if Nat.eqb ms DELAY_DURATION then serialized_from h rest else None
          else if Nat.eqb ms 100 then serialized_from h rest else None
      | Some t, (UpdateStyle _ _ | SetAiReplied _ | SetButtonClicked _) =>
          if Nat.eqb t tid then serialized_from h rest else None
      | None, _ => None
      end
  end.

Definition serialized (hist : list (nat * Action)) : Prop :=
  is_Some (serialized_from None hist).

Definition held (h : option nat) : bool :=
  match h with Some _ => true | None => false end.

Definition tagged (tid : nat) (acts : list Action) : list (nat * Action) :=
  List.map (fun a => (tid, a)) acts.

(** What ties a system to the reading of its history: the lock is up
    exactly when the history has a holder, and the holder is the one run
    suspended inside its sweep. *)
Definition lock_invariant (sys : System) : Prop :=
  exists h,
    serialized_from None (history sys) = Some h
    /\ animationLock (shared sys) = held h
    /\ (forall tid t, tasks sys !! tid = Some t ->
                      holding (pc t) = true -> h = Some tid)
    /\ (forall tid, h = Some tid ->
                    exists t, tasks sys !! tid = Some t
                              /\ holding (pc t) = true).

(** One highlight pulse of a step, as the specification words it: every id
    of the step on, 500ms, the same ids off, 500ms. *)
Definition pulse (step : AnimationStep) : list Action :=
  List.map (fun id => UpdateStyle id true) (ids step) ++ [Delay 500]
  ++ List.map (fun id => UpdateStyle id false) (ids step) ++ [Delay 500].

(** A whole sweep: the lock taken, one pulse per step in the order of the
    sequence, the click flag reset, the lock released. *)
Definition sweep (sequence : list AnimationStep) : list Action :=
  [Acquire] ++ flat_map pulse sequence ++ [SetButtonClicked false; Release].

(** "Mark every referenced node/edge": the objects whose id is listed get
    [active := b], the others are left as they are. *)
Definition mark (step_ids : list jsstring) (b : bool) (objs : list GraphObj)
    : list GraphObj :=
  List.map (fun obj =>
              if existsb (strict_eq (obj_id obj)) step_ids
              then set_active b obj else obj) objs.

(** The graph after the pulses of the steps [done]. *)
Definition after_pulses (done : list AnimationStep) (s : Shared) : Shared :=
  fold_left (fun s' p => snd (animate (ids p) HIGHLIGHT_OFF
                                (snd (animate (ids p) HIGHLIGHT_ON s'))))
    done s.

(** The component with no run started yet, on shared state [s]. *)
Definition idle (s : Shared) : System :=
  {| shared := s; tasks := []; history := [] |}.

(** One trigger, and the timers of its run firing [k] times with nothing
    else going on. *)
Definition lone_run (k : nat) : list Turn := Trigger :: repeat (Timer 0) k.

(** The mounted component right after the user pressed send. *)
Definition clicked : Shared :=
  {| nodes := config_nodes graphConfig; edges := config_edges graphConfig;
     animationLock := false; buttonClicked := true; aiReplied := false |}.

(** The same with the reply already in. *)
Definition replied : Shared :=
  {| nodes := config_nodes graphConfig; edges := config_edges graphConfig;
     animationLock := false; buttonClicked := true; aiReplied := true |}.

End Sequencer.

(* ================================================================== *)
(** * hooks/useChatAreaMeasurement *)
(* ================================================================== *)

Module ChatAreaMeasurement.
Import Js.

(** [a !== b] on numbers and on booleans *)
Definition number_neq (a b : number) : bool := negb (PrimFloat.eqb a b).
Definition bool_neq (a b : bool) : bool := xorb a b.

(** [UseChatAreaMeasurementOptions]; [onHeightChange] is kept as its
    presence, its calls are recorded in [notified]. *)
Record Options := {
  opt_debounceMs : option nat;
  opt_onHeightChange : bool
}.

(** [const { debounceMs = 150, onHeightChange } = options] *)
Definition debounceMs (options : Options) : nat :=
  match opt_debounceMs options with
  | Some ms => ms
  | None => 150
  end.

(** A pending [window.setTimeout]: its handle, when it is due, and what
    the closure of the callback captured ([newHeight], and the [height]
    and [isExpanded] of the render that made [debouncedHeightUpdate]). *)
Record Timeout := {
  handle : nat;
  due : nat;
  newHeight : number;
  seen_height : number;
  seen_isExpanded : bool
}.

(** The hook's state, the browser's pending timeouts and clock (in ms),
    and what the hook emitted: the [setHeight] / [setIsExpanded] pairs and
    the calls of [onHeightChange], oldest first. *)
Record Hook := {
  height : number;
  isExpanded : bool;
  debounceTimeoutRef : option nat;
  pending : list Timeout;
  next_handle : nat;
  now : nat;
  updates : list (number * bool);
  notified : list number
}.

(** As mounted: [useState(0)], [useState(false)], [useRef(null)]. Handles
    of [setTimeout] are positive. *)
Definition mounted : Hook :=
  {| height := 0%float; isExpanded := false; debounceTimeoutRef := None;
     pending := []; next_handle := 1; now := 0; updates := [];
     notified := [] |}.

(** [window.clearTimeout(h)] *)
Definition clearTimeout (h : nat) (k : Hook) : Hook :=
  {| height := height k; isExpanded := isExpanded k;
     debounceTimeoutRef := debounceTimeoutRef k;
     pending := List.filter (fun t => negb (Nat.eqb (handle t) h)) (pending k);
     next_handle := next_handle k; now := now k;
     updates := updates k; notified := notified k |}.

(** [debounceTimeoutRef.current = window.setTimeout(callback, ms)] with
    the callback of lines 69-82 closed over [h] and the current render. *)
Definition setTimeout_ref (ms : nat) (h : number) (k : Hook) : Hook :=
  {| height := height k; isExpanded := isExpanded k;
     debounceTimeoutRef := Some (next_handle k);
     pending := pending k
                ++ [ {| handle := next_handle k; due := now k + ms;
                        newHeight := h; seen_height := height k;
                        seen_isExpanded := isExpanded k |} ];
     next_handle := S (next_handle k); now := now k;
     updates := updates k; notified := notified k |}.

(** [debouncedHeightUpdate(newHeight)], lines 63-85. *)
Definition debouncedHeightUpdate (options : Options) (h : number) (k : Hook)
    : Hook :=
  let k1 :=
    match debounceTimeoutRef k with
    | Some r => if Nat.eqb r 0 then k else clearTimeout r k
    | None => k
    end in
  setTimeout_ref (debounceMs options) h k1.

(** The timeout callback, lines 69-82. *)
Definition callback (options : Options) (t : Timeout) (k : Hook) : Hook :=
  let wasExpanded := seen_isExpanded t in
  let nowExpanded := gt (newHeight t) 76%float in
  {| height := newHeight t; isExpanded := nowExpanded;
     debounceTimeoutRef := debounceTimeoutRef k;
     pending := pending k; next_handle := next_handle k; now := now k;
     updates := updates k ++ [(newHeight t, nowExpanded)];
     notified :=
       if opt_onHeightChange options
          && (number_neq (newHeight t) (seen_height t)
              || bool_neq wasExpanded nowExpanded)
       then notified k ++ [newHeight t] else notified k |}.

(** [dt] milliseconds pass: the timeouts that come due run, in the order
    they were set (with one delay for all of them, the order they come
    due). *)
Definition elapse (options : Options) (dt : nat) (k : Hook) : Hook :=
  let t := now k + dt in
  let ripe := List.filter (fun tm => Nat.leb (due tm) t) (pending k) in
  let rest := List.filter (fun tm => negb (Nat.leb (due tm) t)) (pending k) in
  fold_left (fun k' tm => callback options tm k') ripe
    {| height := height k; isExpanded := isExpanded k;
       debounceTimeoutRef := debounceTimeoutRef k;
       pending := rest; next_handle := next_handle k; now := t;
       updates := updates k; notified := notified k |}.

(** A measurement [(gap, h)]: [debouncedHeightUpdate(h)] is called, [gap]
    milliseconds after the event before it, be it from the
    [ResizeObserver] callback (lines 91-96) or from the measurement the
    effect takes itself when it subscribes (lines 100-101). *)
Definition measure (options : Options) (m : nat * number) (k : Hook) : Hook :=
  debouncedHeightUpdate options (snd m) (elapse options (fst m) k).

(** A run of measurements, then [quiet] milliseconds with none. *)
Definition observe (options : Options) (ms : list (nat * number)) (quiet : nat)
    (k : Hook) : Hook :=
  elapse options quiet (fold_left (fun k' m => measure options m k') ms k).

(** The hook between two measurements of a burst: one timeout pending,
    the one the ref names, set just now for height [h]. *)
Definition armed (options : Options) (h : number) (k : Hook) : Prop :=
  exists t,
    pending k = [t]
    /\ debounceTimeoutRef k = Some (handle t)
    /\ handle t <> 0
    /\ handle t < next_handle k
    /\ due t = now k + debounceMs options
    /\ newHeight t = h
    /\ seen_height t = height k
    /\ seen_isExpanded t = isExpanded k.

(** What a measurement leaves untouched: nothing is emitted by it. *)
Definition same_output (k k' : Hook) : Prop :=
  height k' = height k /\ isExpanded k' = isExpanded k
  /\ updates k' = updates k /\ notified k' = notified k.

(** The hook as the application composes it: [debounceMs: 100], no
    [onHeightChange]. *)
Definition app_options : Options :=
  {| opt_debounceMs := Some 100; opt_onHeightChange := false |}.

(** The hook on its own, with a listener. *)
Definition default_options : Options :=
  {| opt_debounceMs := None; opt_onHeightChange := true |}.

End ChatAreaMeasurement.

(* ================================================================== *)
(** * The gateway seen from its callers *)
(* ================================================================== *)

Module Conversation.
Import Js AgentAPI.

(** The prompts of the requests in a trace, in the order issued. *)
Fixpoint posts (tr : list Event) : list jsstring :=
  match tr with
  | [] => []
  | EvPost _ prompt :: tr' => prompt :: posts tr'
  | _ :: tr' => posts tr'
  end.

(** The ids in the log are pairwise distinct and all drawn already. *)
Definition ids_fresh (w : World) : Prop :=
  NoDup (List.map id (elems (messages w)))
  /\ Forall (fun m => (id m < uuid_next w)%N) (elems (messages w)).

(** A request during which a second send, of [prompt2] without callbacks,
    starts and settles with [outcome2]. *)
Definition overtaken_net (prompt2 : jsstring) (outcome2 outcome1 : Completion jsstring)
    : Net :=
  {| during := fun w =>
       snd (sendMessageWithCallback (quiet_net outcome2) prompt2 None w);
     outcome := outcome1 |}.

Definition is_normal {A} (c : Completion A) : bool :=
  match c with Normal _ => true | Throw _ => false end.

End Conversation.

(* ================================================================== *)
(** * The sequencer: what is left of a sweep *)
(* ================================================================== *)

Module SweepProgress.
Import Js Sequencer.

(** How many more timers a run awaits before it returns, when nothing
    keeps it waiting for the lock. *)
Definition timers_left (p : Pc) : nat :=
  match p with
  | AfterOn _ rest => 2 * length rest + 2
  | AfterOff rest => 2 * length rest + 1
  | AtLockTest | Returned => 0
  end.

(** What a run inside its sweep still has to do. *)
Definition actions_left (p : Pc) : list Action :=
  match p with
  | AfterOn step rest =>
      List.map (fun id => UpdateStyle id false) (ids step) ++ [Delay 500]
      ++ flat_map pulse rest ++ [SetButtonClicked false; Release]
  | AfterOff rest =>
      flat_map pulse rest ++ [SetButtonClicked false; Release]
  | AtLockTest | Returned => []
  end.

(** What a node or an edge is, apart from its highlight. *)
Definition identity (objs : list GraphObj) : list (jsstring * jsstring) :=
  List.map (fun obj => (obj_id obj, obj_type obj)) objs.

(** Turns of the component itself: anything but an outside [setNodes] /
    [setEdges]. *)
Definition own_turn (c : Turn) : bool :=
  match c with Graph _ _ => false | _ => true end.

End SweepProgress.

(* ================================================================== *)
(** * The height observer: its timer and its teardown *)
(* ================================================================== *)

Module ObserverLife.
Import Js ChatAreaMeasurement.

(** The cleanup of the subscribing effect, lines 103-110: the observer is
    disconnected (no measurement follows) and the timeout the ref names is
    cleared. *)
Definition teardown (k : Hook) : Hook :=
  match debounceTimeoutRef k with
  | Some r => if Nat.eqb r 0 then k else clearTimeout r k
  | None => k
  end.

(** At most one timeout is pending, and it is the one the ref names. *)
Definition tidy (k : Hook) : Prop :=
  next_handle k <> 0
  /\ (pending k = []
      \/ exists t, pending k = [t]
                   /\ debounceTimeoutRef k = Some (handle t)
                   /\ handle t <> 0 /\ handle t < next_handle k).

(** The state and every update emitted agree with [isExpanded = height >
    76]. *)
Definition coherent (k : Hook) : Prop :=
  isExpanded k = gt (height k) 76%float
  /\ Forall (fun u => snd u = gt (fst u) 76%float) (updates k).

(** The measurements taken so far, none of them followed by a wait yet. *)
Definition measured (options : Options) (ms : list (nat * number)) (k : Hook)
    : Hook :=
  fold_left (fun k' m => measure options m k') ms k.

End ObserverLife.

(* ================================================================== *)
(** * components/Chat/Message.tsx *)
(* ================================================================== *)

Module MessageView.
Import Js.

Definition LF : N := 10%N.

(** [text.split("\n")]: the pieces between line feeds; the empty string
    gives one empty piece. *)
Fixpoint split_lines (text : jsstring) : list jsstring :=
  match text with
  | [] => [[]]
  | c :: rest =>
      if N.eqb c LF then [] :: split_lines rest
      else match split_lines rest with
           | line :: lines => (c :: line) :: lines
           | [] => [[c]]
           end
  end.

(** [lines.join("\n")] *)
Fixpoint join_lines (lines : list jsstring) : jsstring :=
  match lines with
  | [] => []
  | [line] => line
  | line :: rest => line ++ LF :: join_lines rest
  end.

(** [(line) => line.trim() !== ""] *)
Definition not_blank (line : jsstring) : bool := negb (strict_eq (trim line) []).

(** [normalizeMarkdown], lines 39-44; [ChatArea] applies the same
    expression to [agentResponse || ''] before it renders it. *)
Definition normalizeMarkdown (text : jsstring) : jsstring :=
  join_lines (List.filter not_blank (split_lines text)).

End MessageView.

(* ================================================================== *)
(** * contexts/ThemeContext.tsx *)
(* ================================================================== *)

Module ThemeContext.
Import Js.

(** The provider's state. [theme] is typed ["light" | "dark" | "system"],
    but it starts as whatever string the storage holds. *)
Record ThemeState := {
  theme : jsstring;
  systemTheme : jsstring
}.

(** The initializer of [theme], lines 14-17: [localStorage.getItem("theme")]
    ([None] for [null]), [|| "dark"]. *)
Definition initial_theme (savedTheme : option jsstring) : jsstring :=
  match savedTheme with
  | Some s => if truthy s then s else js "dark"
  | None => js "dark"
  end.

(** Lines 28-29. *)
Definition resolvedTheme (st : ThemeState) : jsstring :=
  if strict_eq (theme st) (js "system") then systemTheme st else theme st.

(** Line 75. *)
Definition isLightMode (st : ThemeState) : bool :=
  strict_eq (resolvedTheme st) (js "light").

(** [toggleTheme], lines 67-73. *)
Definition toggleTheme (st : ThemeState) : ThemeState :=
  if strict_eq (resolvedTheme st) (js "light")
  then {| theme := js "dark"; systemTheme := systemTheme st |}
  else {| theme := js "light"; systemTheme := systemTheme st |}.

(** What the effect of lines 43-61 stores: [localStorage.setItem("theme",
    theme)]. *)
Definition stored (st : ThemeState) : option jsstring := Some (theme st).

End ThemeContext.

(* ================================================================== *)
(** * App.tsx and components/Chat/ChatArea.tsx: sending from the input *)
(* ================================================================== *)

Module ChatFlow.
Import Js AgentAPI.

(** The state cells of [App] and [ChatArea] besides the message log. *)
Record UI := {
  aiReplied : bool;
  buttonClicked : bool;
  currentUserMessage : jsstring;
  agentResponse : jsstring;
  isAgentLoading : bool;
  input_content : jsstring;    (* [ChatArea]'s [content]: the input field *)
  isMinimized : bool
}.

Record AppState := {
  world : World;               (* the log and [ChatArea]'s gateway *)
  ui : UI
}.

(** The [setMessages] updater of [handleApiResponse], App.tsx lines 74-82:
    the last element keeps its role and id and takes the response and
    [animate: !isError]. On an empty log the index is -1 and the object
    assigned has no role and no id; it is no message and nothing reads it,
    so the copy is returned with its elements as they are. *)
Definition merge_last (response : jsstring) (isError : bool) (prev : JsArray)
    : JsArray :=
  let updated := spread prev in
  match List.rev (elems updated) with
  | m :: _ =>
      assign_last updated
        {| role := role m; content := response; id := id m;
           animate := negb isError |}
  | [] => updated
  end.

(** [handleApiResponse], the other cells: App.tsx lines 71-72. *)
Definition handleApiResponse_ui (response : jsstring) (u : UI) : UI :=
  {| aiReplied := aiReplied u; buttonClicked := buttonClicked u;
     currentUserMessage := currentUserMessage u;
     agentResponse := response; isAgentLoading := false;
     input_content := input_content u; isMinimized := isMinimized u |}.

(** [handleUserInput], App.tsx lines 85-88. *)
Definition handleUserInput (query : jsstring) (u : UI) : UI :=
  {| aiReplied := aiReplied u; buttonClicked := buttonClicked u;
     currentUserMessage := query;
     agentResponse := agentResponse u; isAgentLoading := true;
     input_content := input_content u; isMinimized := isMinimized u |}.

Definition setContent (s : jsstring) (u : UI) : UI :=
  {| aiReplied := aiReplied u; buttonClicked := buttonClicked u;
     currentUserMessage := currentUserMessage u;
     agentResponse := agentResponse u; isAgentLoading := isAgentLoading u;
     input_content := s; isMinimized := isMinimized u |}.

Definition setButtonClicked (b : bool) (u : UI) : UI :=
  {| aiReplied := aiReplied u; buttonClicked := b;
     currentUserMessage := currentUserMessage u;
     agentResponse := agentResponse u; isAgentLoading := isAgentLoading u;
     input_content := input_content u; isMinimized := isMinimized u |}.

Definition setAiReplied (b : bool) (u : UI) : UI :=
  {| aiReplied := b; buttonClicked := buttonClicked u;
     currentUserMessage := currentUserMessage u;
     agentResponse := agentResponse u; isAgentLoading := isAgentLoading u;
     input_content := input_content u; isMinimized := isMinimized u |}.

Definition setIsMinimized (b : bool) (u : UI) : UI :=
  {| aiReplied := aiReplied u; buttonClicked := buttonClicked u;
     currentUserMessage := currentUserMessage u;
     agentResponse := agentResponse u; isAgentLoading := isAgentLoading u;
     input_content := input_content u; isMinimized := b |}.

(** The callbacks [processMessageWithQuery] passes, ChatArea.tsx lines
    76-93, as far as they write the log: [onStart] does not, [onSuccess]
    and [onError] do through [onApiResponse]. None of them throws. *)
Definition chat_callbacks : option Callbacks :=
  Some {| onStart := Some (fun _ l => (Normal tt, l));
          onSuccess := Some (fun response l =>
                               (Normal tt, merge_last response false l));
          onError := Some (fun _ l => (Normal tt, merge_last fallback true l)) |}.

(** The same callbacks as far as they write the other cells, by the call
    the gateway recorded. These cells are not read by the gateway, so the
    writes are replayed after it, in the order of the calls. *)
Definition replay (e : Event) (u : UI) : UI :=
  match e with
  | EvOnStart => setButtonClicked true (setContent [] u)
  | EvOnSuccess response => handleApiResponse_ui response (setAiReplied true u)
  | EvOnError _ => handleApiResponse_ui fallback u
  | EvSetLoading _ | EvPost _ _ => u
  end.

(** [processMessage], ChatArea.tsx lines 97-107, with
    [processMessageWithQuery], lines 72-95. *)
Definition processMessage (net : Net) (st : AppState) : AppState :=
  let u1 := if isMinimized (ui st) then setIsMinimized false (ui st) else ui st in
  let u2 := handleUserInput (input_content u1) u1 in
  let '(c, w') :=
    sendMessageWithCallback net (input_content (ui st)) chat_callbacks (world st) in
  let calls := skipn (length (trace (world st))) (trace w') in
  let u3 := fold_left (fun u e => replay e u) calls u2 in
  {| world := w';
     ui := match c with Normal _ => setContent [] u3 | Throw _ => u3 end |}.

(** [handleKeyDown], ChatArea.tsx lines 109-114: Enter without Shift sends,
    whatever the input holds. *)
Definition handleKeyDown (net : Net) (key : jsstring) (shiftKey : bool)
    (st : AppState) : AppState :=
  if strict_eq key (js "Enter") && negb shiftKey
  then processMessage net st else st.

(** The send button, ChatArea.tsx lines 224-228: it sends only an input
    that is not blank, and only while the gateway is idle. *)
Definition clickSend (net : Net) (st : AppState) : AppState :=
  if truthy (trim (input_content (ui st))) && negb (loading (world st))
  then processMessage net st else st.

End ChatFlow.

(* ================================================================== *)
(** * The sequencer: one run among the others *)
(* ================================================================== *)

Module RunAmongOthers.
Import Js Sequencer.

(** What run [tid] did so far, read off the history. *)
Definition by_run (tid : nat) (hist : list (nat * Action)) : list Action :=
  List.map snd (List.filter (fun e => Nat.eqb (fst e) tid) hist).

(** Run [tid] takes the lock in turn [c], the [aiReplied] of its closure
    being [seen]: either the effect runs and the new run finds the lock
    free at once (what the closure holds is then the flag as it is), or
    the run was waiting and its 100ms delay elapses with the lock free
    (what the closure holds is the flag as it was when the run started). *)
Definition takes_lock (c : Turn) (tid : nat) (seen : bool) (sys : System)
    : Prop :=
  animationLock (shared sys) = false
  /\ ((c = Trigger
       /\ tid = length (tasks sys)
       /\ buttonClicked (shared sys) || aiReplied (shared sys) = true
       /\ seen = aiReplied (shared sys))
      \/ (c = Timer tid
          /\ tasks sys !! tid
             = Some {| aiReplied_seen := seen; pc := AtLockTest |})).

(** The turns the component takes beside run [tid]: the effect running
    again, the timers of the other runs, the parent setting its flags. *)
Definition beside (tid : nat) (c : Turn) : bool :=
  match c with
  | Trigger | Parent _ _ => true
  | Timer j => negb (Nat.eqb j tid)
  | Graph _ _ => false
  end.

Definition all_beside (tid : nat) (gaps : list (list Turn)) : bool :=
  forallb (forallb (beside tid)) gaps.

(** The timers of run [tid] firing one after the other, each after the
    turns [gap] the component takes beside the run in the meantime. *)
Definition own_timers (tid : nat) (gaps : list (list Turn)) : list Turn :=
  flat_map (fun gap => gap ++ [Timer tid]) gaps.

(** Run [tid], whose closure holds [seen], is suspended at [p]; the graph
    is [ns], [es] and the run did [acts] so far. *)
Definition stands_at (tid : nat) (seen : bool) (p : Pc)
    (ns es : list GraphObj) (acts : list Action) (sys : System) : Prop :=
  lock_invariant sys
  /\ tasks sys !! tid = Some {| aiReplied_seen := seen; pc := p |}
  /\ nodes (shared sys) = ns
  /\ edges (shared sys) = es
  /\ by_run tid (history sys) = acts.

(** The two halves of a pulse. *)
Definition lights (b : bool) (step : AnimationStep) : list Action :=
  List.map (fun id => UpdateStyle id b) (ids step) ++ [Delay DELAY_DURATION].

(** The schedule of the reply scenario on the shipped graph: the user
    sends (a sweep starts), the reply comes in while the sweep is on (a
    second run starts and waits), the sweep ends and, the click flag
    having changed, the effect runs once more. *)
Definition reply_during_sweep : list Turn :=
  [ Parent true false; Trigger; Parent true true; Trigger; Timer 1 ]
  ++ repeat (Timer 0) 6 ++ [ Trigger ].

(** The same, then the waiting run is served and the user sends again. *)
Definition second_send : list Turn :=
  reply_during_sweep ++ [ Timer 1; Parent true false ].

End RunAmongOthers.

(* ================================================================== *)
(** * The height observer and its subscribing effect *)
(* ================================================================== *)

Module Subscription.
Import Js ChatAreaMeasurement ObserverLife.

(** [Object.is(a, b)] on numbers: how React compares a new state with the
    current one, and the dependencies of a hook from one render to the
    next. *)
Definition same_value (a b : number) : bool :=
  if PrimFloat.is_nan a then PrimFloat.is_nan b
  else PrimFloat.eqb a b
       && (negb (PrimFloat.is_zero a)
           || Bool.eqb (PrimFloat.get_sign a) (PrimFloat.get_sign b)).

(** The hook together with the panel [chatRef] points to: the height the
    browser reports for the element, which is what both
    [getBoundingClientRect().height] (line 100) and the observer's
    [contentRect.height] (line 93) read; the chat panel has neither
    padding nor border, so the two agree. *)
Record Panel := {
  hook : Hook;
  element_height : number
}.

Definition with_hook (k : Hook) (p : Panel) : Panel :=
  {| hook := k; element_height := element_height p |}.

(** The body of the effect, lines 88-101, with the element in place: a
    new [ResizeObserver] is put on the panel and the panel is measured at
    once (lines 100-101); the new observer then delivers its first report,
    the size of the panel it has just been put on (lines 91-96). *)
Definition subscribe (options : Options) (p : Panel) : Panel :=
  let h := element_height p in
  with_hook
    (debouncedHeightUpdate options h
       (debouncedHeightUpdate options h (hook p)))
    p.

(** A render follows a timeout callback only if it changed [height] or
    [isExpanded]; these being dependencies of [debouncedHeightUpdate]
    (line 84), it is then a new function, and the effect that depends on
    it (line 111) runs again. *)
Definition state_changed (k k' : Hook) : bool :=
  negb (same_value (height k') (height k))
  || xorb (isExpanded k') (isExpanded k).

(** A timeout comes due: it leaves the browser's queue, the clock being
    at its time. *)
Definition expire (t : Timeout) (k : Hook) : Hook :=
  {| height := height k; isExpanded := isExpanded k;
     debounceTimeoutRef := debounceTimeoutRef k;
     pending := List.filter (fun tm => negb (Nat.eqb (handle tm) (handle t)))
                  (pending k);
     next_handle := next_handle k; now := Nat.max (now k) (due t);
     updates := updates k; notified := notified k |}.

(** The timeout callback runs (lines 69-82); if it changed the state the
    effect runs again: cleanup of the previous run (lines 103-110), then
    the body. *)
Definition fire (options : Options) (t : Timeout) (p : Panel) : Panel :=
  let k := expire t (hook p) in
  let k' := callback options t k in
  if state_changed k k'
  then subscribe options (with_hook (teardown k') p)
  else with_hook k' p.

(** The timeouts due by [until] run one after the other, the oldest
    first, those set meanwhile included; [fuel] bounds their number. *)
Fixpoint run_due (fuel : nat) (options : Options) (until : nat) (p : Panel)
    : Panel :=
  match fuel with
  | 0 => p
  | S fuel' =>
      match List.filter (fun tm => Nat.leb (due tm) until) (pending (hook p)) with
      | [] => p
      | t :: _ => run_due fuel' options until (fire options t p)
      end
  end.

Definition set_now (t : nat) (k : Hook) : Hook :=
  {| height := height k; isExpanded := isExpanded k;
     debounceTimeoutRef := debounceTimeoutRef k; pending := pending k;
     next_handle := next_handle k; now := t;
     updates := updates k; notified := notified k |}.

(** [dt] milliseconds pass with the panel keeping its size. A timeout
    that runs sets at most one new one, an interval later, and only when
    it changed the state: [dt + 2] runs are more than can come due. *)
Definition wait (options : Options) (dt : nat) (p : Panel) : Panel :=
  let until := now (hook p) + dt in
  let p' := run_due (S (S dt)) options until p in
  with_hook (set_now until (hook p')) p'.

(** The panel takes height [h], [gap] milliseconds after the event before:
    the observer reports it (lines 91-96). *)
Definition resize (options : Options) (m : nat * number) (p : Panel) : Panel :=
  let p' := wait options (fst m) p in
  {| hook := debouncedHeightUpdate options (snd m) (hook p');
     element_height := snd m |}.

(** A run of size changes, then [quiet] milliseconds with none. *)
Definition watch (options : Options) (ms : list (nat * number)) (quiet : nat)
    (p : Panel) : Panel :=
  wait options quiet (fold_left (fun p' m => resize options m p') ms p).

(** The component mounts with the panel [h0] high: the effect runs for
    the first time. *)
Definition mount (options : Options) (h0 : number) : Panel :=
  subscribe options {| hook := mounted; element_height := h0 |}.

(** The update a measurement [h] leads to. *)
Definition update_of (h : number) : number * bool := (h, gt h 76%float).

(** What the timeout callbacks emit for a measurement [h] that is followed
    by [idle] milliseconds without another, the state before being [st]:
    the update once, and once more if it changed the state and two
    intervals or more go by. *)
Definition emitted (options : Options) (st : number * bool) (h : number)
    (idle : nat) : list (number * bool) :=
  update_of h
  :: (if (negb (same_value h (fst st)) || xorb (gt h 76%float) (snd st))
         && Nat.leb (2 * debounceMs options) idle
      then [update_of h] else []).

(** The same for a measurement [h] and the measurements [later], each
    with the time since the one before, and [quiet] milliseconds at the
    end. *)
Fixpoint reports (options : Options) (st : number * bool) (h : number)
    (later : list (nat * number)) (quiet : nat) : list (number * bool) :=
  match later with
  | [] => emitted options st h quiet
  | (gap, h') :: later' =>
      emitted options st h gap ++ reports options (update_of h) h' later' quiet
  end.


(** The panel of a page that has been left alone for a second after it
    mounted with an empty chat, 40 pixels high. *)
Definition settled_panel (options : Options) : Panel :=
  wait options 1000 (mount options 40%float).

End Subscription.

(* ================================================================== *)
(** * Properties *)
(* ================================================================== *)

Section FitViewFacts.
Import Js FitView.

(** The specification's own literal: a 1000px window with a 450px chat
    panel leaves 510px, the middle padding tier. *)
Example fit_literal_510 :
  (padding (fitViewWithViewportLogic 1000 1200 450 false) = 0.25)%float.
Proof. vm_compute. reflexivity. Qed.

Example fit_literal_350 :
  (padding (fitViewWithViewportLogic 500 1000 150 false) = 0.15)%float.
Proof. vm_compute. reflexivity. Qed.

(** C7: for all inputs the fit calculator derives
    availableHeight = windowHeight - chatHeight - 40 and
    availableWidth = windowWidth - 320, picks padding 0.15 / 0.25 / 0.35 by
    the 400/600 and 600/800 tiers, and bounds the zoom by
    max(0.4, availableHeight/1200) and min(1.8, availableWidth/600) when
    expanded, by the fixed 0.6 and 1.8 otherwise. *)
Theorem computeFit_matches_spec
    (windowHeight windowWidth chatHeight : number) (isExpanded : bool) :
  let r := fitViewWithViewportLogic windowHeight windowWidth chatHeight isExpanded in
  let h := availableHeight_spec windowHeight chatHeight in
  let w := availableWidth_spec windowWidth in
  padding r = padding_spec h w
  /\ minZoom r = minZoom_spec h isExpanded
  /\ maxZoom r = maxZoom_spec w isExpanded.
Proof.
  unfold fitViewWithViewportLogic, availableHeight_spec, availableWidth_spec,
    padding_spec, minZoom_spec, maxZoom_spec.
  destruct isExpanded; cbn [padding minZoom maxZoom]; repeat split; reflexivity.
Qed.

End FitViewFacts.

(* ------------------------------------------------------------------ *)
(** ** Strings *)

Section TrimFacts.
Import Js.

Lemma trimStart_nil_iff (s : jsstring) :
  trimStart s = [] <-> forallb is_whitespace s = true.
Proof.
  induction s as [|c s IH]; cbn; [tauto|].
  destruct (is_whitespace c); cbn; [exact IH|].
  split; discriminate.
Qed.

(** The trimmed form is empty exactly for the all-whitespace strings. *)
Lemma trim_nil_iff (s : jsstring) :
  trim s = [] <-> forallb is_whitespace s = true.
Proof.
  unfold trim, trimEnd. rewrite <- trimStart_nil_iff.
  split.
  - intros H. apply (f_equal (@rev N)) in H. rewrite rev_involutive in H.
    cbn in H. apply trimStart_nil_iff in H.
    rewrite forallb_forall in H.
    destruct (trimStart s) as [|c t] eqn:E; [reflexivity|].
    exfalso.
    assert (Hc : is_whitespace c = true).
    { apply H. apply in_rev. rewrite rev_involutive. now left. }
    clear H. induction s as [|d s IH]; cbn in E; [discriminate|].
    destruct (is_whitespace d) eqn:Ed; [now apply IH|].
    injection E as -> _. congruence.
  - intros ->. reflexivity.
Qed.

Lemma truthy_false_iff (s : jsstring) : truthy s = false <-> s = [].
Proof. destruct s; cbn; split; congruence. Qed.

Example trim_blank : trim (js "   ") = [].
Proof. reflexivity. Qed.

Example trim_padded : trim (js "  Red Line?  ") = js "Red Line?".
Proof. reflexivity. Qed.

End TrimFacts.

(* ------------------------------------------------------------------ *)
(** ** The request gateway *)

Section AgentAPIFacts.
Import Js AgentAPI.

Lemma insert_last {A} (l : list A) (x m : A) :
  <[length l := m]> (l ++ [x]) = l ++ [m].
Proof. induction l as [|y l IH]; cbn; [reflexivity|]. f_equal. exact IH. Qed.

Lemma assign_last_snoc (l : list Message) (x m : Message) (ps : list (Z * Message)) :
  elems (assign_last {| elems := l ++ [x]; props := ps |} m) = l ++ [m].
Proof.
  unfold assign_last. cbn [elems props].
  rewrite length_app, Nat.add_1_r.
  replace (Z.of_nat (S (length l)) - 1)%Z with (Z.of_nat (length l)) by lia.
  destruct (Z.ltb_spec (Z.of_nat (length l)) 0) as [H|_]; [lia|].
  cbn [elems]. rewrite Nat2Z.id. apply insert_last.
Qed.

Lemma assign_last_empty (ps : list (Z * Message)) (m : Message) :
  elems (assign_last {| elems := []; props := ps |} m) = []
  /\ exists ps', props (assign_last {| elems := []; props := ps |} m) = ((-1)%Z, m) :: ps'.
Proof. unfold assign_last. cbn. split; [reflexivity|]. eexists. reflexivity. Qed.

(** The rewrite of the last element, [updated = [...prev]] then
    [updated[updated.length - 1] = m], on a log that has a last element and
    on an empty one. *)
Lemma rewrite_last_snoc (a : JsArray) (l : list Message) (x m : Message) :
  elems a = l ++ [x] -> elems (assign_last (spread a) m) = l ++ [m].
Proof. intros E. unfold spread, array_lit. rewrite E. apply assign_last_snoc. Qed.

Lemma rewrite_last_empty (a : JsArray) (m : Message) :
  elems a = [] ->
  elems (assign_last (spread a) m) = []
  /\ props (assign_last (spread a) m) = [((-1)%Z, m)].
Proof. intros E. unfold spread, array_lit, assign_last. rewrite E. split; reflexivity. Qed.

(** What a call of an optional callback can change. *)
Lemma call_if_present_frame {A} (cb : option (Callback A)) ev a w :
  let r := call_if_present cb ev a w in
  loading (snd r) = loading w
  /\ uuid_next (snd r) = uuid_next w
  /\ (keeps_log cb -> messages (snd r) = messages w)
  /\ (returns cb -> fst r = Normal tt).
Proof.
  destruct cb as [f|]; cbn.
  - destruct (f a (messages w)) as [c l] eqn:E. cbn.
    repeat split; try reflexivity.
    + intros H. specialize (H f a (messages w) eq_refl). now rewrite E in H.
    + intros H. specialize (H f a (messages w) eq_refl). now rewrite E in H.
  - repeat split; reflexivity.
Qed.

(** The prologue appends the user message and the placeholder, raises the
    busy flag and calls [onStart]. *)
Lemma send_prologue_spec prompt callbacks w :
  let r := send_prologue prompt callbacks w in
  let userMessage :=
    {| role := user; content := prompt; id := uuid_next w; animate := false |} in
  let loadingMessage :=
    {| role := assistant; content := js "..."; id := N.succ (uuid_next w);
       animate := true |} in
  loading (snd r) = true
  /\ uuid_next (snd r) = N.succ (N.succ (uuid_next w))
  /\ (keeps_log (opt_chain callbacks onStart) ->
      messages (snd r)
      = array_lit (elems (messages w) ++ [userMessage; loadingMessage]))
  /\ (returns (opt_chain callbacks onStart) -> fst r = Normal tt).
Proof.
  cbv zeta. unfold send_prologue, bind, uuid, setMessages, setLoading, modify.
  cbn [with_uuid_next with_messages with_loading with_event
       messages loading uuid_next trace].
  match goal with
  | |- context [call_if_present ?cb ?ev ?a ?w0] =>
      pose proof (call_if_present_frame cb ev a w0) as F;
      destruct (call_if_present cb ev a w0) as [c w1]
  end.
  cbv zeta in F. cbn [fst snd messages loading uuid_next] in F |- *.
  destruct F as (F1 & F2 & F3 & F4).
  repeat split; auto.
Qed.

Ltac frame_call F :=
  match goal with
  | |- context [call_if_present ?cb ?ev ?a ?w0] =>
      pose proof (call_if_present_frame cb ev a w0) as F;
      cbv zeta in F;
      destruct (call_if_present cb ev a w0) as [? ?];
      cbn [fst snd messages loading uuid_next with_uuid_next with_messages
           with_loading with_event] in F;
      destruct F as (? & ? & ? & ?)
  end.

Ltac split8 :=
  refine (conj _ (conj _ (conj _ (conj _ (conj _ (conj _ (conj _ _))))))).

(** The busy flag is lowered on every exit of the [try] statement. *)
Lemma send_request_resets_loading net prompt callbacks w :
  loading (snd (send_request net prompt callbacks w)) = false.
Proof.
  unfold send_request, try_finally, setLoading, modify.
  destruct (try_catch _ _ w) as [c w']. reflexivity.
Qed.

Lemma send_request_spec net prompt callbacks w :
  keeps_log (opt_chain callbacks onSuccess) ->
  keeps_log (opt_chain callbacks onError) ->
  let w0 := during net (with_event (EvPost agent_prompt_path prompt) w) in
  let r := send_request net prompt callbacks w in
  exists reply,
    role reply = assistant
    /\ (uuid_next w0 <= id reply)%N
    /\ ((exists resp, outcome net = Normal resp
                     /\ content reply = resp /\ animate reply = true)
        \/ (content reply = fallback /\ animate reply = false))
    /\ (forall e, outcome net = Throw e ->
        content reply = fallback /\ animate reply = false)
    /\ (forall resp, outcome net = Normal resp ->
        returns (opt_chain callbacks onSuccess) ->
        content reply = resp /\ animate reply = true)
    /\ (forall l x, elems (messages w0) = l ++ [x] ->
        elems (messages (snd r)) = l ++ [reply])
    /\ (elems (messages w0) = [] ->
        elems (messages (snd r)) = []
        /\ exists ps, props (messages (snd r)) = ((-1)%Z, reply) :: ps)
    /\ (returns (opt_chain callbacks onSuccess) ->
        returns (opt_chain callbacks onError) -> fst r = Normal tt).
Proof.
  intros KS KE. cbv zeta.
  unfold send_request, try_finally, try_catch, bind, axios_post, uuid,
    setMessages, setLoading, modify.
  set (w0 := during net _).
  destruct (outcome net) as [resp|e].
  - cbn [with_uuid_next with_messages with_loading with_event
         messages loading uuid_next trace].
    frame_call F.
    specialize (H1 KS).
    destruct c as [[]|e].
    + exists {| role := assistant; content := resp; id := uuid_next w0;
                animate := true |}.
      cbn [fst snd role content id animate messages with_loading with_event].
      rewrite H1. split8.
      * reflexivity.
      * lia.
      * left. exists resp. now repeat split.
      * intros e0 He0. discriminate He0.
      * intros resp0 E _. injection E as <-. now split.
      * intros l x E. now apply rewrite_last_snoc with (x := x).
      * intros E. split; [|eexists]; now apply rewrite_last_empty.
      * reflexivity.
    + frame_call G.
      specialize (H5 KE).
      exists {| role := assistant; content := fallback;
                id := N.succ (uuid_next w0); animate := false |}.
      cbn [fst snd role content id animate messages with_loading with_event].
      rewrite H5, H1, H0. split8.
      * reflexivity.
      * lia.
      * right. now split.
      * intros e0 He0. discriminate He0.
      * intros resp0 _ R. specialize (H2 R). discriminate H2.
      * intros l x E.
        apply rewrite_last_snoc
          with (x := {| role := assistant; content := resp;
                        id := uuid_next w0; animate := true |}).
        now apply rewrite_last_snoc with (x := x).
      * intros E. split; [|eexists]; apply rewrite_last_empty;
          now apply rewrite_last_empty.
      * intros R _. specialize (H2 R). discriminate H2.
  - cbn [with_uuid_next with_messages with_loading with_event
         messages loading uuid_next trace].
    frame_call F.
    specialize (H1 KE).
    exists {| role := assistant; content := fallback; id := uuid_next w0;
              animate := false |}.
    cbn [fst snd role content id animate messages with_loading with_event].
    rewrite H1. split8.
    + reflexivity.
    + lia.
    + right. now split.
    + intros _ _. now split.
    + intros resp0 E. discriminate E.
    + intros l x E. now apply rewrite_last_snoc with (x := x).
    + intros E. split; [|eexists]; now apply rewrite_last_empty.
    + intros _ R. now apply H2.
Qed.

Lemma nonempty_trim_passes_guard (prompt : jsstring) :
  trim prompt <> [] -> negb (truthy (trim prompt)) = false.
Proof. destruct (trim prompt); cbn; congruence. Qed.

(** Once the request is issued (the prologue ran to its end), one send of
    a prompt that is not blank, with nothing else touching the log
    meanwhile, leaves the log two entries longer; the entry before the
    last is the user message carrying the prompt and the last one is an
    assistant message carrying the server's response (animate true) or the
    fixed fallback text (animate false), not the placeholder entry that
    stood there. *)
Lemma send_replaces_placeholder
    (net : Net) (prompt : jsstring) (callbacks : option Callbacks) (w : World) :
  trim prompt <> [] ->
  undisturbed net ->
  callbacks_keep_log callbacks ->
  request_issued prompt callbacks w ->
  placeholder_replaced net prompt callbacks w.
Proof.
  intros Hp Hu (KS & KOk & KE) RS. unfold request_issued in RS.
  unfold placeholder_replaced, sendMessageWithCallback.
  rewrite (nonempty_trim_passes_guard _ Hp). unfold bind.
  pose proof (send_prologue_spec prompt callbacks w) as P. cbv zeta in P.
  destruct (send_prologue prompt callbacks w) as [c w1].
  cbn [fst snd] in P, RS. destruct P as (_ & U1 & M1 & _).
  specialize (M1 KS). subst c.
  pose proof (send_request_spec net prompt callbacks w1 KOk KE) as R.
  cbv zeta in R. rewrite Hu in R. cbn [messages with_event] in R.
  destruct R as (reply & R1 & R2 & R3 & R4 & R5 & R6 & _).
  eexists _, _, reply, w1.
  split; [reflexivity|]. split; [rewrite M1; reflexivity|].
  split; [reflexivity|]. cbv zeta.
  assert (E : elems (messages (snd (send_request net prompt callbacks w1)))
              = elems (messages w) ++ [ {| role := user; content := prompt;
                                           id := uuid_next w; animate := false |};
                                        reply ]).
  { rewrite (R6 (elems (messages w) ++ [ {| role := user; content := prompt;
                                           id := uuid_next w; animate := false |} ])
                {| role := assistant; content := js "..."; id := N.succ (uuid_next w);
                   animate := true |}).
    - now rewrite <- app_assoc.
    - rewrite M1. cbn [elems array_lit]. now rewrite <- app_assoc. }
  split; [exact E|]. split; [rewrite E, length_app; reflexivity|].
  repeat (split; [first [reflexivity | assumption]|]).
  split.
  - intros Ec. destruct R3 as [(resp & Eo & Er & _)|[Ef _]].
    + now rewrite Eo, <- Er, Ec.
    + rewrite Ec in Ef. discriminate Ef.
  - cbn [id]. cbn [with_event uuid_next] in R2. lia.
Qed.

Example send_replaces_placeholder_on_success :
  placeholder_replaced (quiet_net (Normal (js "No delays on the Red Line.")))
    (js "Red Line delays?") None initial_world.
Proof.
  apply (send_replaces_placeholder
           (quiet_net (Normal (js "No delays on the Red Line.")))
           (js "Red Line delays?") None initial_world).
  - vm_compute. discriminate.
  - intros w. reflexivity.
  - repeat split; intros f a l H; discriminate H.
  - reflexivity.
Qed.

Example send_success_log :
  elems (messages (snd (sendMessageWithCallback
                          (quiet_net (Normal (js "No delays.")))
                          (js "Red Line delays?") None initial_world)))
  = [ {| role := user; content := js "Red Line delays?"; id := 0%N;
         animate := false |};
      {| role := assistant; content := js "No delays."; id := 2%N;
         animate := true |} ].
Proof. reflexivity. Qed.

Example send_failure_log :
  elems (messages (snd (sendMessageWithCallback
                          (quiet_net (Throw (AxiosError (js "ERR_NETWORK") None)))
                          (js "Red Line delays?") None initial_world)))
  = [ {| role := user; content := js "Red Line delays?"; id := 0%N;
         animate := false |};
      {| role := assistant; content := fallback; id := 2%N;
         animate := false |} ].
Proof. reflexivity. Qed.

(** A throwing [onSuccess] lands in the [catch] clause: the reply just
    written is overwritten with the fallback, [onError] is called, and the
    busy flag comes down. *)
Example onSuccess_throw_falls_back :
  let callbacks :=
    Some {| onStart := None;
            onSuccess := Some (fun _ l => (Throw (Error (js "boom")), l));
            onError := Some (fun _ l => (Normal tt, l)) |} in
  let r := sendMessageWithCallback (quiet_net (Normal (js "No delays.")))
             (js "Red Line delays?") callbacks initial_world in
  fst r = Normal tt
  /\ loading (snd r) = false
  /\ elems (messages (snd r))
     = [ {| role := user; content := js "Red Line delays?"; id := 0%N;
            animate := false |};
         {| role := assistant; content := fallback; id := 3%N;
            animate := false |} ]
  /\ trace (snd r)
     = [ EvSetLoading true; EvPost agent_prompt_path (js "Red Line delays?");
         EvOnSuccess (js "No delays."); EvOnError (Error (js "boom"));
         EvSetLoading false ].
Proof. repeat split. Qed.

(** The [try] statement keeps the promise of the cleanup clause: once the
    request is issued the busy flag comes down, whatever the network and
    the callbacks [onSuccess] and [onError] do. *)
Lemma loading_false_once_request_issued net prompt callbacks w :
  trim prompt <> [] ->
  request_issued prompt callbacks w ->
  loading (snd (sendMessageWithCallback net prompt callbacks w)) = false.
Proof.
  intros Hp RS. unfold request_issued in RS. unfold sendMessageWithCallback.
  rewrite (nonempty_trim_passes_guard _ Hp). unfold bind.
  destruct (send_prologue prompt callbacks w) as [c w1].
  cbn [fst] in RS. subst c. apply send_request_resets_loading.
Qed.

(** It is the call of [onStart], before [try], that escapes it. *)
Lemma loading_true_when_prologue_throws net prompt callbacks w :
  trim prompt <> [] ->
  ~ request_issued prompt callbacks w ->
  loading (snd (sendMessageWithCallback net prompt callbacks w)) = true.
Proof.
  intros Hp RS. unfold request_issued in RS. unfold sendMessageWithCallback.
  rewrite (nonempty_trim_passes_guard _ Hp). unfold bind.
  pose proof (send_prologue_spec prompt callbacks w) as P. cbv zeta in P.
  destruct (send_prologue prompt callbacks w) as [c w1].
  cbn [fst snd] in P, RS. destruct P as (Ld & _).
  destruct c as [[]|e]; [congruence|exact Ld].
Qed.

(** C2 fails on the code: [callbacks.onStart()] is called after
    [setLoading(true)] and before [try]; when it throws, no request is
    issued, the call rejects with the thrown value and the busy flag
    stays up with the placeholder still last in the log. *)
Theorem loading_stuck_when_onStart_throws (net : Net) (w : World) :
  let boom := Error (js "boom") in
  let callbacks :=
    Some {| onStart := Some (fun _ l => (Throw boom, l));
            onSuccess := None; onError := None |} in
  let r := sendMessageWithCallback net (js "Red Line delays?") callbacks w in
  fst r = Throw boom
  /\ loading (snd r) = true
  /\ trace (snd r) = trace w ++ [EvSetLoading true; EvOnStart]
  /\ (exists l u p, elems (messages (snd r)) = l ++ [u; p]
                   /\ content p = js "...").
Proof.
  cbv zeta. unfold sendMessageWithCallback.
  rewrite nonempty_trim_passes_guard by (vm_compute; discriminate).
  cbn. rewrite <- app_assoc. repeat split.
  eexists _, _, _. split; reflexivity.
Qed.

(** C1 fails on the code, by the slip C2 fails on: with a prompt that is
    not blank, callbacks that leave the log alone and nothing else
    touching it, a send whose [onStart] throws settles (it rejects with
    the thrown value) before any request is issued; the log is two entries
    longer, the entry before the last is the user message carrying the
    prompt, and the last entry is the ["..."] placeholder itself, animate
    true: neither a response (there is none) nor the fallback text. *)
Theorem placeholder_left_when_onStart_throws (net : Net) (w : World) :
  let boom := Error (js "boom") in
  let prompt := js "Red Line delays?" in
  let callbacks :=
    Some {| onStart := Some (fun _ l => (Throw boom, l));
            onSuccess := None; onError := None |} in
  let r := sendMessageWithCallback net prompt callbacks w in
  trim prompt <> []
  /\ callbacks_keep_log callbacks
  /\ fst r = Throw boom
  /\ elems (messages (snd r))
     = elems (messages w)
       ++ [ {| role := user; content := prompt; id := uuid_next w;
               animate := false |};
            {| role := assistant; content := js "...";
               id := N.succ (uuid_next w); animate := true |} ]
  /\ length (elems (messages (snd r))) = length (elems (messages w)) + 2
  /\ js "..." <> fallback
  /\ trace (snd r) = trace w ++ [EvSetLoading true; EvOnStart]
  /\ ~ placeholder_replaced net prompt callbacks w.
Proof.
  cbv zeta.
  assert (Hp : trim (js "Red Line delays?") <> []) by (vm_compute; discriminate).
  split; [exact Hp|].
  split.
  { repeat split; intros f a l H; cbn in H; try discriminate H.
    injection H as <-. reflexivity. }
  unfold sendMessageWithCallback.
  rewrite (nonempty_trim_passes_guard _ Hp).
  cbn -[js fallback trim]. rewrite <- app_assoc.
  split; [reflexivity|]. split; [reflexivity|].
  split; [rewrite length_app; reflexivity|].
  split; [vm_compute; discriminate|].
  split; [reflexivity|].
  intros (u & p & reply & w1 & P & _). cbn -[js] in P. discriminate P.
Qed.

(** C6: a prompt whose trimmed form is empty makes
    [sendMessageWithCallback] return at once: log, busy flag and trace of
    effects (callbacks, network request) are all as before. *)
Theorem blank_prompt_is_noop
    (net : Net) (prompt : jsstring) (callbacks : option Callbacks) (w : World) :
  trim prompt = [] ->
  sendMessageWithCallback net prompt callbacks w = (Normal tt, w).
Proof. intros H. unfold sendMessageWithCallback. now rewrite H. Qed.

Lemma blank_prompt_is_noop_witness :
  sendMessageWithCallback (quiet_net (Normal (js "unused"))) (js "   ") None
    initial_world
  = (Normal tt, initial_world).
Proof.
  apply (blank_prompt_is_noop (quiet_net (Normal (js "unused"))) (js "   ")
           None initial_world).
  reflexivity.
Defined.

(** C9: [sendMessage], unlike [sendMessageWithCallback], rejects a prompt
    whose trimmed form is empty with Error("Prompt cannot be empty"),
    before it touches the busy flag or the network. *)
Theorem sendMessage_rejects_blank (net : Net) (prompt : jsstring) (w : World) :
  trim prompt = [] ->
  sendMessage net prompt w = (Throw (Error (js "Prompt cannot be empty")), w)
  /\ forall callbacks,
       fst (sendMessageWithCallback net prompt callbacks w) = Normal tt.
Proof.
  intros H. unfold sendMessage, sendMessageWithCallback. rewrite H.
  split; reflexivity.
Qed.

Lemma sendMessage_rejects_blank_witness :
  sendMessage (quiet_net (Normal (js "unused"))) (js "   ") initial_world
  = (Throw (Error (js "Prompt cannot be empty")), initial_world)
  /\ forall callbacks,
       fst (sendMessageWithCallback (quiet_net (Normal (js "unused")))
              (js "   ") callbacks initial_world) = Normal tt.
Proof.
  apply (sendMessage_rejects_blank (quiet_net (Normal (js "unused")))
           (js "   ") initial_world).
  reflexivity.
Defined.

(** C10: when the log is empty at the moment the request settles, the
    rewrite of the last element leaves it empty: the reply goes to the
    property "-1" of the copied array, the element list is not extended,
    and nothing is thrown by the rewrite. *)
Theorem rewrite_on_empty_log
    (net : Net) (prompt : jsstring) (callbacks : option Callbacks) (w : World) :
  elems (messages (during net (with_event (EvPost agent_prompt_path prompt) w)))
  = [] ->
  keeps_log (opt_chain callbacks onSuccess) ->
  keeps_log (opt_chain callbacks onError) ->
  let r := send_request net prompt callbacks w in
  elems (messages (snd r)) = []
  /\ length (elems (messages (snd r))) = 0
  /\ (exists reply ps, props (messages (snd r)) = ((-1)%Z, reply) :: ps)
  /\ (returns (opt_chain callbacks onSuccess) ->
      returns (opt_chain callbacks onError) -> fst r = Normal tt).
Proof.
  intros E KOk KE. cbv zeta.
  destruct (send_request_spec net prompt callbacks w KOk KE)
    as (reply & _ & _ & _ & _ & _ & _ & R7 & R8).
  destruct (R7 E) as (R71 & ps & R72).
  split; [exact R71|]. split; [now rewrite R71|].
  split; [now exists reply, ps|]. exact R8.
Qed.

Lemma rewrite_on_empty_log_witness :
  let r := send_request (cleared_net (Normal (js "No delays.")))
             (js "Red Line delays?") None
             (snd (send_prologue (js "Red Line delays?") None initial_world)) in
  elems (messages (snd r)) = []
  /\ length (elems (messages (snd r))) = 0
  /\ (exists reply ps, props (messages (snd r)) = ((-1)%Z, reply) :: ps)
  /\ (returns (@None (Callback jsstring)) ->
      returns (@None (Callback Exn)) -> fst r = Normal tt).
Proof.
  apply (rewrite_on_empty_log (cleared_net (Normal (js "No delays.")))
           (js "Red Line delays?") None
           (snd (send_prologue (js "Red Line delays?") None initial_world))).
  - reflexivity.
  - intros f a l H. discriminate H.
  - intros f a l H. discriminate H.
Defined.

(** The whole call, with the conversation cleared while it is in flight. *)
Example send_then_clear :
  let r := sendMessageWithCallback (cleared_net (Normal (js "No delays.")))
             (js "Red Line delays?") None initial_world in
  fst r = Normal tt
  /\ elems (messages (snd r)) = []
  /\ props (messages (snd r))
     = [((-1)%Z, {| role := assistant; content := js "No delays.";
                    id := 2%N; animate := true |})].
Proof. repeat split. Qed.

End AgentAPIFacts.

(* ------------------------------------------------------------------ *)
(** ** The animation sequencer *)

Section SequencerFacts.
Import Js Sequencer.

Variable config : GraphConfig.

Lemma serialized_from_app h l1 l2 :
  serialized_from h (l1 ++ l2)
  = match serialized_from h l1 with
    | Some h' => serialized_from h' l2
    | None => None
    end.
Proof.
  revert h. induction l1 as [|[tid a] l1 IH]; intros h; [reflexivity|].
  cbn [app serialized_from].
  destruct h as [t|], a; try reflexivity; try apply IH;
    destruct (Nat.eqb t tid); try reflexivity; try apply IH;
    destruct (Nat.eqb _ _); try reflexivity; apply IH.
Qed.

Lemma updateStyle_lock id b s :
  animationLock (updateStyle id b s) = animationLock s.
Proof. reflexivity. Qed.

Lemma animate_lock step_ids b s :
  animationLock (snd (animate step_ids b s)) = animationLock s.
Proof.
  unfold animate. cbn [snd]. revert s.
  induction step_ids as [|id l IH]; intros s; cbn; [reflexivity|].
  now rewrite IH.
Qed.

(** The holder's own style updates and its 500ms sleep keep it holder. *)
Lemma animate_serial tid step_ids b s :
  serialized_from (Some tid) (tagged tid (fst (animate step_ids b s)))
  = Some (Some tid).
Proof.
  unfold animate, tagged. cbn [fst]. rewrite List.map_app, serialized_from_app.
  assert (E : serialized_from (Some tid)
                (List.map (fun a => (tid, a))
                   (List.map (fun id => UpdateStyle id b) step_ids))
              = Some (Some tid)).
  { induction step_ids as [|id l IH]; cbn; [reflexivity|].
    now rewrite Nat.eqb_refl. }
  rewrite E. cbn. now rewrite Nat.eqb_refl.
Qed.

Lemma loop_head_serial tid remaining s :
  animationLock s = true ->
  let '(acts, s', pc') := loop_head remaining s in
  serialized_from (Some tid) (tagged tid acts)
  = Some (if holding pc' then Some tid else None)
  /\ animationLock s' = holding pc'.
Proof.
  intros L. destruct remaining as [|step rest]; cbn [loop_head].
  - cbn. rewrite Nat.eqb_refl. now split.
  - pose proof (animate_serial tid (ids step) HIGHLIGHT_ON s) as A.
    pose proof (animate_lock (ids step) HIGHLIGHT_ON s) as B.
    destruct (animate (ids step) HIGHLIGHT_ON s) as [acts s'].
    cbn [fst snd holding] in *. split; [exact A|congruence].
Qed.

(** One synchronous stretch of a run, against the reading of the history. *)
Lemma resume_serial tid t s h :
  animationLock s = held h ->
  (holding (pc t) = true <-> h = Some tid) ->
  let '(acts, s', pc') := resume config t s in
  exists h',
    serialized_from h (tagged tid acts) = Some h'
    /\ animationLock s' = held h'
    /\ (holding pc' = true <-> h' = Some tid)
    /\ (h' = h \/ ((h = None \/ h = Some tid) /\ (h' = None \/ h' = Some tid))).
Proof.
  intros L H. unfold resume. destruct (pc t) as [|step rest|rest|] eqn:P.
  - (* at the lock test *)
    cbn [holding] in H.
    destruct (animationLock s) eqn:Lk.
    + destruct h as [o|]; [|discriminate L].
      exists (Some o). cbn.
      destruct (Nat.eqb_spec o tid) as [->|_].
      * exfalso. destruct H as [_ H]. specialize (H eq_refl). discriminate H.
      * repeat split; try discriminate; auto.
        intros E. injection E as ->.
        destruct H as [_ H]. now apply H.
    + destruct h as [o|]; [discriminate L|].
      destruct (aiReplied_seen t); cbn [negb].
      * exists None. cbn. rewrite Nat.eqb_refl.
        repeat split; try discriminate; auto.
      * pose proof (loop_head_serial tid (animationSequence config)
                      (with_lock true s) eq_refl) as LH.
        destruct (loop_head (animationSequence config) (with_lock true s))
          as [[acts s'] pc'].
        destruct LH as [S1 S2].
        exists (if holding pc' then Some tid else None).
        cbn [tagged List.map serialized_from]. fold (tagged tid acts).
        rewrite S1, S2.
        destruct (holding pc'); cbn; repeat split; try discriminate; auto.
  - (* in the sweep, after an ON stretch *)
    pose proof (animate_serial tid (ids step) HIGHLIGHT_OFF s) as A.
    pose proof (animate_lock (ids step) HIGHLIGHT_OFF s) as B.
    destruct (animate (ids step) HIGHLIGHT_OFF s) as [acts s'].
    cbn [fst snd holding] in *.
    destruct H as [H _]. specialize (H eq_refl). subst h.
    exists (Some tid). rewrite A, B, L. repeat split; auto.
  - (* in the sweep, after an OFF stretch *)
    cbn [holding] in H. destruct H as [H _]. specialize (H eq_refl). subst h.
    pose proof (loop_head_serial tid rest s L) as LH.
    destruct (loop_head rest s) as [[acts s'] pc'].
    destruct LH as [S1 S2].
    exists (if holding pc' then Some tid else None).
    rewrite S1, S2.
    destruct (holding pc'); cbn; repeat split; try discriminate; auto.
  - (* returned *)
    exists h. cbn. repeat split; auto; try discriminate; apply H.
Qed.

(** A stretch of run [tid] keeps the invariant, whether the run is new
    (placed at the end of the pool) or resumed in place. *)
Lemma run_segment_invariant tid t rest_of sys :
  lock_invariant sys ->
  (tasks sys !! tid = Some t
   \/ (tasks sys !! tid = None /\ holding (pc t) = false)) ->
  (forall t', rest_of t' !! tid = Some t') ->
  (forall t' j, j <> tid -> rest_of t' !! j = tasks sys !! j) ->
  lock_invariant (run_segment config tid t rest_of sys).
Proof.
  intros (h & S & L & I3 & I4) Ht U1 U2.
  assert (Hh : holding (pc t) = true <-> h = Some tid).
  { split.
    - intros Ho. destruct Ht as [Ht|[_ Ht]]; [now apply (I3 tid t)|congruence].
    - intros ->. destruct (I4 tid eq_refl) as (t0 & E0 & Ho).
      destruct Ht as [Ht|[Ht _]]; congruence. }
  pose proof (resume_serial tid t (shared sys) h L Hh) as R.
  unfold run_segment.
  destruct (resume config t (shared sys)) as [[acts s'] pc'].
  destruct R as (h' & S' & L' & Hh' & Hc).
  exists h'. cbn [history shared tasks].
  split; [|split; [exact L'|split]].
  - rewrite serialized_from_app, S. exact S'.
  - intros j tj Ej Ho.
    destruct (Nat.eq_dec j tid) as [->|Hne].
    + rewrite U1 in Ej. injection Ej as <-. now apply Hh'.
    + rewrite (U2 _ j Hne) in Ej. pose proof (I3 j tj Ej Ho) as E.
      destruct Hc as [->|[[E'|E'] _]]; congruence.
  - intros j E.
    destruct (Nat.eq_dec j tid) as [->|Hne].
    + eexists. split; [apply U1|]. now apply Hh'.
    + destruct Hc as [->|[_ [E'|E']]]; try congruence.
      destruct (I4 j E) as (t0 & E0 & Ho). exists t0.
      split; [|exact Ho]. now rewrite (U2 _ j Hne).
Qed.

Lemma turn_invariant c sys :
  lock_invariant sys -> lock_invariant (turn config c sys).
Proof.
  intros I. destruct c as [|tid|clicked replied|ns es]; cbn [turn].
  - destruct (negb _ && negb _); [exact I|].
    apply run_segment_invariant; [exact I| | |].
    + right. split; [|reflexivity]. apply lookup_ge_None_2. lia.
    + intros t'. now rewrite lookup_app_r, Nat.sub_diag by lia.
    + intros t' j Hne.
      destruct (Nat.lt_ge_cases j (length (tasks sys))) as [Hlt|Hge].
      * now apply lookup_app_l.
      * rewrite (lookup_ge_None_2 (tasks sys)) by lia.
        apply lookup_ge_None_2. rewrite length_app. cbn. lia.
  - destruct (tasks sys !! tid) as [t|] eqn:E; [|exact I].
    destruct (is_returned (pc t)); [exact I|].
    apply run_segment_invariant; [exact I| | |].
    + now left.
    + intros t'. apply list_lookup_insert_eq. now apply lookup_lt_Some in E.
    + intros t' j Hne. now apply list_lookup_insert_ne.
  - destruct I as (h & S & L & I3 & I4). now exists h.
  - destruct I as (h & S & L & I3 & I4). now exists h.
Qed.

Lemma exec_invariant schedule sys :
  lock_invariant sys -> lock_invariant (exec config schedule sys).
Proof.
  revert sys. induction schedule as [|c cs IH]; intros sys I; [exact I|].
  cbn. apply IH, turn_invariant, I.
Qed.

Lemma mounted_invariant : lock_invariant (mounted config).
Proof.
  exists None. cbn. repeat split; try discriminate.
Qed.

(** In a serialized history the holder keeps the lock until its own
    release, so the next style update after an [Acquire] not yet released
    is the holder's. *)
Lemma holder_updates_only i j id b l2 l3 r :
  serialized_from (Some i) (l2 ++ (j, UpdateStyle id b) :: l3) = Some r ->
  ~ In (i, Release) l2 ->
  j = i.
Proof.
  induction l2 as [|[tid a] l2 IH]; intros S N.
  - cbn in S. destruct (Nat.eqb_spec i j); [congruence|discriminate].
  - cbn [app serialized_from] in S.
    assert (N' : ~ In (i, Release) l2) by (intros X; apply N; now right).
    destruct a; try discriminate;
      destruct (Nat.eqb_spec i tid) as [->|_]; try discriminate;
      try (now apply IH);
      try (exfalso; apply N; now left);
      destruct (Nat.eqb _ _); try discriminate; now apply IH.
Qed.

Lemma serialized_no_interleaving hist l1 l2 l3 i j id b :
  serialized hist ->
  hist = l1 ++ (i, Acquire) :: l2 ++ (j, UpdateStyle id b) :: l3 ->
  ~ In (i, Release) l2 ->
  j = i.
Proof.
  intros [r S] -> N. rewrite serialized_from_app in S.
  destruct (serialized_from None l1) as [[o|]|]; cbn in S; try discriminate.
  now apply holder_updates_only in S.
Qed.

(** A run waiting for the lock: resumed while the lock is held it sleeps
    another 100ms and changes nothing; resumed with the lock free it takes
    the lock first of all. *)
Lemma poll_or_acquire sys tid t :
  tasks sys !! tid = Some t ->
  pc t = AtLockTest ->
  let sys' := turn config (Timer tid) sys in
  if animationLock (shared sys)
  then shared sys' = shared sys /\ tasks sys' = tasks sys
       /\ history sys' = history sys ++ [(tid, Delay 100)]
  else exists rest, history sys' = history sys ++ (tid, Acquire) :: rest.
Proof.
  intros E P. cbv zeta. cbn [turn]. rewrite E, P. cbn [is_returned].
  unfold run_segment, resume. rewrite P.
  destruct (animationLock (shared sys)).
  - cbn [shared tasks history List.map]. repeat split.
    apply list_insert_id. rewrite E. f_equal. destruct t. cbn in P. now subst.
  - destruct (aiReplied_seen t); cbn [negb].
    + eexists. reflexivity.
    + destruct (loop_head _ _) as [[acts s'] pc']. eexists. reflexivity.
Qed.

(** The effect running while the lock is held starts a run that sleeps
    100ms and stands at the lock test, nothing else changed; with the lock
    free the new run takes it first of all. *)
Lemma trigger_polls_or_acquires sys :
  buttonClicked (shared sys) || aiReplied (shared sys) = true ->
  let sys' := turn config Trigger sys in
  let tid := length (tasks sys) in
  if animationLock (shared sys)
  then shared sys' = shared sys
       /\ tasks sys'
          = tasks sys ++ [ {| aiReplied_seen := aiReplied (shared sys);
                              pc := AtLockTest |} ]
       /\ history sys' = history sys ++ [(tid, Delay 100)]
  else exists rest, history sys' = history sys ++ (tid, Acquire) :: rest.
Proof.
  intros G. cbv zeta. cbn [turn].
  replace (negb (buttonClicked (shared sys)) && negb (aiReplied (shared sys)))
    with false
    by (destruct (buttonClicked (shared sys)), (aiReplied (shared sys));
        cbn in *; congruence).
  unfold run_segment, resume. cbn [pc aiReplied_seen].
  destruct (animationLock (shared sys)).
  - cbn [shared tasks history List.map]. repeat split.
  - destruct (aiReplied (shared sys)); cbn [negb].
    + eexists. reflexivity.
    + destruct (loop_head _ _) as [[acts s'] pc']. eexists. reflexivity.
Qed.

(** The effect does not start a run when neither flag is up. *)
Lemma trigger_without_flags sys :
  buttonClicked (shared sys) || aiReplied (shared sys) = false ->
  turn config Trigger sys = sys.
Proof.
  intros G. cbn [turn].
  destruct (buttonClicked (shared sys)), (aiReplied (shared sys));
    cbn in *; congruence.
Qed.

(** C3: over every schedule of triggers, timers and outside updates, at
    most one run is inside its sweep and the lock is up exactly then; the
    history obeys the lock discipline, so the style updates that follow an
    acquisition not yet released are the holder's own (a second trigger's
    first update comes after the first sweep's release). A trigger that
    fires while the lock is held is not dropped and does not touch the
    graph: it starts a run that sleeps 100ms and stands at the lock test;
    such a run, each time its delay elapses with the lock still held,
    sleeps 100ms again and changes nothing; and a run, new or waiting,
    takes the lock, as the first thing it does, only when it finds it
    free. *)
Theorem sweeps_never_overlap (schedule : list Turn) :
  let sys := exec config schedule (mounted config) in
  (forall i j ti tj,
      tasks sys !! i = Some ti -> tasks sys !! j = Some tj ->
      holding (pc ti) = true -> holding (pc tj) = true -> i = j)
  /\ (animationLock (shared sys) = true
      <-> exists i ti, tasks sys !! i = Some ti /\ holding (pc ti) = true)
  /\ serialized (history sys)
  /\ (forall l1 l2 l3 i j id b,
        history sys = l1 ++ (i, Acquire) :: l2 ++ (j, UpdateStyle id b) :: l3 ->
        ~ In (i, Release) l2 -> j = i)
  /\ (buttonClicked (shared sys) || aiReplied (shared sys) = true ->
      let sys' := turn config Trigger sys in
      let tid := length (tasks sys) in
      if animationLock (shared sys)
      then shared sys' = shared sys
           /\ tasks sys'
              = tasks sys ++ [ {| aiReplied_seen := aiReplied (shared sys);
                                  pc := AtLockTest |} ]
           /\ history sys' = history sys ++ [(tid, Delay 100)]
      else exists rest, history sys' = history sys ++ (tid, Acquire) :: rest)
  /\ (forall tid t,
        tasks sys !! tid = Some t -> pc t = AtLockTest ->
        let sys' := turn config (Timer tid) sys in
        if animationLock (shared sys)
        then shared sys' = shared sys /\ tasks sys' = tasks sys
             /\ history sys' = history sys ++ [(tid, Delay 100)]
        else exists rest, history sys' = history sys ++ (tid, Acquire) :: rest).
Proof.
  cbv zeta.
  pose proof (exec_invariant schedule _ mounted_invariant) as I.
  set (sys := exec config schedule (mounted config)) in *.
  assert (Ser : serialized (history sys)).
  { destruct I as (h & S & _). now exists h. }
  destruct I as (h & S & L & I3 & I4).
  split; [|split; [|split; [exact Ser|split; [|split]]]].
  - intros i j ti tj Ei Ej Hi Hj.
    pose proof (I3 i ti Ei Hi). pose proof (I3 j tj Ej Hj). congruence.
  - rewrite L. split.
    + destruct h as [o|]; [|discriminate]. intros _.
      destruct (I4 o eq_refl) as (t & E & Ho). now exists o, t.
    + intros (i & ti & E & Ho). now rewrite (I3 i ti E Ho).
  - intros l1 l2 l3 i j id b E N.
    exact (serialized_no_interleaving _ l1 l2 l3 i j id b Ser E N).
  - intros G. exact (trigger_polls_or_acquires sys G).
  - intros tid t E P. exact (poll_or_acquire sys tid t E P).
Qed.

(** *** One sweep on its own *)

Lemma exec_app l1 l2 sys :
  exec config (l1 ++ l2) sys = exec config l2 (exec config l1 sys).
Proof. apply fold_left_app. Qed.

Lemma tagged_app tid l1 l2 : tagged tid (l1 ++ l2) = tagged tid l1 ++ tagged tid l2.
Proof. apply List.map_app. Qed.

Lemma lone_run_plus2 k sys :
  exec config (lone_run (2 * S k)) sys
  = exec config [Timer 0; Timer 0] (exec config (lone_run (2 * k)) sys).
Proof.
  unfold lone_run. replace (2 * S k) with (2 * k + 2) by lia.
  rewrite repeat_app.
  change (Trigger :: repeat (Timer 0) (2 * k) ++ repeat (Timer 0) 2)
    with ((Trigger :: repeat (Timer 0) (2 * k)) ++ [Timer 0; Timer 0]).
  apply exec_app.
Qed.

(** After the trigger and two timers per earlier step, the run has lit the
    ids of the current step and sleeps its 500ms. *)
Lemma sweep_progress s0 pre :
  animationLock s0 = false -> buttonClicked s0 = true -> aiReplied s0 = false ->
  forall step rest,
    animationSequence config = pre ++ step :: rest ->
    exec config (lone_run (2 * length pre)) (idle s0)
    = {| shared := snd (animate (ids step) HIGHLIGHT_ON
                          (after_pulses pre (with_lock true s0)));
         tasks := [ {| aiReplied_seen := false; pc := AfterOn step rest |} ];
         history := tagged 0 ([Acquire] ++ flat_map pulse pre
                              ++ List.map (fun id => UpdateStyle id true) (ids step)
                              ++ [Delay 500]) |}.
Proof.
  intros L B A.
  induction pre as [|p pre IH] using rev_ind; intros step rest E.
  - cbn in E. cbn. rewrite B, A. cbn. unfold run_segment, resume. cbn.
    rewrite L, E. cbn. reflexivity.
  - rewrite length_app. cbn [length]. rewrite Nat.add_1_r, lone_run_plus2.
    rewrite (IH p (step :: rest)) by (rewrite E, <- app_assoc; reflexivity).
    cbn. unfold run_segment, resume. cbn.
    f_equal.
    + unfold after_pulses. rewrite fold_left_app. reflexivity.
    + f_equal. rewrite flat_map_app. cbn [flat_map].
      unfold pulse, HIGHLIGHT_ON, HIGHLIGHT_OFF, DELAY_DURATION.
      rewrite app_nil_r. rewrite !List.map_app, <- !app_assoc. reflexivity.
Qed.

Lemma lone_run_plus1 k sys :
  exec config (lone_run (k + 1)) sys
  = turn config (Timer 0) (exec config (lone_run k) sys).
Proof.
  unfold lone_run. rewrite repeat_app.
  change (Trigger :: repeat (Timer 0) k ++ repeat (Timer 0) 1)
    with ((Trigger :: repeat (Timer 0) k) ++ [Timer 0]).
  now rewrite exec_app.
Qed.

(** One timer later the same ids are off again and the run sleeps its
    500ms before the next step. *)
Lemma sweep_progress_off s0 pre step rest :
  animationLock s0 = false -> buttonClicked s0 = true -> aiReplied s0 = false ->
  animationSequence config = pre ++ step :: rest ->
  exec config (lone_run (2 * length pre + 1)) (idle s0)
  = {| shared := after_pulses (pre ++ [step]) (with_lock true s0);
       tasks := [ {| aiReplied_seen := false; pc := AfterOff rest |} ];
       history := tagged 0 ([Acquire] ++ flat_map pulse (pre ++ [step])) |}.
Proof.
  intros L B A E.
  rewrite lone_run_plus1, (sweep_progress s0 pre L B A step rest E).
  cbn. unfold run_segment, resume. cbn. f_equal.
  - unfold after_pulses. rewrite fold_left_app. reflexivity.
  - f_equal. rewrite flat_map_app. cbn [flat_map].
    unfold pulse, HIGHLIGHT_ON, HIGHLIGHT_OFF, DELAY_DURATION.
    rewrite app_nil_r. rewrite !List.map_app, <- !app_assoc. reflexivity.
Qed.

(** Two timers per step bring the run to its end: the whole sweep is in
    the history, the click flag is down and the lock is free. *)
Lemma sweep_completes s0 :
  animationLock s0 = false -> buttonClicked s0 = true -> aiReplied s0 = false ->
  exec config (lone_run (2 * length (animationSequence config))) (idle s0)
  = {| shared := with_lock false
                   (with_buttonClicked false
                      (after_pulses (animationSequence config)
                         (with_lock true s0)));
       tasks := [ {| aiReplied_seen := false; pc := Returned |} ];
       history := tagged 0 (sweep (animationSequence config)) |}.
Proof.
  intros L B A.
  destruct (animationSequence config) as [|p l] eqn:E using rev_ind.
  - cbn. rewrite B, A. cbn. unfold run_segment, resume. cbn.
    rewrite L, E. reflexivity.
  - clear IHl. rewrite length_app. cbn [length].
    replace (2 * (length l + 1)) with ((2 * length l + 1) + 1) by lia.
    rewrite lone_run_plus1, (sweep_progress_off s0 l p [] L B A E).
    cbn. unfold run_segment, resume. cbn. f_equal.
    unfold sweep, tagged. rewrite !List.map_app. reflexivity.
Qed.

(** A run that returned has no timer left: further turns for it do
    nothing. *)
Lemma returned_stays k sys t :
  tasks sys !! 0 = Some t -> pc t = Returned ->
  exec config (repeat (Timer 0) k) sys = sys.
Proof.
  intros E P. induction k as [|k IH]; [reflexivity|].
  cbn [repeat exec fold_left turn]. rewrite E, P. exact IH.
Qed.

(** When the closure saw [aiReplied], the run is over within the trigger's
    own turn: no style update, the reply flag and the click flag reset,
    the lock released. *)
Lemma reply_run s0 k :
  animationLock s0 = false -> aiReplied s0 = true ->
  exec config (lone_run k) (idle s0)
  = {| shared := with_lock false
                   (with_buttonClicked false
                      (with_aiReplied false (with_lock true s0)));
       tasks := [ {| aiReplied_seen := true; pc := Returned |} ];
       history := tagged 0 [Acquire; SetAiReplied false;
                            SetButtonClicked false; Release] |}.
Proof.
  intros L A. unfold lone_run. cbn [exec fold_left turn idle shared tasks].
  rewrite A, andb_false_r. unfold run_segment, resume. cbn. rewrite L. cbn.
  now apply returned_stays with (t := {| aiReplied_seen := true; pc := Returned |}).
Qed.

(** [ids.forEach(id => updateStyle(id, b))] marks exactly the listed
    objects. *)
Lemma forEach_updateStyle_mark step_ids b s :
  let s' := snd (animate step_ids b s) in
  nodes s' = mark step_ids b (nodes s)
  /\ edges s' = mark step_ids b (edges s)
  /\ animationLock s' = animationLock s
  /\ buttonClicked s' = buttonClicked s
  /\ aiReplied s' = aiReplied s.
Proof.
  cbv zeta. unfold animate. cbn [snd]. revert s.
  assert (M : forall id l objs,
             mark l b (List.map (fun obj =>
                                   if strict_eq (obj_id obj) id
                                   then set_active b obj else obj) objs)
             = mark (id :: l) b objs).
  { intros id l objs. unfold mark. rewrite List.map_map.
    apply List.map_ext. intros obj. cbn [existsb].
    destruct (strict_eq (obj_id obj) id) eqn:Eq; cbn [orb obj_id set_active].
    - now destruct (existsb _ l).
    - reflexivity. }
  induction step_ids as [|id l IH]; intros s.
  - cbn. unfold mark. cbn. rewrite !List.map_id. now repeat split.
  - cbn [fold_left]. destruct (IH (updateStyle id b s)) as (N & Ed & Lk & Bc & Ar).
    rewrite N, Ed, Lk, Bc, Ar. cbn [updateStyle with_graph nodes edges
      animationLock buttonClicked aiReplied].
    rewrite !M. now repeat split.
Qed.

Lemma mark_sets_active step_ids b objs obj :
  In obj (mark step_ids b objs) -> In (obj_id obj) step_ids ->
  active obj = Some b.
Proof.
  unfold mark. rewrite in_map_iff. intros (x & E & _) Hin.
  destruct (existsb (strict_eq (obj_id x)) step_ids) eqn:Ex.
  - now subst obj.
  - subst obj. exfalso.
    assert (X : existsb (strict_eq (obj_id x)) step_ids = true).
    { apply existsb_exists. exists (obj_id x). split; [exact Hin|].
      unfold strict_eq. now apply bool_decide_eq_true. }
    congruence.
Qed.

Lemma mark_keeps_others step_ids b objs :
  List.map obj_id (mark step_ids b objs) = List.map obj_id objs
  /\ forall obj, In obj objs -> ~ In (obj_id obj) step_ids ->
                 In obj (mark step_ids b objs).
Proof.
  unfold mark. split.
  - rewrite List.map_map. apply List.map_ext. intros obj.
    now destruct (existsb _ _).
  - intros obj Hin Hn. apply in_map_iff. exists obj. split; [|exact Hin].
    destruct (existsb (strict_eq (obj_id obj)) step_ids) eqn:Ex; [|reflexivity].
    exfalso. apply existsb_exists in Ex. destruct Ex as (i & Hi & Eq).
    unfold strict_eq in Eq. apply bool_decide_eq_true in Eq. congruence.
Qed.

Lemma after_pulses_lock l s :
  animationLock (after_pulses l s) = animationLock s.
Proof.
  unfold after_pulses. revert s.
  induction l as [|p l IH]; intros s; cbn [fold_left]; [reflexivity|].
  now rewrite IH, !animate_lock.
Qed.

Lemma animate_sets_active step_ids b s obj :
  let s' := snd (animate step_ids b s) in
  In obj (nodes s' ++ edges s') -> In (obj_id obj) step_ids ->
  active obj = Some b.
Proof.
  cbv zeta. destruct (forEach_updateStyle_mark step_ids b s) as (N & E & _).
  cbv zeta in N, E. rewrite N, E. intros Hin Hid.
  apply in_app_or in Hin. destruct Hin as [Hin|Hin];
    eapply mark_sets_active; eassumption.
Qed.

End SequencerFacts.

Section SequencerExamples.
Import Js Sequencer.

(** Two overlapping triggers on the shipped graph: the second run polls
    while the first one sweeps, and starts once the lock is free. *)
Example overlapping_triggers :
  history (exec graphConfig
             [ Parent true false; Trigger; Parent true true; Trigger;
               Timer 1; Timer 0; Timer 0; Timer 1; Timer 0; Timer 0;
               Timer 0; Timer 0; Timer 1 ]
             (mounted graphConfig))
  = tagged 0 [ Acquire; UpdateStyle (js "1") true; Delay 500 ]
    ++ tagged 1 [ Delay 100; Delay 100 ]
    ++ tagged 0 [ UpdateStyle (js "1") false; Delay 500;
                  UpdateStyle (js "1-2") true; Delay 500 ]
    ++ tagged 1 [ Delay 100 ]
    ++ tagged 0 [ UpdateStyle (js "1-2") false; Delay 500;
                  UpdateStyle (js "2") true; Delay 500;
                  UpdateStyle (js "2") false; Delay 500;
                  SetButtonClicked false; Release ]
    ++ tagged 1 [ Acquire; SetAiReplied false; SetButtonClicked false;
                  Release ].
Proof. reflexivity. Qed.

End SequencerExamples.

(* ------------------------------------------------------------------ *)
(** ** The chat panel height observer *)

Section MeasurementFacts.
Import Js ChatAreaMeasurement.

Variable options : Options.

(** The first measurement arms the debounce timer. *)
Lemma measure_idle gap h k :
  pending k = [] -> next_handle k <> 0 ->
  armed options h (measure options (gap, h) k)
  /\ same_output k (measure options (gap, h) k).
Proof.
  intros P N. destruct k as [hh ex r pd nh nw up nt]. cbn in P, N. subst pd.
  unfold measure, elapse, debouncedHeightUpdate. cbn.
  assert (armed options h
            {| height := hh; isExpanded := ex; debounceTimeoutRef := Some nh;
               pending := [ {| handle := nh; due := nw + gap + debounceMs options;
                               newHeight := h; seen_height := hh;
                               seen_isExpanded := ex |} ];
               next_handle := S nh; now := nw + gap; updates := up;
               notified := nt |}) as A.
  { eexists. cbn. repeat split; auto. }
  destruct r as [r|]; [destruct (Nat.eqb r 0)|]; cbn; (split; [exact A|]);
    repeat split.
Qed.

(** A measurement that arrives before the timer is due cancels it and arms
    a new one for the new height. *)
Lemma measure_armed gap h h' k :
  armed options h k -> gap < debounceMs options ->
  armed options h' (measure options (gap, h') k)
  /\ same_output k (measure options (gap, h') k).
Proof.
  intros (t & P & R & Z & Lt & D & _ & SH & SE) G.
  destruct k as [hh ex r pd nh nw up nt]. cbn in *. subst pd r.
  unfold measure, elapse, debouncedHeightUpdate. cbn.
  destruct (Nat.leb_spec (due t) (nw + gap)) as [X|_]; [lia|]. cbn.
  destruct (Nat.eqb_spec (handle t) 0) as [X|_]; [contradiction|].
  unfold setTimeout_ref, clearTimeout. cbn. rewrite Nat.eqb_refl. cbn.
  split; [|repeat split].
  eexists. cbn. repeat split; auto. cbn. lia.
Qed.

Lemma last_cons_nonempty {A} (l : list A) (x d d' : A) :
  l <> [] -> List.last (x :: l) d = List.last l d'.
Proof.
  revert x. induction l as [|y l IH]; intros x N; [congruence|].
  destruct l as [|z l]; [reflexivity|].
  change (List.last (x :: y :: z :: l) d) with (List.last (y :: z :: l) d).
  rewrite (IH y) by discriminate. reflexivity.
Qed.

Lemma burst_keeps_armed burst :
  Forall (fun m => fst m < debounceMs options) burst ->
  forall h k,
    armed options h k ->
    let k' := fold_left (fun k0 m => measure options m k0) burst k in
    armed options (snd (List.last burst (0, h))) k' /\ same_output k k'.
Proof.
  induction 1 as [|[gap h1] burst G _ IH]; intros h k A; cbv zeta.
  - cbn. split; [exact A|]. now repeat split.
  - cbn [fold_left].
    destruct (measure_armed gap h h1 k A G) as (A1 & O1).
    destruct (IH h1 _ A1) as (A2 & O2). cbv zeta in A2, O2.
    split.
    + destruct burst as [|m burst']; [exact A2|].
      rewrite (last_cons_nonempty (m :: burst') (gap, h1) (0, h) (0, h1))
        by discriminate.
      exact A2.
    + destruct O1 as (a & b & c & d), O2 as (a' & b' & c' & d').
      repeat split; congruence.
Qed.

(** Once the quiet period outlasts the interval, the armed timer fires. *)
Lemma elapse_fires h quiet k :
  armed options h k -> debounceMs options < quiet ->
  let k' := elapse options quiet k in
  updates k' = updates k ++ [(h, gt h 76%float)]
  /\ height k' = h /\ isExpanded k' = gt h 76%float
  /\ pending k' = []
  /\ notified k'
     = if opt_onHeightChange options
          && (number_neq h (height k)
              || bool_neq (isExpanded k) (gt h 76%float))
       then notified k ++ [h] else notified k.
Proof.
  intros (t & P & R & Z & Lt & D & NH & SH & SE) Q.
  destruct k as [hh ex r pd nh nw up nt]. cbn in *. subst pd.
  unfold elapse. cbn.
  destruct (Nat.leb_spec (due t) (nw + quiet)) as [_|X]; [|lia]. cbn.
  rewrite NH, SH, SE. repeat split.
Qed.

Lemma last_snd_default (burst : list (nat * number)) g h :
  snd (List.last burst (g, h)) = snd (List.last burst (0, h)).
Proof.
  destruct burst as [|m l]; [reflexivity|].
  rewrite <- (last_cons_nonempty (m :: l) m (g, h) (g, h)) by discriminate.
  now rewrite (last_cons_nonempty (m :: l) m (g, h) (0, h)) by discriminate.
Qed.

End MeasurementFacts.

(* ------------------------------------------------------------------ *)
(** ** More on the request gateway *)

Section GatewayFacts.
Import Js AgentAPI Conversation.

Ltac frame_call F :=
  match goal with
  | |- context [call_if_present ?cb ?ev ?a ?w0] =>
      pose proof (call_if_present_frame cb ev a w0) as F;
      cbv zeta in F;
      destruct (call_if_present cb ev a w0) as [? ?];
      cbn [fst snd messages loading uuid_next with_uuid_next with_messages
           with_loading with_event] in F;
      destruct F as (? & ? & ? & ?)
  end.

(** X1: [sendMessage] on a prompt that is not blank issues one request
    with the prompt as given, settles as the request does (the response,
    or the very rejection), and leaves the busy flag down and the log
    alone. *)
Theorem sendMessage_settles_as_request (net : Net) (prompt : jsstring) (w : World) :
  trim prompt <> [] ->
  undisturbed net ->
  let r := sendMessage net prompt w in
  fst r = outcome net
  /\ loading (snd r) = false
  /\ messages (snd r) = messages w
  /\ trace (snd r)
     = trace w ++ [EvSetLoading true; EvPost agent_prompt_path prompt;
                   EvSetLoading false].
Proof.
  intros Hp Hu. cbv zeta. unfold sendMessage.
  rewrite (nonempty_trim_passes_guard _ Hp).
  unfold bind, try_finally, try_catch, axios_post, setLoading, modify, ret, throw.
  rewrite Hu. cbn.
  destruct (outcome net); cbn; rewrite <- !app_assoc; repeat split.
Qed.

Lemma sendMessage_settles_as_request_witness :
  let r := sendMessage (quiet_net (Throw (AxiosError (js "ERR_NETWORK") None)))
             (js "Red Line delays?") initial_world in
  fst r = Throw (AxiosError (js "ERR_NETWORK") None)
  /\ loading (snd r) = false
  /\ messages (snd r) = messages initial_world
  /\ trace (snd r)
     = [EvSetLoading true; EvPost agent_prompt_path (js "Red Line delays?");
        EvSetLoading false].
Proof.
  apply (sendMessage_settles_as_request
           (quiet_net (Throw (AxiosError (js "ERR_NETWORK") None)))
           (js "Red Line delays?") initial_world).
  - vm_compute. discriminate.
  - intros w. reflexivity.
Defined.

(** The [try] statement fulfils whenever [onError] returns: a rejected
    request and a throwing [onSuccess] both end in the [catch] clause. *)
Lemma send_request_fulfils net prompt callbacks w :
  returns (opt_chain callbacks onError) ->
  fst (send_request net prompt callbacks w) = Normal tt.
Proof.
  intros RE.
  unfold send_request, try_finally, try_catch, bind, axios_post, uuid,
    setMessages, setLoading, modify.
  destruct (outcome net) as [resp|e];
    cbn [with_uuid_next with_messages with_loading with_event
         messages loading uuid_next trace].
  - frame_call F. destruct c as [[]|e]; [reflexivity|].
    frame_call G. cbn. now apply H6.
  - frame_call F. cbn. now apply H2.
Qed.

(** X2: a failed request never rejects the call. If [onStart] and
    [onError] return, [sendMessageWithCallback] fulfils for every prompt,
    whatever the network does and even if [onSuccess] throws. *)
Theorem send_fulfils_despite_failure
    (net : Net) (prompt : jsstring) (callbacks : option Callbacks) (w : World) :
  returns (opt_chain callbacks onStart) ->
  returns (opt_chain callbacks onError) ->
  fst (sendMessageWithCallback net prompt callbacks w) = Normal tt.
Proof.
  intros RS RE. unfold sendMessageWithCallback.
  destruct (negb (truthy (trim prompt))); [reflexivity|]. unfold bind.
  pose proof (send_prologue_spec prompt callbacks w) as P. cbv zeta in P.
  destruct (send_prologue prompt callbacks w) as [c w1].
  cbn [fst snd] in P. destruct P as (_ & _ & _ & C1).
  rewrite (C1 RS). now apply send_request_fulfils.
Qed.

Lemma send_fulfils_despite_failure_witness :
  fst (sendMessageWithCallback
         (quiet_net (Throw (AxiosError (js "ERR_BAD_RESPONSE") (Some 500%N))))
         (js "Red Line delays?") None initial_world) = Normal tt.
Proof.
  apply (send_fulfils_despite_failure
           (quiet_net (Throw (AxiosError (js "ERR_BAD_RESPONSE") (Some 500%N))))
           (js "Red Line delays?") None initial_world).
  - intros f a l H. discriminate H.
  - intros f a l H. discriminate H.
Defined.

Lemma posts_app tr1 tr2 : posts (tr1 ++ tr2) = posts tr1 ++ posts tr2.
Proof.
  induction tr1 as [|e tr1 IH]; [reflexivity|].
  destruct e; cbn; now rewrite IH.
Qed.

(** A callback adds no request to the trace. *)
Lemma call_if_present_posts {A} (cb : option (Callback A)) ev a w :
  posts [ev] = [] ->
  posts (trace (snd (call_if_present cb ev a w))) = posts (trace w).
Proof.
  intros E. destruct cb as [f|]; cbn; [|reflexivity].
  destruct (f a (messages w)) as [c l]. cbn.
  now rewrite posts_app, E, app_nil_r.
Qed.

Ltac posts_call :=
  match goal with
  | |- context [call_if_present ?cb ?ev ?a ?w0] =>
      let F := fresh "F" in
      pose proof (call_if_present_posts cb ev a w0 eq_refl) as F;
      destruct (call_if_present cb ev a w0) as [? ?];
      cbn [fst snd messages loading uuid_next trace with_uuid_next
           with_messages with_loading with_event] in F
  end.

Lemma send_request_posts net prompt callbacks w :
  undisturbed net ->
  posts (trace (snd (send_request net prompt callbacks w)))
  = posts (trace w) ++ [prompt].
Proof.
  intros Hu.
  unfold send_request, try_finally, try_catch, bind, axios_post, uuid,
    setMessages, setLoading, modify.
  rewrite Hu.
  destruct (outcome net) as [resp|e];
    cbn [with_uuid_next with_messages with_loading with_event
         messages loading uuid_next trace].
  - posts_call. destruct c as [[]|e].
    + cbn. rewrite posts_app, F, posts_app. cbn. now rewrite app_nil_r.
    + posts_call. cbn. rewrite posts_app, F0, F, posts_app. cbn.
      now rewrite app_nil_r.
  - posts_call. cbn. rewrite posts_app, F, posts_app. cbn.
    now rewrite app_nil_r.
Qed.

(** X3: one call issues at most one request, and never retries. A call
    with a blank prompt, or whose [onStart] throws, issues none; every
    other call issues exactly one, carrying the prompt as typed
    (untrimmed), whether the request then succeeds or fails. *)
Theorem send_issues_one_request
    (net : Net) (prompt : jsstring) (callbacks : option Callbacks) (w : World) :
  undisturbed net ->
  posts (trace (snd (sendMessageWithCallback net prompt callbacks w)))
  = posts (trace w)
    ++ (if truthy (trim prompt)
           && is_normal (fst (send_prologue prompt callbacks w))
        then [prompt] else []).
Proof.
  intros Hu. unfold sendMessageWithCallback.
  destruct (truthy (trim prompt)); cbn [negb andb];
    [|now rewrite app_nil_r].
  unfold bind.
  assert (P : posts (trace (snd (send_prologue prompt callbacks w)))
              = posts (trace w)).
  { unfold send_prologue, bind, uuid, setMessages, setLoading, modify.
    cbn [with_uuid_next with_messages with_loading with_event
         messages loading uuid_next trace].
    posts_call. cbn [snd]. rewrite F, posts_app. cbn. now rewrite app_nil_r. }
  destruct (send_prologue prompt callbacks w) as [[[]|e] w1];
    cbn [fst snd is_normal] in *.
  - now rewrite (send_request_posts _ _ _ _ Hu), P.
  - now rewrite P, app_nil_r.
Qed.

Lemma send_issues_one_request_witness :
  posts (trace (snd (sendMessageWithCallback
                       (quiet_net (Normal (js "No delays.")))
                       (js "  Red Line delays?  ") None initial_world)))
  = [js "  Red Line delays?  "].
Proof.
  apply (send_issues_one_request (quiet_net (Normal (js "No delays.")))
           (js "  Red Line delays?  ") None initial_world).
  intros w. reflexivity.
Defined.

End GatewayFacts.

(* ------------------------------------------------------------------ *)
(** ** Sends that overlap, and the ids of the log *)

Section OverlapFacts.
Import Js AgentAPI Conversation.

Lemma rewrite_last_pair (l : list Message) (u p m : Message) :
  elems (assign_last (spread (array_lit (l ++ [u; p]))) m) = l ++ [u; m].
Proof.
  rewrite (rewrite_last_snoc _ (l ++ [u]) p m).
  - now rewrite <- app_assoc.
  - cbn. now rewrite <- app_assoc.
Qed.

Lemma rewrite_last_pair_raw (l : list Message) (u p m : Message) :
  elems (assign_last (array_lit (l ++ [u; p])) m) = l ++ [u; m].
Proof. exact (rewrite_last_pair l u p m). Qed.

(** The log after one send without callbacks, nothing else running. *)
Lemma plain_send_log prompt o w :
  trim prompt <> [] ->
  let r := sendMessageWithCallback (quiet_net o) prompt None w in
  elems (messages (snd r))
  = elems (messages w)
    ++ [ {| role := user; content := prompt; id := uuid_next w;
            animate := false |};
         {| role := assistant;
            content := match o with Normal resp => resp | Throw _ => fallback end;
            id := N.succ (N.succ (uuid_next w));
            animate := is_normal o |} ]
  /\ uuid_next (snd r) = N.succ (N.succ (N.succ (uuid_next w)))
  /\ loading (snd r) = false.
Proof.
  intros Hp. cbv zeta. unfold sendMessageWithCallback.
  rewrite (nonempty_trim_passes_guard _ Hp).
  unfold bind, send_prologue, send_request, try_finally, try_catch, bind,
    axios_post, uuid, setMessages, setLoading, modify, quiet_net.
  destruct o as [resp|e]; cbn -[js fallback assign_last spread array_lit];
    rewrite rewrite_last_pair; repeat split.
Qed.

(** A send without callbacks, as one step: the prologue, whatever happens
    during the request, the rewrite of the last element, the flag. *)
Lemma send_without_callbacks net prompt w :
  trim prompt <> [] ->
  let started :=
    with_event (EvPost agent_prompt_path prompt)
      (with_loading true
         (with_event (EvSetLoading true)
            (with_messages
               (array_lit
                  (elems (messages w)
                   ++ [ {| role := user; content := prompt;
                           id := uuid_next w; animate := false |};
                        {| role := assistant; content := js "...";
                           id := N.succ (uuid_next w); animate := true |} ]))
               (with_uuid_next (N.succ (N.succ (uuid_next w))) w)))) in
  let w1 := during net started in
  sendMessageWithCallback net prompt None w
  = (Normal tt,
     with_loading false
       (with_event (EvSetLoading false)
          (with_messages
             (assign_last (spread (messages w1))
                {| role := assistant;
                   content := match outcome net with
                              | Normal resp => resp
                              | Throw _ => fallback
                              end;
                   id := uuid_next w1;
                   animate := is_normal (outcome net) |})
             (with_uuid_next (N.succ (uuid_next w1)) w1)))).
Proof.
  intros Hp. cbv zeta. unfold sendMessageWithCallback.
  rewrite (nonempty_trim_passes_guard _ Hp).
  unfold bind, send_prologue, send_request, try_finally, try_catch, bind,
    axios_post, uuid, setMessages, setLoading, modify.
  cbn -[js fallback assign_last spread array_lit].
  destruct (outcome net) as [resp|e]; reflexivity.
Qed.

(** X4: sends are not queued. When a second send starts and settles while
    a first one is in flight, the first one's reply is written over the
    second one's: the log ends with the first prompt, its placeholder
    still reading "...", the second prompt, and the reply to the first
    prompt; the reply to the second prompt is gone. *)
Theorem overtaken_send_overwrites_newer_reply
    (prompt1 prompt2 : jsstring) (outcome1 outcome2 : Completion jsstring)
    (w : World) :
  trim prompt1 <> [] -> trim prompt2 <> [] ->
  let r := sendMessageWithCallback (overtaken_net prompt2 outcome2 outcome1)
             prompt1 None w in
  exists id1 idp id2 idr,
    elems (messages (snd r))
    = elems (messages w)
      ++ [ {| role := user; content := prompt1; id := id1; animate := false |};
           {| role := assistant; content := js "..."; id := idp;
              animate := true |};
           {| role := user; content := prompt2; id := id2; animate := false |};
           {| role := assistant;
              content := match outcome1 with
                         | Normal resp => resp
                         | Throw _ => fallback
                         end;
              id := idr; animate := is_normal outcome1 |} ]
    /\ fst r = Normal tt
    /\ loading (snd r) = false.
Proof.
  intros H1 H2. cbv zeta.
  rewrite (send_without_callbacks _ prompt1 w H1).
  cbn [fst snd loading messages with_loading with_event with_messages].
  set (w0 := with_event _ _).
  pose proof (plain_send_log prompt2 outcome2 w0 H2) as P. cbv zeta in P.
  change (during (overtaken_net prompt2 outcome2 outcome1) w0)
    with (snd (sendMessageWithCallback (quiet_net outcome2) prompt2 None w0)).
  destruct (sendMessageWithCallback (quiet_net outcome2) prompt2 None w0)
    as [c2 w2].
  cbn [snd] in *. destruct P as (E2 & _ & _).
  subst w0.
  cbn -[js fallback assign_last spread array_lit] in E2.
  do 4 eexists. split; [|split; reflexivity].
  unfold spread. rewrite E2. cbn [elems array_lit outcome overtaken_net].
  rewrite rewrite_last_pair_raw, <- app_assoc. reflexivity.
Qed.

Lemma overtaken_send_overwrites_newer_reply_witness :
  let r := sendMessageWithCallback
             (overtaken_net (js "Orange Line?")
                (Normal (js "Orange: minor delays."))
                (Normal (js "Red: on time.")))
             (js "Red Line?") None initial_world in
  exists id1 idp id2 idr,
    elems (messages (snd r))
    = [ {| role := user; content := js "Red Line?"; id := id1;
           animate := false |};
        {| role := assistant; content := js "..."; id := idp;
           animate := true |};
        {| role := user; content := js "Orange Line?"; id := id2;
           animate := false |};
        {| role := assistant; content := js "Red: on time."; id := idr;
           animate := true |} ]
    /\ fst r = Normal tt
    /\ loading (snd r) = false.
Proof.
  apply (overtaken_send_overwrites_newer_reply
           (js "Red Line?") (js "Orange Line?")
           (Normal (js "Red: on time."))
           (Normal (js "Orange: minor delays.")) initial_world).
  - vm_compute. discriminate.
  - vm_compute. discriminate.
Defined.

Ltac frame_call F :=
  match goal with
  | |- context [call_if_present ?cb ?ev ?a ?w0] =>
      pose proof (call_if_present_frame cb ev a w0) as F;
      cbv zeta in F;
      destruct (call_if_present cb ev a w0) as [? ?];
      cbn [fst snd messages loading uuid_next with_uuid_next with_messages
           with_loading with_event] in F;
      destruct F as (? & ? & ? & ?)
  end.

(** The reply put in the last place carries an id drawn during the
    request. *)
Lemma send_request_fresh net prompt callbacks w l x :
  undisturbed net ->
  keeps_log (opt_chain callbacks onSuccess) ->
  keeps_log (opt_chain callbacks onError) ->
  elems (messages w) = l ++ [x] ->
  let r := send_request net prompt callbacks w in
  exists reply,
    elems (messages (snd r)) = l ++ [reply]
    /\ (uuid_next w <= id reply < uuid_next (snd r))%N.
Proof.
  intros Hu KS KE E. cbv zeta.
  unfold send_request, try_finally, try_catch, bind, axios_post, uuid,
    setMessages, setLoading, modify.
  rewrite Hu.
  destruct (outcome net) as [resp|e];
    cbn [with_uuid_next with_messages with_loading with_event
         messages loading uuid_next trace].
  - frame_call F. specialize (H1 KS). destruct c as [[]|e].
    + eexists. cbn [snd messages uuid_next with_loading with_event].
      rewrite H1, H0. split; [now apply rewrite_last_snoc with (x := x)|].
      cbn [id]. lia.
    + frame_call G. specialize (H5 KE).
      eexists. cbn [snd messages uuid_next with_loading with_event].
      rewrite H5, H4, H1, H0. split.
      * eapply rewrite_last_snoc with (x := _).
        now apply rewrite_last_snoc with (x := x).
      * cbn [id]. lia.
  - frame_call F. specialize (H1 KE).
    eexists. cbn [snd messages uuid_next with_loading with_event].
    rewrite H1, H0. split; [now apply rewrite_last_snoc with (x := x)|].
    cbn [id]. lia.
Qed.

Lemma fresh_snoc (l : list N) (n a m : N) :
  NoDup l -> Forall (fun i => (i < n)%N) l ->
  (n <= a < m)%N ->
  NoDup (l ++ [a]) /\ Forall (fun i => (i < m)%N) (l ++ [a]).
Proof.
  intros ND F [Ha Hm]. split.
  - apply NoDup_app. split; [exact ND|]. split; [|apply NoDup_singleton].
    intros i Hi Hin. apply list_elem_of_singleton in Hin. subst i.
    rewrite Forall_forall in F. specialize (F a Hi). lia.
  - apply Forall_app. split.
    + eapply Forall_impl; [exact F|]. cbn. intros i Hi. lia.
    + repeat constructor. exact Hm.
Qed.

(** X5: every entry of the log keeps an id of its own. If the ids in the
    log are pairwise distinct before a send, they are after it, however
    the send ends: the user message, the placeholder and the reply that
    replaces it each draw a new one. *)
Theorem send_keeps_ids_distinct
    (net : Net) (prompt : jsstring) (callbacks : option Callbacks) (w : World) :
  undisturbed net ->
  callbacks_keep_log callbacks ->
  ids_fresh w ->
  ids_fresh (snd (sendMessageWithCallback net prompt callbacks w)).
Proof.
  intros Hu (KS & KOk & KE) [ND F]. unfold sendMessageWithCallback.
  destruct (negb (truthy (trim prompt))); [now split|]. unfold bind.
  pose proof (send_prologue_spec prompt callbacks w) as P. cbv zeta in P.
  destruct (send_prologue prompt callbacks w) as [c w1].
  cbn [fst snd] in P. destruct P as (_ & U1 & M1 & _). specialize (M1 KS).
  apply (proj2 (List.Forall_map id (fun i => (i < uuid_next w)%N) _)) in F.
  destruct (fresh_snoc _ _ (uuid_next w) (N.succ (uuid_next w)) ND F
              ltac:(lia)) as [ND1 F1].
  destruct c as [[]|e].
  - pose proof (send_request_fresh net prompt callbacks w1
                  (elems (messages w)
                   ++ [ {| role := user; content := prompt;
                           id := uuid_next w; animate := false |} ])
                  {| role := assistant; content := js "...";
                     id := N.succ (uuid_next w); animate := true |}
                  Hu KOk KE) as R.
    cbv zeta in R.
    destruct R as (reply & E & Hlo & Hhi).
    { rewrite M1. cbn [elems array_lit]. now rewrite <- app_assoc. }
    cbn [snd]. unfold ids_fresh.
    match goal with
    | |- _ /\ Forall (fun m => (id m < ?n)%N) ?l =>
        cut (NoDup (List.map id l)
             /\ Forall (fun i => (i < n)%N) (List.map id l));
        [intros [? ?]; split;
         [assumption
         |now apply (proj1 (List.Forall_map id (fun i => (i < n)%N) l))]|]
    end.
    rewrite E, !List.map_app. cbn [List.map id].
    apply (fresh_snoc _ (N.succ (uuid_next w))); [exact ND1|exact F1|lia].
  - cbn [snd]. unfold ids_fresh.
    match goal with
    | |- _ /\ Forall (fun m => (id m < ?n)%N) ?l =>
        cut (NoDup (List.map id l)
             /\ Forall (fun i => (i < n)%N) (List.map id l));
        [intros [? ?]; split;
         [assumption
         |now apply (proj1 (List.Forall_map id (fun i => (i < n)%N) l))]|]
    end.
    rewrite M1. cbn [elems array_lit].
    change [?a; ?b] with ([a] ++ [b]). rewrite app_assoc, !List.map_app.
    cbn [List.map id].
    apply (fresh_snoc _ (N.succ (uuid_next w))); [exact ND1|exact F1|lia].
Qed.

Lemma send_keeps_ids_distinct_witness :
  ids_fresh (snd (sendMessageWithCallback
                    (quiet_net (Normal (js "No delays.")))
                    (js "Orange Line?") None
                    (snd (sendMessageWithCallback
                            (quiet_net (Throw (Error (js "timeout"))))
                            (js "Red Line?") None initial_world)))).
Proof.
  apply (send_keeps_ids_distinct (quiet_net (Normal (js "No delays.")))
           (js "Orange Line?") None).
  - intros w. reflexivity.
  - repeat split; intros f a l H; discriminate H.
  - split.
    + apply (bool_decide_unpack _). vm_compute. reflexivity.
    + cbn. repeat constructor.
Defined.

End OverlapFacts.

(* ------------------------------------------------------------------ *)
(** ** More on the animation sequencer *)

Section SweepFacts.
Import Js Sequencer SweepProgress.

Variable config : GraphConfig.

Lemma exec_cons c cs sys :
  exec config (c :: cs) sys = exec config cs (turn config c sys).
Proof. reflexivity. Qed.

(** *** What a sweep does to the graph *)

Lemma mark_identity l b objs : identity (mark l b objs) = identity objs.
Proof.
  unfold identity, mark. rewrite List.map_map. apply List.map_ext.
  intros obj. now destruct (existsb _ _).
Qed.

Lemma animate_identity l b s :
  identity (nodes (snd (animate l b s))) = identity (nodes s)
  /\ identity (edges (snd (animate l b s))) = identity (edges s).
Proof.
  destruct (forEach_updateStyle_mark l b s) as (N & E & _).
  cbv zeta in N, E. rewrite N, E. split; apply mark_identity.
Qed.

Lemma loop_head_identity remaining s :
  let '(acts, s', pc') := loop_head remaining s in
  identity (nodes s') = identity (nodes s)
  /\ identity (edges s') = identity (edges s).
Proof.
  destruct remaining as [|step rest]; cbn [loop_head]; [now split|].
  pose proof (animate_identity (ids step) HIGHLIGHT_ON s) as A.
  now destruct (animate (ids step) HIGHLIGHT_ON s).
Qed.

Lemma resume_identity t s :
  let '(acts, s', pc') := resume config t s in
  identity (nodes s') = identity (nodes s)
  /\ identity (edges s') = identity (edges s).
Proof.
  unfold resume. destruct (pc t) as [|step rest|rest|].
  - destruct (animationLock s); [now split|].
    destruct (aiReplied_seen t); cbn [negb]; [now split|].
    pose proof (loop_head_identity (animationSequence config)
                  (with_lock true s)) as L.
    now destruct (loop_head _ _) as [[acts s'] pc'].
  - pose proof (animate_identity (ids step) HIGHLIGHT_OFF s) as A.
    now destruct (animate (ids step) HIGHLIGHT_OFF s).
  - apply loop_head_identity.
  - now split.
Qed.

Lemma run_segment_identity tid t rest_of sys :
  let sys' := run_segment config tid t rest_of sys in
  identity (nodes (shared sys')) = identity (nodes (shared sys))
  /\ identity (edges (shared sys')) = identity (edges (shared sys)).
Proof.
  cbv zeta. unfold run_segment.
  pose proof (resume_identity t (shared sys)) as R.
  now destruct (resume config t (shared sys)) as [[acts s'] pc'].
Qed.

(** X7: the sequencer writes nothing but highlights. Over every schedule
    of its own turns (triggers, timers, the parent's flags) the nodes and
    the edges stay the same objects in the same order, id for id and type
    for type: none is added, dropped, moved or retyped. *)
Theorem sequencer_keeps_graph_identity (schedule : list Turn) (sys : System) :
  forallb own_turn schedule = true ->
  let sys' := exec config schedule sys in
  identity (nodes (shared sys')) = identity (nodes (shared sys))
  /\ identity (edges (shared sys')) = identity (edges (shared sys)).
Proof.
  revert sys. induction schedule as [|c cs IH]; intros sys O; [now split|].
  cbn [forallb] in O. apply andb_prop in O. destruct O as [Oc Ocs].
  cbv zeta. rewrite exec_cons. destruct (IH (turn config c sys) Ocs) as [N E].
  cbv zeta in N, E. rewrite N, E. clear N E IH.
  destruct c as [|tid|clicked replied|ns es]; cbn [turn own_turn] in *.
  - destruct (negb _ && negb _); [now split|]. apply run_segment_identity.
  - destruct (tasks sys !! tid) as [t|]; [|now split].
    destruct (is_returned (pc t)); [now split|]. apply run_segment_identity.
  - now split.
  - discriminate Oc.
Qed.

Lemma mark_off_after_on l objs : mark l false (mark l true objs) = mark l false objs.
Proof.
  unfold mark. rewrite List.map_map. apply List.map_ext. intros obj.
  destruct (existsb (strict_eq (obj_id obj)) l) eqn:X; cbn [obj_id set_active];
    now rewrite X.
Qed.

Lemma mark_off_twice l1 l2 objs :
  mark l2 false (mark l1 false objs) = mark (l1 ++ l2) false objs.
Proof.
  unfold mark. rewrite List.map_map. apply List.map_ext. intros obj.
  rewrite existsb_app.
  destruct (existsb (strict_eq (obj_id obj)) l1) eqn:X; cbn [obj_id set_active orb].
  - now destruct (existsb _ l2).
  - reflexivity.
Qed.

Lemma after_pulses_mark done s :
  nodes (after_pulses done s) = mark (flat_map ids done) false (nodes s)
  /\ edges (after_pulses done s) = mark (flat_map ids done) false (edges s).
Proof.
  unfold after_pulses. revert s.
  induction done as [|p l IH]; intros s; cbn [fold_left flat_map].
  - unfold mark. cbn. now rewrite !List.map_id.
  - destruct (IH (snd (animate (ids p) HIGHLIGHT_OFF
                         (snd (animate (ids p) HIGHLIGHT_ON s))))) as [N E].
    rewrite N, E.
    destruct (forEach_updateStyle_mark (ids p) HIGHLIGHT_OFF
                (snd (animate (ids p) HIGHLIGHT_ON s))) as (N1 & E1 & _).
    destruct (forEach_updateStyle_mark (ids p) HIGHLIGHT_ON s) as (N2 & E2 & _).
    cbv zeta in N1, E1, N2, E2. rewrite N1, E1, N2, E2.
    unfold HIGHLIGHT_ON, HIGHLIGHT_OFF.
    now rewrite !mark_off_after_on, !mark_off_twice.
Qed.

(** X8: a completed sweep leaves nothing lit. After the run's last timer
    every node and edge named anywhere in the animation sequence is marked
    inactive, every other one is as it was before the sweep. *)
Theorem sweep_leaves_sequence_dark s0 :
  animationLock s0 = false -> buttonClicked s0 = true -> aiReplied s0 = false ->
  let done :=
    exec config (lone_run (2 * length (animationSequence config))) (idle s0) in
  let listed := flat_map ids (animationSequence config) in
  nodes (shared done) = mark listed false (nodes s0)
  /\ edges (shared done) = mark listed false (edges s0)
  /\ (forall obj, In obj (nodes (shared done) ++ edges (shared done)) ->
                  In (obj_id obj) listed -> active obj = Some false)
  /\ (forall obj, In obj (nodes s0 ++ edges s0) ->
                  ~ In (obj_id obj) listed ->
                  In obj (nodes (shared done) ++ edges (shared done))).
Proof.
  intros L B A. cbv zeta. rewrite (sweep_completes config s0 L B A).
  cbn [shared nodes edges with_lock with_buttonClicked].
  destruct (after_pulses_mark (animationSequence config) (with_lock true s0))
    as [N E].
  cbn [nodes edges with_lock] in N, E. rewrite N, E.
  split; [reflexivity|]. split; [reflexivity|]. split.
  - intros obj Hin Hid. apply in_app_or in Hin.
    destruct Hin as [Hin|Hin]; eapply mark_sets_active; eassumption.
  - intros obj Hin Hn. apply in_app_or in Hin. apply in_or_app.
    destruct Hin as [Hin|Hin]; [left|right];
      now apply (proj2 (mark_keeps_others _ false _)).
Qed.

(** X9: a step may name an id the graph does not have; [updateStyle] then
    changes nothing and raises nothing. *)
Theorem updateStyle_unknown_id (i : jsstring) (b : bool) (s : Shared) :
  (forall obj, In obj (nodes s ++ edges s) -> obj_id obj <> i) ->
  updateStyle i b s = s.
Proof.
  intros H. unfold updateStyle, with_graph. destruct s as [ns es lk bc ar].
  cbn [nodes edges animationLock buttonClicked aiReplied] in *.
  assert (K : forall objs, (forall obj, In obj objs -> obj_id obj <> i) ->
              List.map (fun obj => if strict_eq (obj_id obj) i
                                   then set_active b obj else obj) objs = objs).
  { intros objs Ho. rewrite <- (List.map_id objs) at 2.
    apply List.map_ext_in. intros obj Hin. unfold strict_eq.
    rewrite bool_decide_eq_false_2; [reflexivity|now apply Ho]. }
  rewrite !K; [reflexivity| |]; intros obj Hin; apply H, in_or_app; auto.
Qed.

End SweepFacts.

Section SweepFactsClosed.
Import Js Sequencer SweepProgress.

Lemma sequencer_keeps_graph_identity_witness :
  let sys' := exec graphConfig
                [Parent true false; Trigger; Timer 0; Timer 0; Trigger; Timer 1]
                (mounted graphConfig) in
  identity (nodes (shared sys')) = identity (config_nodes graphConfig)
  /\ identity (edges (shared sys')) = identity (config_edges graphConfig).
Proof.
  apply (sequencer_keeps_graph_identity graphConfig
           [Parent true false; Trigger; Timer 0; Timer 0; Trigger; Timer 1]
           (mounted graphConfig)).
  reflexivity.
Defined.

Lemma sweep_leaves_sequence_dark_witness :
  let done := exec graphConfig (lone_run 6) (idle clicked) in
  let listed := [js "1"; js "1-2"; js "2"] in
  nodes (shared done) = mark listed false (nodes clicked)
  /\ edges (shared done) = mark listed false (edges clicked)
  /\ (forall obj, In obj (nodes (shared done) ++ edges (shared done)) ->
                  In (obj_id obj) listed -> active obj = Some false)
  /\ (forall obj, In obj (nodes clicked ++ edges clicked) ->
                  ~ In (obj_id obj) listed ->
                  In obj (nodes (shared done) ++ edges (shared done))).
Proof.
  apply (sweep_leaves_sequence_dark graphConfig clicked); reflexivity.
Defined.

Lemma updateStyle_unknown_id_witness :
  updateStyle (js "3") true clicked = clicked.
Proof.
  apply (updateStyle_unknown_id (js "3") true clicked).
  intros obj [<-|[<-|[<-|[]]]]; vm_compute; discriminate.
Defined.

End SweepFactsClosed.

(* ------------------------------------------------------------------ *)
(** ** More on the chat panel height observer *)

Section ObserverFacts.
Import Js ChatAreaMeasurement ObserverLife.

Variable options : Options.

Lemma callback_fold_pending l k :
  let k' := fold_left (fun k0 tm => callback options tm k0) l k in
  pending k' = pending k /\ next_handle k' = next_handle k
  /\ debounceTimeoutRef k' = debounceTimeoutRef k /\ now k' = now k.
Proof.
  revert k. induction l as [|t l IH]; intros k; [now repeat split|].
  cbn [fold_left]. destruct (IH (callback options t k)) as (a & b & c & d).
  cbv zeta. now rewrite a, b, c, d.
Qed.

Lemma elapse_tidy dt k : tidy k -> tidy (elapse options dt k).
Proof.
  intros [N H]. unfold elapse.
  destruct (callback_fold_pending
              (List.filter (fun tm => Nat.leb (due tm) (now k + dt)) (pending k))
              {| height := height k; isExpanded := isExpanded k;
                 debounceTimeoutRef := debounceTimeoutRef k;
                 pending := List.filter
                              (fun tm => negb (Nat.leb (due tm) (now k + dt)))
                              (pending k);
                 next_handle := next_handle k; now := now k + dt;
                 updates := updates k; notified := notified k |})
    as (P & NH & R & _).
  cbv zeta in P, NH, R. cbn [pending next_handle debounceTimeoutRef] in P, NH, R.
  split; [now rewrite NH|]. rewrite P, NH, R.
  destruct H as [->|(t & -> & Rf & Z & Lt)]; [now left|].
  cbn [List.filter]. destruct (Nat.leb (due t) (now k + dt)); cbn [negb].
  - now left.
  - right. now exists t.
Qed.

Lemma debounced_tidy h k :
  tidy k ->
  let k' := debouncedHeightUpdate options h k in
  tidy k' /\ armed options h k' /\ same_output k k'.
Proof.
  intros [N H]. destruct k as [hh ex r pd nh nw up nt]. cbn in N, H.
  cbv zeta. unfold debouncedHeightUpdate, setTimeout_ref, clearTimeout.
  cbn [height isExpanded debounceTimeoutRef pending next_handle now updates
       notified].
  destruct H as [->|(t & -> & Rf & Z & Lt)].
  - destruct r as [r0|]; [destruct (Nat.eqb r0 0)|]; cbn;
      (split; [split; [cbn; lia|right; eexists; cbn; repeat split; auto; cbn; lia]|]);
      (split; [eexists; cbn; repeat split; auto; cbn; lia|repeat split]).
  - subst r. destruct (Nat.eqb_spec (handle t) 0) as [X|_]; [contradiction|].
    cbn. rewrite Nat.eqb_refl. cbn.
    (split; [split; [cbn; lia|right; eexists; cbn; repeat split; auto; cbn; lia]|]);
    (split; [eexists; cbn; repeat split; auto; cbn; lia|repeat split]).
Qed.

Lemma measure_tidy m k : tidy k -> tidy (measure options m k).
Proof.
  intros T. unfold measure.
  now destruct (debounced_tidy (snd m) _ (elapse_tidy (fst m) k T)).
Qed.

Lemma measured_tidy ms k : tidy k -> tidy (measured options ms k).
Proof.
  unfold measured. revert k. induction ms as [|m ms IH]; intros k T; [exact T|].
  cbn [fold_left]. now apply IH, measure_tidy.
Qed.

Lemma mounted_tidy : tidy mounted.
Proof. split; [discriminate|now left]. Qed.

(** X10: however the measurements are spaced, at most one timeout is ever
    pending, and it is the one [debounceTimeoutRef] names: every
    measurement cancels the timeout of the one before it. *)
Theorem one_timeout_pending (ms : list (nat * number)) (quiet : nat) :
  let k := measured options ms mounted in
  let k' := observe options ms quiet mounted in
  length (pending k) <= 1
  /\ (forall t, In t (pending k) -> debounceTimeoutRef k = Some (handle t))
  /\ length (pending k') <= 1
  /\ (forall t, In t (pending k') -> debounceTimeoutRef k' = Some (handle t)).
Proof.
  cbv zeta.
  pose proof (measured_tidy ms mounted mounted_tidy) as T.
  pose proof (elapse_tidy quiet _ T) as T'.
  change (elapse options quiet (measured options ms mounted))
    with (observe options ms quiet mounted) in T'.
  assert (K : forall k, tidy k ->
              length (pending k) <= 1
              /\ forall t, In t (pending k) ->
                           debounceTimeoutRef k = Some (handle t)).
  { intros k [_ H]. destruct H as [E|(t0 & E & Rf & _)]; rewrite E; cbn.
    - split; [lia|]. intros t1 [].
    - split; [lia|]. intros t1 [<-|[]]. exact Rf. }
  destruct (K _ T) as [a b], (K _ T') as [c d]. now repeat split.
Qed.

Lemma clearTimeout_empty r k : pending k = [] -> clearTimeout r k = k.
Proof. intros E. destruct k. cbn in E. subst. reflexivity. Qed.

(** X11: after the teardown nothing is left to fire. Whatever was
    measured before, once the effect is cleaned up no timeout is pending,
    and no update or notification is emitted however long one waits. *)
Theorem teardown_cancels_pending (ms : list (nat * number)) (dt : nat) :
  let k := teardown (measured options ms mounted) in
  pending k = []
  /\ updates (elapse options dt k) = updates (measured options ms mounted)
  /\ notified (elapse options dt k) = notified (measured options ms mounted)
  /\ height (elapse options dt k) = height (measured options ms mounted)
  /\ isExpanded (elapse options dt k) = isExpanded (measured options ms mounted).
Proof.
  cbv zeta.
  pose proof (measured_tidy ms mounted mounted_tidy) as [N H].
  set (k := measured options ms mounted) in *.
  assert (P : pending (teardown k) = []
              /\ same_output k (teardown k)).
  { unfold teardown. destruct H as [E|(t & E & Rf & Z & Lt)].
    - destruct (debounceTimeoutRef k) as [r|]; [destruct (Nat.eqb r 0)|];
        rewrite ?clearTimeout_empty by exact E; now repeat split.
    - rewrite Rf. destruct (Nat.eqb_spec (handle t) 0) as [X|_]; [contradiction|].
      unfold clearTimeout. cbn. rewrite E. cbn. rewrite Nat.eqb_refl.
      now repeat split. }
  destruct P as (P & a & b & c & d). split; [exact P|].
  unfold elapse. rewrite P. cbn. now rewrite a, b, c, d.
Qed.

Lemma callback_coherent t k : coherent k -> coherent (callback options t k).
Proof.
  intros [_ F]. split; [reflexivity|]. cbn.
  apply Forall_app. split; [exact F|]. now repeat constructor.
Qed.

Lemma elapse_coherent dt k : coherent k -> coherent (elapse options dt k).
Proof.
  intros C. unfold elapse.
  set (k0 := {| height := height k; isExpanded := _; debounceTimeoutRef := _;
                pending := _; next_handle := _; now := _; updates := _;
                notified := _ |}).
  assert (C0 : coherent k0) by exact C.
  clearbody k0. revert k0 C0.
  induction (List.filter _ (pending k)) as [|t l IH]; intros k0 C0; [exact C0|].
  cbn [fold_left]. now apply IH, callback_coherent.
Qed.

Lemma measure_coherent m k : coherent k -> coherent (measure options m k).
Proof.
  intros C. apply (elapse_coherent (fst m)) in C. unfold measure.
  destruct (elapse options (fst m) k) as [hh ex r pd nh nw up nt].
  unfold debouncedHeightUpdate. cbn [debounceTimeoutRef].
  destruct r as [r0|]; [destruct (Nat.eqb r0 0)|]; exact C.
Qed.

(** X12: the observer never reports a height and an expansion state that
    disagree. In every state it reaches from mount, and in every update it
    has emitted, [isExpanded] is [height > 76]. *)
Theorem expanded_iff_above_76 (ms : list (nat * number)) (quiet : nat) :
  coherent (observe options ms quiet mounted).
Proof.
  unfold observe. apply elapse_coherent.
  assert (C : coherent mounted) by (split; [reflexivity|constructor]).
  revert C. generalize mounted.
  induction ms as [|m ms IH]; intros k C; [exact C|].
  cbn [fold_left]. now apply IH, measure_coherent.
Qed.

End ObserverFacts.


(* ------------------------------------------------------------------ *)
(** ** Rendering a message *)

Section MessageViewFacts.
Import Js MessageView.

Lemma split_lines_cons text : exists line lines, split_lines text = line :: lines.
Proof.
  induction text as [|c rest (line & lines & IH)]; cbn; [now eexists _, _|].
  destruct (N.eqb c LF); [now eexists _, _|]. rewrite IH. now eexists _, _.
Qed.

Lemma join_lines_cons line l2 ls :
  join_lines (line :: l2 :: ls) = line ++ LF :: join_lines (l2 :: ls).
Proof. reflexivity. Qed.

Lemma join_lines_head c line lines :
  join_lines ((c :: line) :: lines) = c :: join_lines (line :: lines).
Proof. destruct lines; reflexivity. Qed.

(** Splitting and joining back gives the text again. *)
Lemma join_split text : join_lines (split_lines text) = text.
Proof.
  induction text as [|c rest IH]; [reflexivity|]. cbn [split_lines].
  destruct (split_lines_cons rest) as (line & lines & E). rewrite E in *.
  destruct (N.eqb_spec c LF) as [->|_].
  - rewrite join_lines_cons. cbn [app]. f_equal. exact IH.
  - rewrite join_lines_head. f_equal. exact IH.
Qed.

(** No piece of a split holds a line feed. *)
Lemma split_lines_no_LF text :
  Forall (fun line => ~ In LF line) (split_lines text).
Proof.
  induction text as [|c rest IH]; cbn [split_lines].
  - constructor; [intros []|constructor].
  - destruct (N.eqb_spec c LF) as [->|Hc].
    + constructor; [intros []|exact IH].
    + destruct (split_lines rest) as [|line lines];
        [constructor; [|constructor]; intros [X|[]]; congruence|].
      inversion IH as [|? ? Hl Hls]; subst. constructor; [|exact Hls].
      intros [X|X]; [congruence|contradiction].
Qed.

(** Joining lines free of line feeds and splitting again gives the lines. *)
Lemma split_join lines :
  lines <> [] -> Forall (fun line => ~ In LF line) lines ->
  split_lines (join_lines lines) = lines.
Proof.
  induction lines as [|line rest IH]; intros N F; [congruence|].
  inversion F as [|? ? Hl Hr]; subst.
  destruct rest as [|l2 ls].
  - cbn [join_lines]. clear IH F Hr N.
    induction line as [|c line IHl]; [reflexivity|]. cbn [split_lines].
    destruct (N.eqb_spec c LF) as [->|_]; [exfalso; apply Hl; now left|].
    rewrite IHl; [reflexivity|]. intros X. apply Hl. now right.
  - change (join_lines (line :: l2 :: ls))
      with (line ++ LF :: join_lines (l2 :: ls)).
    specialize (IH ltac:(discriminate) Hr).
    clear F Hr N. induction line as [|c line IHl].
    + cbn [app split_lines]. rewrite N.eqb_refl. now rewrite IH.
    + cbn [app split_lines].
      destruct (N.eqb_spec c LF) as [->|_]; [exfalso; apply Hl; now left|].
      rewrite IHl; [reflexivity|]. intros X. apply Hl. now right.
Qed.

Lemma filter_no_LF lines :
  Forall (fun line => ~ In LF line) lines ->
  Forall (fun line => ~ In LF line) (List.filter not_blank lines).
Proof.
  induction 1 as [|l ls Hl _ IH]; cbn; [constructor|].
  destruct (not_blank l); [now constructor|exact IH].
Qed.

Lemma filter_filter_not_blank lines :
  List.filter not_blank (List.filter not_blank lines) = List.filter not_blank lines.
Proof.
  induction lines as [|l ls IH]; [reflexivity|]. cbn.
  destruct (not_blank l) eqn:E; cbn; [rewrite E; now f_equal|exact IH].
Qed.

Lemma normalizeMarkdown_keeps_nonblank_lines_aux (text : jsstring) :
  (List.filter not_blank (split_lines text) <> [] ->
   split_lines (normalizeMarkdown text)
   = List.filter not_blank (split_lines text))
  /\ (List.filter not_blank (split_lines text) = [] ->
      normalizeMarkdown text = []).
Proof.
  unfold normalizeMarkdown. split.
  - intros N. apply split_join; [exact N|].
    apply filter_no_LF, split_lines_no_LF.
  - intros ->. reflexivity.
Qed.

(** X14: [normalizeMarkdown] keeps exactly the lines that are not blank,
    in their order: the lines of its result are those lines of the text
    whose trimmed form is not empty, and the result is the empty string
    when every line is blank. *)
Theorem normalizeMarkdown_keeps_nonblank_lines (text : jsstring) :
  let kept := List.filter not_blank (split_lines text) in
  (kept <> [] -> split_lines (normalizeMarkdown text) = kept)
  /\ (kept = [] -> normalizeMarkdown text = []).
Proof.
  exact (normalizeMarkdown_keeps_nonblank_lines_aux text).
Qed.

(** X15: [normalizeMarkdown] is idempotent: a text already normalized is
    left as it is. *)
Theorem normalizeMarkdown_idempotent (text : jsstring) :
  normalizeMarkdown (normalizeMarkdown text) = normalizeMarkdown text.
Proof.
  destruct (normalizeMarkdown_keeps_nonblank_lines_aux text) as [H1 H2].
  destruct (List.filter not_blank (split_lines text)) as [|l ls] eqn:E.
  - rewrite (H2 eq_refl). reflexivity.
  - unfold normalizeMarkdown at 1. rewrite (H1 ltac:(discriminate)).
    unfold normalizeMarkdown. rewrite E, <- E.
    now rewrite filter_filter_not_blank.
Qed.

(** X16: a text without blank lines is rendered as written. *)
Theorem normalizeMarkdown_fixes_dense_text (text : jsstring) :
  forallb not_blank (split_lines text) = true ->
  normalizeMarkdown text = text.
Proof.
  intros H. unfold normalizeMarkdown.
  rewrite forallb_filter_id by exact H. apply join_split.
Qed.

Lemma normalizeMarkdown_fixes_dense_text_witness :
  normalizeMarkdown (js "## Red Line" ++ [LF] ++ js "- on time")
  = js "## Red Line" ++ [LF] ++ js "- on time".
Proof.
  apply (normalizeMarkdown_fixes_dense_text
           (js "## Red Line" ++ [LF] ++ js "- on time")).
  reflexivity.
Defined.

Example normalizeMarkdown_drops_blank_lines :
  normalizeMarkdown (js "## Red Line" ++ [LF; LF] ++ js "   " ++ [LF]
                     ++ js "- on time" ++ [LF])
  = js "## Red Line" ++ [LF] ++ js "- on time".
Proof. reflexivity. Qed.

End MessageViewFacts.

(* ------------------------------------------------------------------ *)
(** ** The theme *)

Section ThemeFacts.
Import Js ThemeContext.

(** X18: the toggle always flips the light mode and always leaves the
    "system" setting. Whatever the stored theme and the system's
    preference, after [toggleTheme] the page is light if and only if it was
    not, the theme is "light" or "dark" outright, and it is restored as
    such from the storage. *)
Theorem toggleTheme_flips (st : ThemeState) :
  let st' := toggleTheme st in
  isLightMode st' = negb (isLightMode st)
  /\ (theme st' = js "light" \/ theme st' = js "dark")
  /\ resolvedTheme st' = theme st'
  /\ initial_theme (stored st') = theme st'.
Proof.
  cbv zeta. unfold toggleTheme, isLightMode.
  destruct (strict_eq (resolvedTheme st) (js "light")); cbn [negb].
  - repeat split. now right.
  - repeat split. now left.
Qed.

End ThemeFacts.

(* ------------------------------------------------------------------ *)
(** ** Sending from the input field *)

Section ChatFlowFacts.
Import Js AgentAPI ChatFlow.

Lemma blank_send net prompt callbacks w :
  trim prompt = [] ->
  sendMessageWithCallback net prompt callbacks w = (Normal tt, w).
Proof. intros H. unfold sendMessageWithCallback. now rewrite H. Qed.

(** X19: Enter on a blank input leaves the panel loading for good. The
    key handler sends without looking at the input; [handleUserInput] has
    then already raised [isAgentLoading] and replaced the message shown
    when the gateway drops the blank prompt, so no request is made, no
    callback runs and nothing lowers the flag again. The send button, on
    the same input, does nothing. *)
Theorem enter_on_blank_input_sticks_loading (net : Net) (st : AppState) :
  trim (input_content (ui st)) = [] ->
  let st' := handleKeyDown net (js "Enter") false st in
  isAgentLoading (ui st') = true
  /\ currentUserMessage (ui st') = input_content (ui st)
  /\ agentResponse (ui st') = agentResponse (ui st)
  /\ world st' = world st
  /\ clickSend net st = st.
Proof.
  intros B. cbv zeta. unfold handleKeyDown, clickSend.
  replace (strict_eq (js "Enter") (js "Enter") && negb false) with true
    by reflexivity.
  rewrite B. cbn [truthy andb]. unfold processMessage.
  rewrite (blank_send _ _ _ _ B).
  rewrite skipn_all. cbn [fold_left].
  destruct (isMinimized (ui st)); repeat split.
Qed.

Lemma merge_last_snoc response isError a l m :
  elems a = l ++ [m] ->
  elems (merge_last response isError a)
  = l ++ [ {| role := role m; content := response; id := id m;
              animate := negb isError |} ].
Proof.
  intros E. unfold merge_last. cbn [spread array_lit elems].
  rewrite E, rev_app_distr. cbn [rev app].
  exact (rewrite_last_snoc a l m _ E).
Qed.

Lemma skipn_length_app {A} (l r : list A) : skipn (length l) (l ++ r) = r.
Proof. induction l as [|x l IH]; [reflexivity|exact IH]. Qed.

(** One send from the input, nothing else running: the world and the
    calls it leaves. *)
Lemma chat_send net prompt w :
  trim prompt <> [] -> undisturbed net ->
  let r := sendMessageWithCallback net prompt chat_callbacks w in
  fst r = Normal tt
  /\ loading (snd r) = false
  /\ elems (messages (snd r))
     = elems (messages w)
       ++ [ {| role := user; content := prompt; id := uuid_next w;
               animate := false |};
            {| role := assistant;
               content := match outcome net with
                          | Normal resp => resp
                          | Throw _ => fallback
                          end;
               id := N.succ (N.succ (uuid_next w));
               animate := match outcome net with
                          | Normal _ => true
                          | Throw _ => false
                          end |} ]
  /\ trace (snd r)
     = trace w
       ++ [ EvSetLoading true; EvOnStart; EvPost agent_prompt_path prompt;
            match outcome net with
            | Normal resp => EvOnSuccess resp
            | Throw e => EvOnError e
            end;
            EvSetLoading false ].
Proof.
  intros Hp Hu. cbv zeta. unfold sendMessageWithCallback.
  rewrite (nonempty_trim_passes_guard _ Hp).
  unfold bind, send_prologue, send_request, try_finally, try_catch, bind,
    axios_post, uuid, setMessages, setLoading, modify, call_if_present,
    chat_callbacks, opt_chain.
  cbn -[js fallback assign_last spread array_lit merge_last].
  rewrite Hu.
  destruct (outcome net) as [resp|e];
    cbn -[js fallback assign_last spread array_lit merge_last];
    rewrite <- !app_assoc; cbn [app];
    (split; [reflexivity|split; [reflexivity|split; [|reflexivity]]]).
  - rewrite (merge_last_snoc resp false _
               (elems (messages w)
                ++ [ {| role := user; content := prompt; id := uuid_next w;
                        animate := false |} ])
               {| role := assistant; content := resp;
                  id := N.succ (N.succ (uuid_next w)); animate := true |}).
    + now rewrite <- app_assoc.
    + rewrite rewrite_last_pair. now rewrite <- app_assoc.
  - rewrite (merge_last_snoc fallback true _
               (elems (messages w)
                ++ [ {| role := user; content := prompt; id := uuid_next w;
                        animate := false |} ])
               {| role := assistant; content := fallback;
                  id := N.succ (N.succ (uuid_next w)); animate := false |}).
    + now rewrite <- app_assoc.
    + rewrite rewrite_last_pair. now rewrite <- app_assoc.
Qed.

(** X20: one send from the input field. With an input that is not blank
    and nothing else running, Enter appends the user message and one
    assistant entry carrying the response (or the fallback text), and
    when the call has settled the panel is no longer loading, shows the
    prompt and that same text, the input is empty, and the graph has been
    told of the click (and of the reply, on success). The callbacks'
    second write of the last entry changes nothing in it. *)
Theorem enter_sends_and_settles (net : Net) (st : AppState) :
  trim (input_content (ui st)) <> [] ->
  undisturbed net ->
  let prompt := input_content (ui st) in
  let answer := match outcome net with
                | Normal resp => resp
                | Throw _ => fallback
                end in
  let st' := handleKeyDown net (js "Enter") false st in
  elems (messages (world st'))
  = elems (messages (world st))
    ++ [ {| role := user; content := prompt; id := uuid_next (world st);
            animate := false |};
         {| role := assistant; content := answer;
            id := N.succ (N.succ (uuid_next (world st)));
            animate := Conversation.is_normal (outcome net) |} ]
  /\ loading (world st') = false
  /\ isAgentLoading (ui st') = false
  /\ agentResponse (ui st') = answer
  /\ currentUserMessage (ui st') = prompt
  /\ input_content (ui st') = []
  /\ buttonClicked (ui st') = true
  /\ aiReplied (ui st')
     = (Conversation.is_normal (outcome net) || aiReplied (ui st))
  /\ isMinimized (ui st') = false.
Proof.
  intros Hp Hu. cbv zeta. unfold handleKeyDown.
  replace (strict_eq (js "Enter") (js "Enter") && negb false) with true
    by reflexivity.
  unfold processMessage.
  pose proof (chat_send net (input_content (ui st)) (world st) Hp Hu) as C.
  cbv zeta in C.
  destruct (sendMessageWithCallback net (input_content (ui st)) chat_callbacks
              (world st)) as [c w'].
  cbn [fst snd] in C. destruct C as (-> & L & E & T).
  rewrite T, skipn_length_app. cbn [world ui].
  split; [rewrite E; destruct (outcome net); reflexivity|].
  split; [exact L|].
  destruct (isMinimized (ui st)) eqn:M; destruct (outcome net) as [resp|e];
    cbn -[js fallback]; rewrite ?M; repeat split;
    now destruct (aiReplied (ui st)).
Qed.

Lemma enter_on_blank_input_sticks_loading_witness :
  let st := {| world := initial_world;
               ui := {| aiReplied := false; buttonClicked := false;
                        currentUserMessage := js "Red Line delays?";
                        agentResponse := js "No delays.";
                        isAgentLoading := false;
                        input_content := js "  "; isMinimized := false |} |} in
  let st' := handleKeyDown (quiet_net (Normal (js "unused"))) (js "Enter")
               false st in
  isAgentLoading (ui st') = true
  /\ currentUserMessage (ui st') = js "  "
  /\ agentResponse (ui st') = js "No delays."
  /\ world st' = initial_world
  /\ clickSend (quiet_net (Normal (js "unused"))) st = st.
Proof.
  apply (enter_on_blank_input_sticks_loading
           (quiet_net (Normal (js "unused")))
           {| world := initial_world;
              ui := {| aiReplied := false; buttonClicked := false;
                       currentUserMessage := js "Red Line delays?";
                       agentResponse := js "No delays.";
                       isAgentLoading := false;
                       input_content := js "  "; isMinimized := false |} |}).
  reflexivity.
Defined.

Lemma enter_sends_and_settles_witness :
  let st := {| world := initial_world;
               ui := {| aiReplied := false; buttonClicked := false;
                        currentUserMessage := [];
                        agentResponse := [];
                        isAgentLoading := false;
                        input_content := js "Red Line delays?";
                        isMinimized := true |} |} in
  let st' := handleKeyDown (quiet_net (Throw (AxiosError (js "ERR_NETWORK") None)))
               (js "Enter") false st in
  elems (messages (world st'))
  = [ {| role := user; content := js "Red Line delays?"; id := 0%N;
         animate := false |};
      {| role := assistant; content := fallback; id := 2%N;
         animate := false |} ]
  /\ loading (world st') = false
  /\ isAgentLoading (ui st') = false
  /\ agentResponse (ui st') = fallback
  /\ currentUserMessage (ui st') = js "Red Line delays?"
  /\ input_content (ui st') = []
  /\ buttonClicked (ui st') = true
  /\ aiReplied (ui st') = false
  /\ isMinimized (ui st') = false.
Proof.
  apply (enter_sends_and_settles
           (quiet_net (Throw (AxiosError (js "ERR_NETWORK") None)))
           {| world := initial_world;
              ui := {| aiReplied := false; buttonClicked := false;
                       currentUserMessage := [];
                       agentResponse := [];
                       isAgentLoading := false;
                       input_content := js "Red Line delays?";
                       isMinimized := true |} |}).
  - vm_compute. discriminate.
  - intros w. reflexivity.
Defined.

End ChatFlowFacts.

(* ------------------------------------------------------------------ *)
(** ** Who hears of a height change *)


(* ------------------------------------------------------------------ *)
(** ** A run of the sequencer among the others *)

Section RunFacts.
Import Js Sequencer SweepProgress RunAmongOthers.

Variable config : GraphConfig.

Lemma by_run_app tid l1 l2 :
  by_run tid (l1 ++ l2) = by_run tid l1 ++ by_run tid l2.
Proof. unfold by_run. now rewrite List.filter_app, List.map_app. Qed.

Lemma by_run_own tid acts : by_run tid (tagged tid acts) = acts.
Proof.
  unfold by_run, tagged. induction acts as [|a l IH]; [reflexivity|].
  cbn. rewrite Nat.eqb_refl. cbn. f_equal. exact IH.
Qed.

Lemma by_run_other tid j acts : j <> tid -> by_run tid (tagged j acts) = [].
Proof.
  intros N. unfold by_run, tagged. induction acts as [|a l IH]; [reflexivity|].
  cbn. destruct (Nat.eqb_spec j tid) as [E|_]; [contradiction|]. exact IH.
Qed.

(** While a run is inside its sweep the lock is up and every other run is
    outside. *)
Lemma holder_alone sys tid t :
  lock_invariant sys ->
  tasks sys !! tid = Some t -> holding (pc t) = true ->
  animationLock (shared sys) = true
  /\ forall j tj, tasks sys !! j = Some tj -> j <> tid ->
                  holding (pc tj) = false.
Proof.
  intros (h & _ & L & I3 & _) E Ho.
  pose proof (I3 tid t E Ho) as ->. split; [exact L|].
  intros j tj Ej N. destruct (holding (pc tj)) eqn:Hj; [|reflexivity].
  pose proof (I3 j tj Ej Hj) as X. congruence.
Qed.

(** A turn taken beside a run that is inside its sweep leaves the graph,
    the run and what the run did as they are. *)
Lemma beside_turn tid seen p ns es acts c sys :
  holding p = true ->
  stands_at tid seen p ns es acts sys ->
  beside tid c = true ->
  stands_at tid seen p ns es acts (turn config c sys).
Proof.
  intros Ho (I & E & N & Ed & B) Bc.
  destruct (holder_alone sys tid _ I E Ho) as (L & Others).
  pose proof (lookup_lt_Some _ _ _ E) as Lt.
  split; [now apply turn_invariant|].
  destruct c as [|j|clicked replied|ns' es']; cbn [turn beside] in *.
  - destruct (negb _ && negb _); [now repeat split|].
    unfold run_segment, resume. cbn [pc aiReplied_seen]. rewrite L.
    cbn [shared tasks history List.map].
    split; [now rewrite lookup_app_l|].
    split; [exact N|]. split; [exact Ed|].
    rewrite by_run_app, B.
    change [(length (tasks sys), Delay 100)]
      with (tagged (length (tasks sys)) [Delay 100]).
    rewrite by_run_other by lia. apply app_nil_r.
  - apply negb_true_iff, Nat.eqb_neq in Bc.
    destruct (tasks sys !! j) as [tj|] eqn:Ej; [|now repeat split].
    destruct (is_returned (pc tj)) eqn:R; [now repeat split|].
    pose proof (Others j tj Ej Bc) as Hj.
    unfold run_segment, resume.
    destruct (pc tj) eqn:Pj; try discriminate.
    rewrite L. cbn [shared tasks history List.map].
    split; [now rewrite list_lookup_insert_ne|].
    split; [exact N|]. split; [exact Ed|].
    rewrite by_run_app, B.
    change [(j, Delay 100)] with (tagged j [Delay 100]).
    rewrite by_run_other by exact Bc. apply app_nil_r.
  - now repeat split.
  - discriminate Bc.
Qed.

Lemma beside_turns tid seen p ns es acts gap :
  holding p = true ->
  forallb (beside tid) gap = true ->
  forall sys,
    stands_at tid seen p ns es acts sys ->
    stands_at tid seen p ns es acts (exec config gap sys).
Proof.
  intros Ho. induction gap as [|c gap IH]; intros G sys S; [exact S|].
  cbn [forallb] in G. apply andb_prop in G. destruct G as [Gc Gs].
  cbn [exec fold_left]. apply (IH Gs). now apply beside_turn.
Qed.

(** The timer of a run in the delay after an ON stretch: the ids of the
    step go off. *)
Lemma own_timer_off tid seen step rest ns es acts sys :
  stands_at tid seen (AfterOn step rest) ns es acts sys ->
  stands_at tid seen (AfterOff rest)
    (mark (ids step) false ns) (mark (ids step) false es)
    (acts ++ lights false step) (turn config (Timer tid) sys).
Proof.
  intros (I & E & N & Ed & B).
  pose proof (lookup_lt_Some _ _ _ E) as Lt.
  split; [now apply turn_invariant|].
  cbn [turn]. rewrite E. cbn [is_returned pc].
  unfold run_segment, resume. cbn [pc aiReplied_seen].
  destruct (forEach_updateStyle_mark (ids step) HIGHLIGHT_OFF (shared sys))
    as (N1 & E1 & _).
  cbv zeta in N1, E1. unfold animate in *. cbn [fst snd] in *.
  cbn [shared tasks history].
  split; [now apply list_lookup_insert_eq|].
  split; [now rewrite N1, N|]. split; [now rewrite E1, Ed|].
  rewrite by_run_app, B.
  change (List.map (fun a => (tid, a)) ?l) with (tagged tid l).
  now rewrite by_run_own.
Qed.

(** The timer of a run in the delay after an OFF stretch, with steps to
    go: the ids of the next step go on. *)
Lemma own_timer_on tid seen step rest ns es acts sys :
  stands_at tid seen (AfterOff (step :: rest)) ns es acts sys ->
  stands_at tid seen (AfterOn step rest)
    (mark (ids step) true ns) (mark (ids step) true es)
    (acts ++ lights true step) (turn config (Timer tid) sys).
Proof.
  intros (I & E & N & Ed & B).
  pose proof (lookup_lt_Some _ _ _ E) as Lt.
  split; [now apply turn_invariant|].
  cbn [turn]. rewrite E. cbn [is_returned pc].
  unfold run_segment, resume. cbn [pc aiReplied_seen loop_head].
  destruct (forEach_updateStyle_mark (ids step) HIGHLIGHT_ON (shared sys))
    as (N1 & E1 & _).
  cbv zeta in N1, E1. unfold animate in *. cbn [fst snd] in *.
  cbn [shared tasks history].
  split; [now apply list_lookup_insert_eq|].
  split; [now rewrite N1, N|]. split; [now rewrite E1, Ed|].
  rewrite by_run_app, B.
  change (List.map (fun a => (tid, a)) ?l) with (tagged tid l).
  now rewrite by_run_own.
Qed.

(** The timer of a run in the delay after its last OFF stretch: the click
    flag is reset, the lock released, the run returns. *)
Lemma own_timer_end tid seen ns es acts sys :
  stands_at tid seen (AfterOff []) ns es acts sys ->
  let sys' := turn config (Timer tid) sys in
  stands_at tid seen Returned ns es
    (acts ++ [SetButtonClicked false; Release]) sys'
  /\ animationLock (shared sys') = false
  /\ buttonClicked (shared sys') = false
  /\ aiReplied (shared sys') = aiReplied (shared sys).
Proof.
  intros (I & E & N & Ed & B). cbv zeta.
  pose proof (lookup_lt_Some _ _ _ E) as Lt.
  pose proof (turn_invariant config (Timer tid) sys I) as I'.
  revert I'. cbn [turn]. rewrite E. cbn [is_returned pc].
  unfold run_segment, resume. cbn [pc aiReplied_seen loop_head].
  intros I'. unfold stands_at. cbn [shared tasks history].
  split; [|now repeat split].
  split; [exact I'|].
  split; [now apply list_lookup_insert_eq|].
  split; [exact N|]. split; [exact Ed|].
  rewrite by_run_app, B.
  change (List.map (fun a => (tid, a)) ?l) with (tagged tid l).
  now rewrite by_run_own.
Qed.

Lemma guard_passes (s : Shared) :
  buttonClicked s || aiReplied s = true ->
  negb (buttonClicked s) && negb (aiReplied s) = false.
Proof. destruct (buttonClicked s), (aiReplied s); cbn; congruence. Qed.

(** What the turn of a run that takes the lock is, in terms of [resume]. *)
Lemma takes_lock_turn c tid seen sys :
  takes_lock c tid seen sys ->
  exists rest_of,
    turn config c sys
    = run_segment config tid {| aiReplied_seen := seen; pc := AtLockTest |}
        rest_of sys
    /\ (forall t', rest_of t' !! tid = Some t').
Proof.
  intros (L & [(-> & -> & G & ->)|(-> & E)]).
  - exists (fun t' => tasks sys ++ [t']). cbn [turn].
    rewrite (guard_passes _ G). split; [reflexivity|].
    intros t'. now rewrite lookup_app_r, Nat.sub_diag by lia.
  - exists (fun t' => <[tid := t']> (tasks sys)). cbn [turn]. rewrite E.
    cbn [is_returned pc]. split; [reflexivity|].
    intros t'. apply list_lookup_insert_eq. now apply lookup_lt_Some in E.
Qed.

Lemma takes_lock_invariant c tid seen sys :
  lock_invariant sys -> takes_lock c tid seen sys ->
  lock_invariant (turn config c sys).
Proof. intros I _. now apply turn_invariant. Qed.

(** A run that takes the lock with [aiReplied] false in its closure lights
    the first step. *)
Lemma takes_lock_sweeps c tid sys step rest :
  lock_invariant sys ->
  takes_lock c tid false sys ->
  animationSequence config = step :: rest ->
  stands_at tid false (AfterOn step rest)
    (mark (ids step) true (nodes (shared sys)))
    (mark (ids step) true (edges (shared sys)))
    (by_run tid (history sys) ++ [Acquire] ++ lights true step)
    (turn config c sys).
Proof.
  intros I T Sq. split; [now apply turn_invariant|].
  destruct (takes_lock_turn c tid false sys T) as (rest_of & -> & U).
  destruct T as (L & _).
  unfold run_segment, resume. cbn [pc aiReplied_seen negb]. rewrite L, Sq.
  cbn [loop_head].
  destruct (forEach_updateStyle_mark (ids step) HIGHLIGHT_ON
              (with_lock true (shared sys))) as (N1 & E1 & _).
  cbv zeta in N1, E1. unfold animate in *. cbn [fst snd] in *.
  cbn [shared tasks history].
  split; [apply U|].
  split; [exact N1|]. split; [exact E1|].
  rewrite by_run_app.
  change (List.map (fun a => (tid, a)) ?l) with (tagged tid l).
  now rewrite by_run_own.
Qed.

(** With no step to show, such a run is over at once. *)
Lemma takes_lock_empty_sequence c tid sys :
  takes_lock c tid false sys ->
  animationSequence config = [] ->
  let sys' := turn config c sys in
  tasks sys' !! tid = Some {| aiReplied_seen := false; pc := Returned |}
  /\ by_run tid (history sys')
     = by_run tid (history sys) ++ [Acquire; SetButtonClicked false; Release]
  /\ animationLock (shared sys') = false
  /\ buttonClicked (shared sys') = false.
Proof.
  intros T Sq. cbv zeta.
  destruct (takes_lock_turn c tid false sys T) as (rest_of & -> & U).
  destruct T as (L & _).
  unfold run_segment, resume. cbn [pc aiReplied_seen negb]. rewrite L, Sq.
  cbn [loop_head shared tasks history].
  split; [apply U|]. split; [|now split].
  rewrite by_run_app.
  change (List.map (fun a => (tid, a)) ?l) with (tagged tid l).
  now rewrite by_run_own.
Qed.

(** A run that takes the lock with [aiReplied] true in its closure is over
    in the same turn: no style update, both flags reset, the lock
    released; what the flag reads at that moment plays no part. *)
Lemma takes_lock_skips c tid sys :
  takes_lock c tid true sys ->
  let sys' := turn config c sys in
  shared sys'
  = {| nodes := nodes (shared sys); edges := edges (shared sys);
       animationLock := false; buttonClicked := false; aiReplied := false |}
  /\ history sys'
     = history sys
       ++ tagged tid [Acquire; SetAiReplied false; SetButtonClicked false;
                      Release]
  /\ tasks sys' !! tid = Some {| aiReplied_seen := true; pc := Returned |}.
Proof.
  intros T. cbv zeta.
  destruct (takes_lock_turn c tid true sys T) as (rest_of & -> & U).
  destruct T as (L & _).
  unfold run_segment, resume. cbn [pc aiReplied_seen negb]. rewrite L.
  cbn [shared tasks history]. split; [reflexivity|].
  split; [reflexivity|apply U].
Qed.

Lemma mark_off_over_on l m objs :
  mark (l ++ m) false (mark l true objs) = mark (l ++ m) false objs.
Proof.
  unfold mark. rewrite List.map_map. apply List.map_ext. intros obj.
  rewrite existsb_app.
  destruct (existsb (strict_eq (obj_id obj)) l) eqn:X;
    cbn [obj_id set_active orb]; rewrite existsb_app, X; reflexivity.
Qed.

Lemma pulse_lights step : pulse step = lights true step ++ lights false step.
Proof. unfold pulse, lights, DELAY_DURATION. now rewrite <- app_assoc. Qed.

Lemma own_timers_cons tid gap gaps sys :
  exec config (own_timers tid (gap :: gaps)) sys
  = exec config (own_timers tid gaps)
      (turn config (Timer tid) (exec config gap sys)).
Proof.
  unfold own_timers. cbn [flat_map]. rewrite <- app_assoc.
  unfold exec. now rewrite !fold_left_app.
Qed.

(** From the delay after the ON stretch of a step to the delay after the
    ON stretch of a later one: two timers per step in between, whatever
    the component does beside the run meanwhile. *)
Lemma sweep_among_others tid seen pre :
  forall sys s0 step rest gaps ns es acts,
    stands_at tid seen (AfterOn s0 (pre ++ step :: rest)) ns es acts sys ->
    length gaps = 2 * length pre + 2 ->
    all_beside tid gaps = true ->
    stands_at tid seen (AfterOn step rest)
      (mark (ids step) true (mark (ids s0 ++ flat_map ids pre) false ns))
      (mark (ids step) true (mark (ids s0 ++ flat_map ids pre) false es))
      (acts ++ lights false s0 ++ flat_map pulse pre ++ lights true step)
      (exec config (own_timers tid gaps) sys).
Proof.
  induction pre as [|p pre IH]; intros sys s0 step rest gaps ns es acts S Lg B.
  - destruct gaps as [|g1 [|g2 [|g3 gaps]]]; try (cbn [length] in Lg; lia).
    unfold all_beside in B. cbn [forallb] in B.
    apply andb_prop in B. destruct B as [B1 B].
    apply andb_prop in B. destruct B as [B2 _].
    rewrite !own_timers_cons. cbn [own_timers flat_map exec fold_left].
    cbn [app] in S. cbn [flat_map]. rewrite app_nil_r.
    apply (beside_turns tid _ _ _ _ _ g1) in S; [|reflexivity|exact B1].
    apply own_timer_off in S.
    apply (beside_turns tid _ _ _ _ _ g2) in S; [|reflexivity|exact B2].
    apply own_timer_on in S.
    now rewrite <- app_assoc in S.
  - destruct gaps as [|g1 [|g2 gaps]]; try (cbn [length] in Lg; lia).
    unfold all_beside in B. cbn [forallb] in B.
    apply andb_prop in B. destruct B as [B1 B].
    apply andb_prop in B. destruct B as [B2 B].
    rewrite !own_timers_cons.
    cbn [app] in S.
    apply (beside_turns tid _ _ _ _ _ g1) in S; [|reflexivity|exact B1].
    apply own_timer_off in S.
    apply (beside_turns tid _ _ _ _ _ g2) in S; [|reflexivity|exact B2].
    apply own_timer_on in S.
    apply (IH _ _ step rest gaps) in S;
      [|cbn [length] in Lg; lia|exact B].
    rewrite !mark_off_over_on, !mark_off_twice in S.
    cbn [flat_map].
    replace (acts ++ lights false s0 ++ (pulse p ++ flat_map pulse pre)
             ++ lights true step)
      with (((acts ++ lights false s0) ++ lights true p) ++ lights false p
            ++ flat_map pulse pre ++ lights true step); [exact S|].
    rewrite pulse_lights. now rewrite <- !app_assoc.
Qed.

(** The same counted from the acquisition. *)
Lemma sweep_to_step c tid sys pre step rest gaps :
  lock_invariant sys ->
  takes_lock c tid false sys ->
  animationSequence config = pre ++ step :: rest ->
  length gaps = 2 * length pre ->
  all_beside tid gaps = true ->
  stands_at tid false (AfterOn step rest)
    (mark (ids step) true (mark (flat_map ids pre) false (nodes (shared sys))))
    (mark (ids step) true (mark (flat_map ids pre) false (edges (shared sys))))
    (by_run tid (history sys)
     ++ [Acquire] ++ flat_map pulse pre ++ lights true step)
    (exec config (c :: own_timers tid gaps) sys).
Proof.
  intros I T Sq Lg B. cbn [exec fold_left]. fold (exec config).
  destruct pre as [|s0 pre].
  - destruct gaps; [|cbn [length] in Lg; lia]. cbn [own_timers flat_map exec fold_left app].
    pose proof (takes_lock_sweeps c tid sys step rest I T Sq) as S.
    assert (M : forall objs : list GraphObj, mark [] false objs = objs).
    { intros objs. unfold mark. cbn. apply List.map_id. }
    now rewrite !M.
  - pose proof (takes_lock_sweeps c tid sys s0 (pre ++ step :: rest) I T Sq) as S.
    apply (sweep_among_others tid false pre _ s0 step rest gaps) in S;
      [|cbn [length] in Lg; lia|exact B].
    rewrite !mark_off_over_on in S. cbn [flat_map].
    replace (by_run tid (history sys) ++ [Acquire]
             ++ (pulse s0 ++ flat_map pulse pre) ++ lights true step)
      with ((by_run tid (history sys) ++ [Acquire] ++ lights true s0)
            ++ lights false s0 ++ flat_map pulse pre ++ lights true step);
      [exact S|].
    rewrite pulse_lights. now rewrite <- !app_assoc.
Qed.


Lemma own_timers_app tid l1 l2 :
  own_timers tid (l1 ++ l2) = own_timers tid l1 ++ own_timers tid l2.
Proof. apply flat_map_app. Qed.

Lemma all_beside_app tid l1 l2 :
  all_beside tid (l1 ++ l2) = all_beside tid l1 && all_beside tid l2.
Proof. apply forallb_app. Qed.

Lemma last_two {A} (l : list A) n :
  length l = n + 2 ->
  exists l0 a b, l = l0 ++ [a; b] /\ length l0 = n.
Proof.
  intros L. exists (firstn n l).
  pose proof (firstn_skipn n l) as E.
  pose proof (length_skipn n l) as K. rewrite L in K.
  destruct (skipn n l) as [|a [|b [|x r]]]; cbn [length] in K; try lia.
  exists a, b. split; [now symmetry|]. rewrite length_firstn. lia.
Qed.

Lemma mark_nothing b (objs : list GraphObj) : mark [] b objs = objs.
Proof. unfold mark. cbn. apply List.map_id. Qed.

(** The whole sweep of a run among the others, from the acquisition to the
    release. *)
Lemma sweep_to_end c tid sys gaps :
  lock_invariant sys ->
  takes_lock c tid false sys ->
  length gaps = 2 * length (animationSequence config) ->
  all_beside tid gaps = true ->
  let done := exec config (c :: own_timers tid gaps) sys in
  let listed := flat_map ids (animationSequence config) in
  tasks done !! tid = Some {| aiReplied_seen := false; pc := Returned |}
  /\ nodes (shared done) = mark listed false (nodes (shared sys))
  /\ edges (shared done) = mark listed false (edges (shared sys))
  /\ by_run tid (history done)
     = by_run tid (history sys) ++ sweep (animationSequence config)
  /\ animationLock (shared done) = false
  /\ buttonClicked (shared done) = false.
Proof.
  intros I T Lg B. cbv zeta.
  destruct (animationSequence config) as [|step pre] eqn:Sq using rev_ind.
  - destruct gaps; [|cbn [length] in Lg; lia].
    cbn [own_timers flat_map exec fold_left].
    destruct (takes_lock_empty_sequence c tid sys T Sq) as (E & H & L & Bc).
    cbv zeta in E, H, L, Bc.
    destruct (takes_lock_turn c tid false sys T) as (rest_of & Tu & U).
    destruct T as (L0 & _).
    rewrite !mark_nothing. repeat split; try assumption;
      rewrite Tu; unfold run_segment, resume;
      cbn [pc aiReplied_seen negb]; rewrite L0, Sq; reflexivity.
  - clear IHpre. rewrite length_app in Lg. cbn [length] in Lg.
    destruct (last_two gaps (2 * length pre)) as (gaps0 & ga & gb & -> & L0);
      [lia|].
    rewrite all_beside_app in B. apply andb_prop in B. destruct B as [B0 B].
    unfold all_beside in B. cbn [forallb] in B.
    apply andb_prop in B. destruct B as [Ba B].
    apply andb_prop in B. destruct B as [Bb _].
    pose proof (sweep_to_step c tid sys pre step [] gaps0 I T Sq L0 B0) as S.
    rewrite own_timers_app, app_comm_cons, exec_app.
    cbn [own_timers flat_map]. rewrite app_nil_r, <- app_assoc, !exec_app.
    cbn [exec fold_left] in *. fold (exec config) in *.
    apply (beside_turns tid _ _ _ _ _ ga) in S; [|reflexivity|exact Ba].
    apply own_timer_off in S.
    apply (beside_turns tid _ _ _ _ _ gb) in S; [|reflexivity|exact Bb].
    apply own_timer_end in S. cbv zeta in S.
    destruct S as ((_ & E & N & Ed & H) & L & Bc & _).
    rewrite mark_off_after_on, mark_off_twice in N, Ed.
    rewrite flat_map_app. cbn [flat_map]. rewrite app_nil_r.
    split; [exact E|]. split; [exact N|]. split; [exact Ed|].
    split; [|now split].
    rewrite H. unfold sweep. rewrite flat_map_app. cbn [flat_map].
    rewrite app_nil_r, pulse_lights. now rewrite <- !app_assoc.
Qed.

(** C4: a run that takes the lock with [aiReplied] false in its closure,
    at its trigger or after waiting, in any state the component can be
    in and whatever the component does beside the run meanwhile (other
    triggers, other runs polling, the parent setting its flags), goes
    through the animation sequence in order. When it has lit step [step]
    (two timers per earlier step after the acquisition) the graph is
    exactly the graph it found with the ids of the earlier steps set
    inactive and then the ids of [step] set active, nothing else changed;
    the run did, since taking the lock, one pulse per earlier step in
    sequence order and the ON half of this one, and sleeps its 500ms
    holding the lock. One timer later exactly the same ids are inactive
    again, the run sleeps 500ms once more, still holding the lock, and
    only then goes on: to the next step, or, after the last one, to the
    release, its whole history being the lock taken, one pulse per step
    in order, the click flag reset and the lock released. *)
Theorem sweep_pulses_in_order sys c tid pre step rest gaps gap1 gap2 gap3 :
  lock_invariant sys ->
  takes_lock c tid false sys ->
  animationSequence config = pre ++ step :: rest ->
  length gaps = 2 * length pre ->
  all_beside tid (gap1 :: gap2 :: gap3 :: gaps) = true ->
  let lit := exec config (c :: own_timers tid gaps ++ gap1) sys in
  let unlit := exec config (gap2 ++ Timer tid :: gap3) lit in
  let earlier_off := mark (flat_map ids pre) false in
  nodes (shared lit) = mark (ids step) true (earlier_off (nodes (shared sys)))
  /\ edges (shared lit) = mark (ids step) true (earlier_off (edges (shared sys)))
  /\ by_run tid (history lit)
     = by_run tid (history sys) ++ [Acquire] ++ flat_map pulse pre
       ++ List.map (fun id => UpdateStyle id true) (ids step)
       ++ [Delay DELAY_DURATION]
  /\ animationLock (shared lit) = true
  /\ tasks lit !! tid
     = Some {| aiReplied_seen := false; pc := AfterOn step rest |}
  /\ nodes (shared unlit)
     = mark (ids step) false (earlier_off (nodes (shared sys)))
  /\ edges (shared unlit)
     = mark (ids step) false (earlier_off (edges (shared sys)))
  /\ by_run tid (history unlit)
     = by_run tid (history lit)
       ++ List.map (fun id => UpdateStyle id false) (ids step)
       ++ [Delay DELAY_DURATION]
  /\ animationLock (shared unlit) = true
  /\ tasks unlit !! tid
     = Some {| aiReplied_seen := false; pc := AfterOff rest |}
  /\ (forall next rest',
        rest = next :: rest' ->
        let lit' := turn config (Timer tid) unlit in
        nodes (shared lit') = mark (ids next) true (nodes (shared unlit))
        /\ edges (shared lit') = mark (ids next) true (edges (shared unlit))
        /\ tasks lit' !! tid
           = Some {| aiReplied_seen := false; pc := AfterOn next rest' |})
  /\ (rest = [] ->
      let done := turn config (Timer tid) unlit in
      by_run tid (history done)
      = by_run tid (history sys) ++ sweep (animationSequence config)
      /\ nodes (shared done) = nodes (shared unlit)
      /\ edges (shared done) = edges (shared unlit)
      /\ animationLock (shared done) = false
      /\ tasks done !! tid
         = Some {| aiReplied_seen := false; pc := Returned |}).
Proof.
  intros I T Sq Lg B. cbv zeta.
  unfold all_beside in B. cbn [forallb] in B.
  apply andb_prop in B. destruct B as [B1 B].
  apply andb_prop in B. destruct B as [B2 B].
  apply andb_prop in B. destruct B as [B3 B].
  pose proof (sweep_to_step c tid sys pre step rest gaps I T Sq Lg B) as S.
  rewrite app_comm_cons, exec_app.
  apply (beside_turns tid _ _ _ _ _ gap1) in S; [|reflexivity|exact B1].
  set (lit := exec config gap1 _) in *.
  pose proof S as S1.
  apply (beside_turns tid _ _ _ _ _ gap2) in S1; [|reflexivity|exact B2].
  apply own_timer_off in S1.
  apply (beside_turns tid _ _ _ _ _ gap3) in S1; [|reflexivity|exact B3].
  replace (exec config gap3 (turn config (Timer tid) (exec config gap2 lit)))
    with (exec config (gap2 ++ Timer tid :: gap3) lit) in S1
    by (now rewrite exec_app).
  set (unlit := exec config (gap2 ++ Timer tid :: gap3) lit) in *.
  rewrite !mark_off_after_on in S1.
  destruct S as (I1 & E1 & N1 & Ed1 & H1).
  destruct (holder_alone lit tid _ I1 E1 eq_refl) as (L1 & _).
  pose proof S1 as (I2 & E2 & N2 & Ed2 & H2).
  destruct (holder_alone unlit tid _ I2 E2 eq_refl) as (L2 & _).
  split; [exact N1|]. split; [exact Ed1|]. split; [exact H1|].
  split; [exact L1|]. split; [exact E1|].
  split; [exact N2|]. split; [exact Ed2|].
  split; [now rewrite H2, H1|].
  split; [exact L2|]. split; [exact E2|]. split.
  - intros next rest' ->. apply own_timer_on in S1.
    destruct S1 as (_ & E3 & N3 & Ed3 & _).
    rewrite N2, Ed2. now repeat split.
  - intros ->. apply own_timer_end in S1. cbv zeta in S1.
    destruct S1 as ((_ & E3 & N3 & Ed3 & H3) & L3 & _).
    rewrite N2, Ed2. split; [|now repeat split].
    rewrite H3, Sq. unfold sweep. rewrite flat_map_app. cbn [flat_map].
    rewrite app_nil_r, pulse_lights. now rewrite <- !app_assoc.
Qed.

(** C5: a run that takes the lock with [aiReplied] true in its closure,
    at its trigger or after waiting (when what the flag reads by then may
    differ), in any state of the component, performs no style update: in
    that one turn it takes the lock, resets the reply flag, resets the
    click flag and releases the lock, the graph untouched. It is the
    closure's value that decides: a run whose closure holds false lights
    the first step and leaves the reply flag as it is, whatever the flag
    reads. And in both branches, whatever the component does beside the
    run meanwhile, the run comes to its end with the click flag reset and
    the lock released, these being its last two actions. *)
Theorem reply_short_circuits sys c tid seen gaps :
  lock_invariant sys ->
  takes_lock c tid seen sys ->
  length gaps
  = (if seen then 0 else 2 * length (animationSequence config)) ->
  all_beside tid gaps = true ->
  let first := turn config c sys in
  let done := exec config (c :: own_timers tid gaps) sys in
  (seen = true ->
   done = first
   /\ shared first
      = {| nodes := nodes (shared sys); edges := edges (shared sys);
           animationLock := false; buttonClicked := false;
           aiReplied := false |}
   /\ history first
      = history sys
        ++ tagged tid [Acquire; SetAiReplied false; SetButtonClicked false;
                       Release])
  /\ (seen = false ->
      forall step rest,
        animationSequence config = step :: rest ->
        nodes (shared first) = mark (ids step) true (nodes (shared sys))
        /\ edges (shared first) = mark (ids step) true (edges (shared sys))
        /\ aiReplied (shared first) = aiReplied (shared sys)
        /\ animationLock (shared first) = true
        /\ by_run tid (history first)
           = by_run tid (history sys) ++ [Acquire]
             ++ List.map (fun id => UpdateStyle id true) (ids step)
             ++ [Delay DELAY_DURATION])
  /\ buttonClicked (shared done) = false
  /\ animationLock (shared done) = false
  /\ tasks done !! tid = Some {| aiReplied_seen := seen; pc := Returned |}
  /\ exists before,
       by_run tid (history done)
       = by_run tid (history sys)
         ++ [Acquire] ++ before ++ [SetButtonClicked false; Release].
Proof.
  intros I T Lg B. cbv zeta. destruct seen.
  - destruct gaps; [|discriminate Lg].
    cbn [own_timers flat_map exec fold_left].
    destruct (takes_lock_skips c tid sys T) as (Sh & H & E).
    cbv zeta in Sh, H, E.
    split; [intros _; now repeat split|]. split; [discriminate|].
    rewrite Sh, E, H. cbn [buttonClicked animationLock].
    repeat split. exists [SetAiReplied false].
    now rewrite by_run_app, by_run_own.
  - split; [discriminate|]. split.
    + intros _ step rest Sq.
      pose proof (takes_lock_sweeps c tid sys step rest I T Sq)
        as (I1 & E1 & N1 & Ed1 & H1).
      destruct (holder_alone _ tid _ I1 E1 eq_refl) as (L1 & _).
      split; [exact N1|]. split; [exact Ed1|].
      split; [|split; [exact L1|exact H1]].
      destruct (takes_lock_turn c tid false sys T) as (rest_of & -> & U).
      destruct T as (L0 & _).
      unfold run_segment, resume. cbn [pc aiReplied_seen negb].
      rewrite L0, Sq. cbn [loop_head].
      destruct (forEach_updateStyle_mark (ids step) HIGHLIGHT_ON
                  (with_lock true (shared sys))) as (_ & _ & _ & _ & A).
      cbv zeta in A. unfold animate in *. cbn [fst snd] in *. exact A.
    + destruct (sweep_to_end c tid sys gaps I T Lg B)
        as (E & _ & _ & H & L & Bc).
      cbv zeta in E, H, L, Bc.
      split; [exact Bc|]. split; [exact L|]. split; [exact E|].
      exists (flat_map pulse (animationSequence config)).
      rewrite H. reflexivity.
Qed.

End RunFacts.

Section RunExamples.
Import Js Sequencer SweepProgress RunAmongOthers.

(** The user sends; while the run sweeps, the reply comes in and a second
    run starts polling. After the run's second timer the edge is lit, the
    first node is dark again and the second node was not touched yet; one
    timer later the edge is dark too. *)
Lemma sweep_pulses_in_order_witness :
  let sys := exec graphConfig [Parent true false] (mounted graphConfig) in
  let lit :=
    exec graphConfig
      (Trigger :: own_timers 0 [[Parent true true; Trigger]; [Timer 1]]
       ++ [Timer 1]) sys in
  let unlit := exec graphConfig ([Timer 1] ++ Timer 0 :: [Timer 1]) lit in
  List.map active (nodes (shared lit)) = [Some false; None]
  /\ List.map active (edges (shared lit)) = [Some true]
  /\ List.map active (nodes (shared unlit)) = [Some false; None]
  /\ List.map active (edges (shared unlit)) = [Some false]
  /\ by_run 0 (history unlit)
     = [ Acquire;
         UpdateStyle (js "1") true; Delay 500;
         UpdateStyle (js "1") false; Delay 500;
         UpdateStyle (js "1-2") true; Delay 500;
         UpdateStyle (js "1-2") false; Delay 500 ].
Proof.
  pose proof (sweep_pulses_in_order graphConfig
                (exec graphConfig [Parent true false] (mounted graphConfig))
                Trigger 0
                [ {| ids := [js "1"] |} ] {| ids := [js "1-2"] |}
                [ {| ids := [js "2"] |} ]
                [[Parent true true; Trigger]; [Timer 1]]
                [Timer 1] [Timer 1] [Timer 1]
                (exec_invariant graphConfig _ _ (mounted_invariant graphConfig))
                (conj eq_refl
                   (or_introl (conj eq_refl (conj eq_refl
                                               (conj eq_refl eq_refl)))))
                eq_refl eq_refl eq_refl) as H.
  cbv zeta in H.
  destruct H as (N1 & E1 & _ & _ & _ & N2 & E2 & H2 & _).
  cbv zeta. rewrite N1, E1, N2, E2, H2. vm_compute. repeat split.
Defined.

(** The reply scenario: the run the reply started waited through the
    sweep; by the time it takes the lock the flag reads false again (a
    later run reset it), but its closure holds true, and it skips. *)
Lemma reply_short_circuits_witness :
  let sys := exec graphConfig reply_during_sweep (mounted graphConfig) in
  let done := turn graphConfig (Timer 1) sys in
  aiReplied (shared sys) = false
  /\ shared done = shared sys
  /\ by_run 1 (history done)
     = [ Delay 100; Delay 100;
         Acquire; SetAiReplied false; SetButtonClicked false; Release ]
  /\ List.map pc (tasks done) = [Returned; Returned; Returned].
Proof.
  pose proof (reply_short_circuits graphConfig
                (exec graphConfig reply_during_sweep (mounted graphConfig))
                (Timer 1) 1 true []
                (exec_invariant graphConfig _ _ (mounted_invariant graphConfig))
                (conj eq_refl (or_intror (conj eq_refl eq_refl)))
                eq_refl eq_refl) as H.
  cbv zeta in H. destruct H as (S & _). destruct (S eq_refl) as (_ & Sh & Hi).
  cbv zeta. rewrite Sh, Hi. vm_compute. repeat split.
Defined.

End RunExamples.

(* ------------------------------------------------------------------ *)
(** ** The height observer with its subscribing effect *)

Section SubscriptionFacts.
Import Js ChatAreaMeasurement ObserverLife Subscription.

Variable options : Options.

Lemma same_value_refl h : same_value h h = true.
Proof.
  unfold same_value, PrimFloat.is_nan.
  destruct (PrimFloat.eqb h h) eqn:E; cbn [negb andb]; [|reflexivity].
  now rewrite Bool.eqb_reflx, orb_true_r.
Qed.

Lemma run_due_nothing fuel until p :
  pending (hook p) = [] -> run_due fuel options until p = p.
Proof. intros E. destruct fuel; cbn [run_due]; [|rewrite E]; reflexivity. Qed.

(** With nothing due, waiting only moves the clock. *)
Lemma wait_at_rest dt p :
  pending (hook p) = [] ->
  hook (wait options dt p) = elapse options dt (hook p)
  /\ element_height (wait options dt p) = element_height p.
Proof.
  intros E. unfold wait. rewrite (run_due_nothing _ _ p E).
  unfold elapse, set_now. rewrite E. now split.
Qed.

Lemma wait_early h dt p :
  armed options h (hook p) -> dt < debounceMs options ->
  hook (wait options dt p) = elapse options dt (hook p)
  /\ element_height (wait options dt p) = element_height p.
Proof.
  intros (t & P & _ & _ & _ & D & _) G. unfold wait. cbn [run_due].
  unfold elapse, set_now. rewrite P. cbn [List.filter].
  destruct (Nat.leb_spec (due t) (now (hook p) + dt)) as [X|_]; [lia|].
  cbn [negb fold_left with_hook hook element_height]. rewrite P. now split.
Qed.

(** During a burst the effect plays no part: the panel's hook goes
    through what the timer alone goes through. *)
Lemma burst_as_measured burst :
  Forall (fun m => fst m < debounceMs options) burst ->
  forall h p,
    armed options h (hook p) ->
    let p' := fold_left (fun p0 m => resize options m p0) burst p in
    hook p' = fold_left (fun k0 m => measure options m k0) burst (hook p)
    /\ element_height p' = snd (List.last burst (0, element_height p)).
Proof.
  induction 1 as [|[gap h1] burst G _ IH]; intros h p A; cbv zeta.
  - now split.
  - cbn [fold_left].
    destruct (wait_early h gap p A G) as (W & _).
    assert (E : hook (resize options (gap, h1) p)
                = measure options (gap, h1) (hook p)).
    { unfold resize, measure. cbn [hook fst snd]. now rewrite W. }
    assert (A1 : armed options h1 (hook (resize options (gap, h1) p))).
    { rewrite E. now apply (measure_armed options gap h h1). }
    destruct (IH h1 _ A1) as (H1 & H2). cbv zeta in H1, H2.
    rewrite H1, H2, E. split; [reflexivity|].
    cbn [resize element_height snd].
    destruct burst as [|m burst']; [reflexivity|].
    now rewrite (last_cons_nonempty (m :: burst') (gap, h1)
                   (0, element_height p) (0, h1)) by discriminate.
Qed.

Lemma emit_if {A} (c : bool) (l : list A) (x : A) :
  (if c then l ++ [x] else l) = l ++ (if c then [x] else []).
Proof. destruct c; [reflexivity|now rewrite app_nil_r]. Qed.

Lemma run_due_step fuel until p t rest :
  List.filter (fun tm => Nat.leb (due tm) until) (pending (hook p)) = t :: rest ->
  run_due (S fuel) options until p
  = run_due fuel options until (fire options t p).
Proof. intros E. cbn [run_due]. now rewrite E. Qed.

Lemma run_due_none fuel until p :
  List.filter (fun tm => Nat.leb (due tm) until) (pending (hook p)) = [] ->
  run_due fuel options until p = p.
Proof. intros E. destruct fuel; cbn [run_due]; [|rewrite E]; reflexivity. Qed.

Lemma debounced_at_rest h k :
  pending k = [] ->
  debouncedHeightUpdate options h k = setTimeout_ref (debounceMs options) h k.
Proof.
  intros E. unfold debouncedHeightUpdate.
  destruct (debounceTimeoutRef k) as [r|]; [destruct (Nat.eqb r 0)|];
    rewrite ?clearTimeout_empty by exact E; reflexivity.
Qed.

Lemma teardown_at_rest k : pending k = [] -> teardown k = k.
Proof.
  intros E. unfold teardown.
  destruct (debounceTimeoutRef k) as [r|]; [destruct (Nat.eqb r 0)|];
    rewrite ?clearTimeout_empty by exact E; reflexivity.
Qed.

(** The timeout of a measurement [h] fires with the state at another
    value: the state is set, the effect runs again and leaves a timeout
    for the panel's height, due an interval later. *)
Lemma fire_changes hh ex ht nh nw up nt h dom dt :
  ht <> 0 -> nh <> 0 ->
  negb (same_value h hh) || xorb (gt h 76%float) ex = true ->
  fire options
    {| handle := ht; due := dt; newHeight := h; seen_height := hh;
       seen_isExpanded := ex |}
    {| hook := {| height := hh; isExpanded := ex;
                  debounceTimeoutRef := Some ht;
                  pending := [ {| handle := ht; due := dt; newHeight := h;
                                  seen_height := hh; seen_isExpanded := ex |} ];
                  next_handle := nh; now := nw; updates := up;
                  notified := nt |};
       element_height := dom |}
  = {| hook := {| height := h; isExpanded := gt h 76%float;
                  debounceTimeoutRef := Some (S nh);
                  pending := [ {| handle := S nh;
                                  due := Nat.max nw dt + debounceMs options;
                                  newHeight := dom; seen_height := h;
                                  seen_isExpanded := gt h 76%float |} ];
                  next_handle := S (S nh); now := Nat.max nw dt;
                  updates := up ++ [(h, gt h 76%float)];
                  notified :=
                    nt ++ (if opt_onHeightChange options
                              && (number_neq h hh
                                  || bool_neq ex (gt h 76%float))
                           then [h] else []) |};
       element_height := dom |}.
Proof.
  intros Z1 Z2 Ch.
  set (t := {| handle := ht; due := dt; newHeight := h; seen_height := hh;
               seen_isExpanded := ex |}).
  set (k0 := {| height := hh; isExpanded := ex; debounceTimeoutRef := Some ht;
                pending := [t]; next_handle := nh; now := nw; updates := up;
                notified := nt |}).
  set (k1 := {| height := h; isExpanded := gt h 76%float;
                debounceTimeoutRef := Some ht; pending := [];
                next_handle := nh; now := Nat.max nw dt;
                updates := up ++ [(h, gt h 76%float)];
                notified :=
                  nt ++ (if opt_onHeightChange options
                            && (number_neq h hh || bool_neq ex (gt h 76%float))
                         then [h] else []) |}).
  assert (E1 : callback options t (expire t k0) = k1).
  { unfold callback, expire. subst t k0 k1.
    cbn [hook now pending List.filter handle due newHeight seen_height
         seen_isExpanded height isExpanded updates notified next_handle
         debounceTimeoutRef].
    rewrite Nat.eqb_refl. cbn [negb]. now rewrite emit_if. }
  unfold fire. cbn [hook]. rewrite E1.
  replace (state_changed (expire t k0) k1) with true
    by (symmetry; exact Ch).
  unfold subscribe. cbn [with_hook hook element_height].
  rewrite (teardown_at_rest k1 eq_refl).
  rewrite (debounced_at_rest dom k1 eq_refl).
  unfold debouncedHeightUpdate, setTimeout_ref at 2. subst k1.
  cbn [debounceTimeoutRef next_handle pending height isExpanded now updates
       notified app].
  destruct (Nat.eqb_spec nh 0) as [X|_]; [contradiction|].
  unfold clearTimeout, setTimeout_ref.
  cbn [debounceTimeoutRef next_handle pending height isExpanded now updates
       notified app List.filter handle].
  rewrite Nat.eqb_refl. cbn [negb app]. reflexivity.
Qed.

(** The timeout fires with the state already at its value: the state is
    set to what it was, and nothing more happens. *)
Lemma fire_same hh ex r ht nh nw up nt h dom dt :
  negb (same_value h hh) || xorb (gt h 76%float) ex = false ->
  fire options
    {| handle := ht; due := dt; newHeight := h; seen_height := hh;
       seen_isExpanded := ex |}
    {| hook := {| height := hh; isExpanded := ex;
                  debounceTimeoutRef := r;
                  pending := [ {| handle := ht; due := dt; newHeight := h;
                                  seen_height := hh; seen_isExpanded := ex |} ];
                  next_handle := nh; now := nw; updates := up;
                  notified := nt |};
       element_height := dom |}
  = {| hook := {| height := h; isExpanded := gt h 76%float;
                  debounceTimeoutRef := r;
                  pending := [];
                  next_handle := nh; now := Nat.max nw dt;
                  updates := up ++ [(h, gt h 76%float)];
                  notified :=
                    nt ++ (if opt_onHeightChange options
                              && (number_neq h hh
                                  || bool_neq ex (gt h 76%float))
                           then [h] else []) |};
       element_height := dom |}.
Proof.
  intros Ch. unfold fire, expire, callback, state_changed.
  cbn [hook now pending List.filter handle due newHeight seen_height
       seen_isExpanded height isExpanded updates notified next_handle
       debounceTimeoutRef].
  rewrite Nat.eqb_refl. cbn [negb]. rewrite Ch, emit_if. reflexivity.
Qed.

(** The armed timer of the last measurement fires once the quiet period
    outlasts the interval. If its update changed the state, the effect
    re-subscribes and measures the panel again, and that timer fires an
    interval later, changing nothing any more. *)
Lemma wait_fires h quiet p :
  armed options h (hook p) -> element_height p = h ->
  debounceMs options < quiet ->
  let k := hook p in
  let p' := wait options quiet p in
  let k' := hook p' in
  let e := gt h 76%float in
  let changed := negb (same_value h (height k)) || xorb e (isExpanded k) in
  let again := Nat.leb (2 * debounceMs options) quiet in
  updates k' = updates k ++ emitted options (height k, isExpanded k) h quiet
  /\ height k' = h /\ isExpanded k' = e
  /\ notified k'
     = notified k
       ++ (if opt_onHeightChange options
              && (number_neq h (height k) || bool_neq (isExpanded k) e)
           then [h] else [])
       ++ (if changed && again && (opt_onHeightChange options && number_neq h h)
           then [h] else [])
  /\ tidy k'
  /\ length (pending k') = (if changed && negb again then 1 else 0)
  /\ Forall (fun t => now k' < due t) (pending k')
  /\ element_height p' = h
  /\ now k' = now k + quiet.
Proof.
  intros (t & P & R & Z & Lt & D & NH & SH & SE) Dom Q.
  destruct p as [k dom]. cbn [hook element_height] in *. subst dom.
  destruct k as [hh ex r pd nh nw up nt].
  cbn [pending debounceTimeoutRef next_handle now height isExpanded] in *.
  subst pd r. destruct t as [ht dt nH sh se].
  cbn [handle due newHeight seen_height seen_isExpanded] in *. subst.
  cbv zeta. unfold wait, emitted.
  cbn [hook now fst snd height isExpanded updates notified].
  assert (Nz : nh <> 0) by lia.
  erewrite (run_due_step _ _ _ _ []);
    [|cbn [hook pending List.filter due];
      destruct (Nat.leb_spec (nw + debounceMs options) (nw + quiet));
      [reflexivity|lia]].
  destruct (negb (same_value h hh) || xorb (gt h 76%float) ex) eqn:Ch;
    cbn [andb].
  - (* the state changed: the effect runs again *)
    rewrite (fire_changes _ _ _ _ _ _ _ _ _ _ Z Nz Ch).
    rewrite (Nat.max_r nw (nw + debounceMs options)) by lia.
    destruct (Nat.leb_spec (2 * debounceMs options) quiet) as [Q2|Q2].
    + (* the second timer fires too *)
      erewrite (run_due_step _ _ _ _ []);
        [|cbn [hook pending List.filter due];
          destruct (Nat.leb_spec (nw + debounceMs options + debounceMs options)
                      (nw + quiet)); [reflexivity|lia]].
      rewrite fire_same
        by (now rewrite same_value_refl, xorb_nilpotent).
      rewrite run_due_nothing by reflexivity.
      cbn [with_hook hook element_height set_now height isExpanded pending
           next_handle now updates notified debounceTimeoutRef length negb].
      rewrite <- !app_assoc.
      unfold bool_neq at 2. rewrite xorb_nilpotent, orb_false_r.
      unfold update_of, tidy. cbn [pending next_handle app].
      repeat split; auto.
    + assert (F : forall a b : nat, a < b -> Forall (fun t : Timeout => a < due t)
                    [ {| handle := S nh; due := b; newHeight := h;
                         seen_height := h;
                         seen_isExpanded := gt h 76%float |} ])
        by (intros a b X; repeat constructor; exact X).
      rewrite run_due_none
        by (cbn [hook pending List.filter due];
            destruct (Nat.leb_spec (nw + debounceMs options + debounceMs options)
                        (nw + quiet)); [lia|reflexivity]).
      cbn [with_hook hook element_height set_now height isExpanded pending
           next_handle now updates notified debounceTimeoutRef length negb].
      rewrite app_nil_r. unfold update_of, tidy.
      cbn [pending next_handle debounceTimeoutRef].
      repeat split; auto; try (apply F; lia).
      right. eexists. cbn [handle]. repeat split; auto.
  - (* the state is as it was: nothing more happens *)
    rewrite (fire_same _ _ _ _ _ _ _ _ _ _ _ Ch).
    rewrite run_due_nothing by reflexivity.
    cbn [with_hook hook element_height set_now height isExpanded pending
         next_handle now updates notified debounceTimeoutRef length].
    rewrite app_nil_r. unfold update_of, tidy. cbn [pending next_handle].
    repeat split; auto; lia.
Qed.

(** A burst that starts with the hook at rest leaves the timer armed for
    the last height, nothing emitted yet. *)
Lemma burst_arms first burst p :
  pending (hook p) = [] -> next_handle (hook p) <> 0 ->
  Forall (fun m => fst m < debounceMs options) burst ->
  let h := snd (List.last burst first) in
  let p' := fold_left (fun p0 m => resize options m p0) (first :: burst) p in
  armed options h (hook p')
  /\ same_output (hook p) (hook p')
  /\ element_height p' = h.
Proof.
  intros P N B. cbv zeta. destruct first as [g0 h0]. cbn [fold_left].
  destruct (wait_at_rest g0 p P) as (W & _).
  assert (E : hook (resize options (g0, h0) p)
              = measure options (g0, h0) (hook p)).
  { unfold resize, measure. cbn [hook fst snd]. now rewrite W. }
  destruct (measure_idle options g0 h0 (hook p) P N) as (A1 & O1).
  rewrite <- E in A1, O1.
  destruct (burst_as_measured burst B h0 _ A1) as (H1 & H2).
  cbv zeta in H1, H2.
  destruct (burst_keeps_armed options burst B h0 _ A1) as (A2 & O2).
  cbv zeta in A2, O2. rewrite <- H1 in A2, O2.
  rewrite (last_snd_default burst g0 h0).
  split; [exact A2|]. split.
  - destruct O1 as (a & b & c & d), O2 as (a' & b' & c' & d').
    repeat split; congruence.
  - rewrite H2. reflexivity.
Qed.

(** What a burst and the quiet period after it come to. *)
Lemma burst_outcome first burst quiet p :
  pending (hook p) = [] -> next_handle (hook p) <> 0 ->
  Forall (fun m => fst m < debounceMs options) burst ->
  debounceMs options < quiet ->
  let h := snd (List.last burst first) in
  let k := hook p in
  let k' := hook (watch options (first :: burst) quiet p) in
  let e := gt h 76%float in
  let changed := negb (same_value h (height k)) || xorb e (isExpanded k) in
  let again := Nat.leb (2 * debounceMs options) quiet in
  updates k' = updates k ++ emitted options (height k, isExpanded k) h quiet
  /\ height k' = h /\ isExpanded k' = e
  /\ notified k'
     = notified k
       ++ (if opt_onHeightChange options
              && (number_neq h (height k) || bool_neq (isExpanded k) e)
           then [h] else [])
       ++ (if changed && again && (opt_onHeightChange options && number_neq h h)
           then [h] else [])
  /\ length (pending k') = (if changed && negb again then 1 else 0)
  /\ Forall (fun t => now k' < due t) (pending k').
Proof.
  intros P N B Q. cbv zeta.
  destruct (burst_arms first burst p P N B) as (A & (a & b & c & d) & Dom).
  cbv zeta in A, a, b, c, d, Dom.
  destruct (wait_fires _ quiet _ A Dom Q) as (U & H & E & Nt & _ & Pd & Fd & _).
  cbv zeta in U, H, E, Nt, Pd, Fd. unfold watch.
  rewrite U, H, E, Nt, Pd, a, b, c, d. repeat split. exact Fd.
Qed.


(** X21: the listener hears of real changes only, and of each once. After
    a burst and a quiet period of any length beyond the interval,
    [onHeightChange] has been called once, with the height measured last
    (a number, not NaN), if that height differs from the one the hook held
    or the panel went from collapsed to expanded or back, and not at all
    otherwise: the second run of the timeout callback, after the effect
    re-subscribed, does not reach it. *)
Theorem listener_hears_real_changes_only first burst quiet p :
  pending (hook p) = [] -> next_handle (hook p) <> 0 ->
  Forall (fun m => fst m < debounceMs options) burst ->
  debounceMs options < quiet ->
  opt_onHeightChange options = true ->
  let h := snd (List.last burst first) in
  number_neq h h = false ->
  let k := hook p in
  let k' := hook (watch options (first :: burst) quiet p) in
  notified k'
  = notified k
    ++ (if number_neq h (height k) || bool_neq (isExpanded k) (gt h 76%float)
        then [h] else []).
Proof.
  intros P N B Q On. cbv zeta. intros Num.
  destruct (burst_outcome first burst quiet p P N B Q)
    as (_ & _ & _ & Nt & _ & _).
  cbv zeta in Nt. rewrite Nt, On, Num. cbn [andb].
  now rewrite andb_false_r, app_nil_r.
Qed.

Lemma reports_once st h later quiet :
  Forall (fun m => fst m < 2 * debounceMs options) later ->
  quiet < 2 * debounceMs options ->
  reports options st h later quiet
  = List.map update_of (h :: List.map snd later).
Proof.
  intros F Q. revert st h.
  induction F as [|[g h'] later G _ IH]; intros st h; cbn [reports List.map snd].
  - unfold emitted.
    destruct (Nat.leb_spec (2 * debounceMs options) quiet) as [X|_]; [lia|].
    now rewrite andb_false_r.
  - rewrite IH. unfold emitted. cbn [fst] in G.
    destruct (Nat.leb_spec (2 * debounceMs options) g) as [X|_]; [lia|].
    now rewrite andb_false_r.
Qed.

Lemma spaced_reports later :
  Forall (fun m => debounceMs options < fst m) later ->
  forall h quiet p,
    armed options h (hook p) -> element_height p = h ->
    debounceMs options < quiet ->
    updates (hook (wait options quiet
                     (fold_left (fun p0 m => resize options m p0) later p)))
    = updates (hook p)
      ++ reports options (height (hook p), isExpanded (hook p)) h later quiet.
Proof.
  induction 1 as [|[g h'] later G _ IH]; intros h quiet p A Dom Q.
  - cbn [fold_left reports].
    now destruct (wait_fires h quiet p A Dom Q) as (U & _).
  - cbn [fold_left reports]. cbn [fst] in G.
    destruct (wait_fires h g p A Dom G) as (U & H & E & _ & T & _).
    cbv zeta in U, H, E, T.
    destruct (debounced_tidy options h' _ T) as (_ & A1 & (a & b & c & _)).
    cbv zeta in A1, a, b, c.
    set (p1 := resize options (g, h') p).
    assert (E1 : hook p1 = debouncedHeightUpdate options h'
                             (hook (wait options g p))) by reflexivity.
    rewrite <- E1 in A1, a, b, c.
    rewrite (IH h' quiet p1 A1 eq_refl Q).
    rewrite c, U, a, b, H, E, <- app_assoc. reflexivity.
Qed.

(** X13: measurements further apart than the debounce interval are not
    coalesced: the timeout of each one fires before the next arrives, so
    each is reported, in the order taken, and nothing else is. A report
    that changed the state is made a second time when two intervals or
    more go by before the next measurement (the effect, running again,
    measures the panel itself); with less than two intervals between
    them, each measurement is reported exactly once. *)
Theorem spaced_measurements_all_reported first later quiet p :
  pending (hook p) = [] -> next_handle (hook p) <> 0 ->
  Forall (fun m => debounceMs options < fst m) later ->
  debounceMs options < quiet ->
  let k := hook p in
  let k' := hook (watch options (first :: later) quiet p) in
  updates k'
  = updates k
    ++ reports options (height k, isExpanded k) (snd first) later quiet
  /\ (Forall (fun m => fst m < 2 * debounceMs options) later ->
      quiet < 2 * debounceMs options ->
      updates k'
      = updates k
        ++ List.map (fun m => (snd m, gt (snd m) 76%float)) (first :: later)).
Proof.
  intros P N S Q. cbv zeta.
  destruct (burst_arms first [] p P N ltac:(constructor)) as (A & O & Dom).
  cbv zeta in A, O, Dom. cbn [List.last fold_left] in A, O, Dom.
  destruct O as (a & b & c & _).
  assert (U : updates (hook (watch options (first :: later) quiet p))
              = updates (hook p)
                ++ reports options (height (hook p), isExpanded (hook p))
                     (snd first) later quiet).
  { unfold watch. cbn [fold_left].
    rewrite (spaced_reports later S (snd first) quiet _ A Dom Q).
    now rewrite a, b, c. }
  split; [exact U|].
  intros F Q2. rewrite U, (reports_once _ _ _ _ F Q2).
  cbn [List.map]. now rewrite List.map_map.
Qed.

End SubscriptionFacts.

Section SubscriptionExamples.
Import Js ChatAreaMeasurement ObserverLife Subscription.



(** The same burst with a quiet period between one and two intervals:
    one update so far, and the timeout of the re-subscription pending. *)
Example burst_then_short_quiet :
  let p := settled_panel default_options in
  let k' := hook (watch default_options
                    [(0, 80%float); (50, 120%float); (50, 200%float)] 151 p) in
  updates k' = updates (hook p) ++ [(200%float, true)]
  /\ List.map newHeight (pending k') = [200%float].
Proof. vm_compute. split; reflexivity. Qed.

(** In the application (100ms), a burst that ends where it started: one
    update, the state as it was. *)
Example burst_back_to_start :
  let p := settled_panel app_options in
  let k' := hook (watch app_options
                    [(0, 300%float); (99, 150%float); (99, 40%float)] 1000 p) in
  updates k' = updates (hook p) ++ [(40%float, false)]
  /\ pending k' = [].
Proof. vm_compute. split; reflexivity. Qed.

Lemma listener_hears_real_changes_only_witness :
  let p := settled_panel default_options in
  let k' := hook (watch default_options
                    [(0, 80%float); (50, 120%float); (50, 200%float)] 400 p) in
  updates k' = updates (hook p) ++ [(200%float, true); (200%float, true)]
  /\ notified k' = notified (hook p) ++ [200%float].
Proof.
  pose proof (listener_hears_real_changes_only default_options (0, 80%float)
                [(50, 120%float); (50, 200%float)] 400
                (settled_panel default_options)) as H.
  specialize (H ltac:(vm_compute; reflexivity) ltac:(vm_compute; discriminate)
                ltac:(repeat constructor; cbn; lia) ltac:(cbn; lia)
                eq_refl ltac:(vm_compute; reflexivity)).
  cbv zeta in H. cbv zeta. split; [vm_compute; reflexivity|].
  vm_compute in H. vm_compute. exact H.
Defined.

Lemma spaced_measurements_all_reported_witness :
  let p := settled_panel app_options in
  let k' := hook (watch app_options
                    [(0, 300%float); (120, 150%float); (150, 60%float)] 101 p) in
  updates k'
  = updates (hook p)
    ++ [(300%float, true); (150%float, true); (60%float, false)].
Proof.
  pose proof (spaced_measurements_all_reported app_options (0, 300%float)
                [(120, 150%float); (150, 60%float)] 101
                (settled_panel app_options)) as H.
  specialize (H ltac:(vm_compute; reflexivity) ltac:(vm_compute; discriminate)
                ltac:(repeat constructor; cbn; lia) ltac:(cbn; lia)).
  cbv zeta in H. destruct H as (_ & H).
  specialize (H ltac:(repeat constructor; cbn; lia) ltac:(cbn; lia)).
  cbv zeta. vm_compute in H. vm_compute. exact H.
Defined.

(** With more than two intervals before the next measurement, the report
    of a changed height comes twice. *)
Example spaced_far_apart :
  let p := settled_panel app_options in
  updates (hook (watch app_options [(0, 300%float); (250, 150%float)] 101 p))
  = updates (hook p) ++ [(300%float, true); (300%float, true); (150%float, true)].
Proof. vm_compute. reflexivity. Qed.

End SubscriptionExamples.

(* ------------------------------------------------------------------ *)
(** ** A sweep runs to its release *)

Section ReleaseFacts.
Import Js Sequencer SweepProgress RunAmongOthers.

Variable config : GraphConfig.

(** From the delay after an OFF stretch to the end: two timers per step
    left and one more, whatever the component does beside the run. *)
Lemma release_after_off tid seen rest :
  forall sys gaps ns es acts,
    stands_at tid seen (AfterOff rest) ns es acts sys ->
    length gaps = 2 * length rest + 1 ->
    all_beside tid gaps = true ->
    let done := exec config (own_timers tid gaps) sys in
    stands_at tid seen Returned
      (mark (flat_map ids rest) false ns) (mark (flat_map ids rest) false es)
      (acts ++ flat_map pulse rest ++ [SetButtonClicked false; Release]) done
    /\ animationLock (shared done) = false
    /\ buttonClicked (shared done) = false.
Proof.
  induction rest as [|s r IH]; intros sys gaps ns es acts S Lg B; cbv zeta.
  - destruct gaps as [|g [|g' gaps]]; try (cbn [length] in Lg; lia).
    unfold all_beside in B. cbn [forallb] in B.
    apply andb_prop in B. destruct B as [B1 _].
    rewrite (own_timers_cons config). cbn [own_timers flat_map exec fold_left].
    apply (beside_turns config tid _ _ _ _ _ g) in S; [|reflexivity|exact B1].
    apply (own_timer_end config) in S. cbv zeta in S.
    destruct S as (S & L & Bc & _). cbn [flat_map app].
    rewrite !mark_nothing. split; [exact S|now split].
  - destruct gaps as [|g1 [|g2 gaps]]; try (cbn [length] in Lg; lia).
    unfold all_beside in B. cbn [forallb] in B.
    apply andb_prop in B. destruct B as [B1 B].
    apply andb_prop in B. destruct B as [B2 B].
    rewrite !(own_timers_cons config).
    apply (beside_turns config tid _ _ _ _ _ g1) in S; [|reflexivity|exact B1].
    apply (own_timer_on config) in S.
    apply (beside_turns config tid _ _ _ _ _ g2) in S; [|reflexivity|exact B2].
    apply (own_timer_off config) in S.
    destruct (IH _ gaps _ _ _ S) as (S' & L & Bc);
      [cbn [length] in Lg; lia|exact B|].
    cbv zeta in S', L, Bc.
    rewrite !mark_off_after_on, !mark_off_twice in S'.
    cbn [flat_map]. split; [|now split].
    replace (acts ++ (pulse s ++ flat_map pulse r)
             ++ [SetButtonClicked false; Release])
      with (((acts ++ lights true s) ++ lights false s)
            ++ flat_map pulse r ++ [SetButtonClicked false; Release]);
      [exact S'|].
    rewrite pulse_lights. now rewrite <- !app_assoc.
Qed.

(** X6: a sweep in progress runs to its release. From any state the
    component can be in with a run inside its sweep, and whatever the
    component does beside that run meanwhile (the effect running again,
    other runs polling, the parent setting its flags), once the timers the
    run still awaits have fired, two per step left, the run has done
    exactly what was left of its sweep, reset the click flag, released the
    lock and returned; a run that waits at the lock test and polls next
    takes the lock. *)
Theorem sweep_runs_to_release sys tid t gaps :
  lock_invariant sys ->
  tasks sys !! tid = Some t ->
  holding (pc t) = true ->
  length gaps = timers_left (pc t) ->
  all_beside tid gaps = true ->
  let done := exec config (own_timers tid gaps) sys in
  animationLock (shared done) = false
  /\ buttonClicked (shared done) = false
  /\ tasks done !! tid
     = Some {| aiReplied_seen := aiReplied_seen t; pc := Returned |}
  /\ by_run tid (history done)
     = by_run tid (history sys) ++ actions_left (pc t)
  /\ (forall tid2 t2,
        tasks done !! tid2 = Some t2 -> pc t2 = AtLockTest ->
        exists rest,
          history (turn config (Timer tid2) done)
          = history done ++ (tid2, Acquire) :: rest).
Proof.
  intros I E Ho Lg B. cbv zeta.
  assert (S : stands_at tid (aiReplied_seen t) (pc t)
                (nodes (shared sys)) (edges (shared sys))
                (by_run tid (history sys)) sys).
  { split; [exact I|]. split; [|now repeat split]. rewrite E. now destruct t. }
  assert (G : let done := exec config (own_timers tid gaps) sys in
              tasks done !! tid
              = Some {| aiReplied_seen := aiReplied_seen t; pc := Returned |}
              /\ by_run tid (history done)
                 = by_run tid (history sys) ++ actions_left (pc t)
              /\ animationLock (shared done) = false
              /\ buttonClicked (shared done) = false).
  { destruct (pc t) as [|step rest|rest|] eqn:P; try discriminate Ho;
      cbn [timers_left actions_left] in *.
    - destruct gaps as [|g gaps]; [cbn [length] in Lg; lia|].
      unfold all_beside in B. cbn [forallb] in B.
      apply andb_prop in B. destruct B as [B1 B].
      cbv zeta. rewrite (own_timers_cons config).
      apply (beside_turns config tid _ _ _ _ _ g) in S; [|reflexivity|exact B1].
      apply (own_timer_off config) in S.
      destruct (release_after_off tid _ rest _ gaps _ _ _ S) as (S' & L & Bc);
        [cbn [length] in Lg; lia|exact B|].
      cbv zeta in S', L, Bc. destruct S' as (_ & E' & _ & _ & H').
      split; [exact E'|]. split; [|now split].
      rewrite H'. unfold lights, DELAY_DURATION. now rewrite <- !app_assoc.
    - destruct (release_after_off tid _ rest _ gaps _ _ _ S Lg B)
        as (S' & L & Bc).
      cbv zeta in S', L, Bc. destruct S' as (_ & E' & _ & _ & H').
      now repeat split. }
  cbv zeta in G. destruct G as (E' & H' & L & Bc).
  split; [exact L|]. split; [exact Bc|]. split; [exact E'|].
  split; [exact H'|].
  intros tid2 t2 E2 P2.
  pose proof (poll_or_acquire config _ tid2 t2 E2 P2) as Q.
  cbv zeta in Q. now rewrite L in Q.
Qed.

End ReleaseFacts.

Section ReleaseExamples.
Import Js Sequencer SweepProgress RunAmongOthers.

(** The reply comes in while the first sweep is on; the run it starts
    polls beside the sweep, a further trigger comes and goes, and after
    the sweep's six timers the lock is free and the waiting run takes
    it. *)
Lemma sweep_runs_to_release_witness :
  let sys := exec graphConfig [Parent true false; Trigger; Parent true true;
                               Trigger] (mounted graphConfig) in
  let done :=
    exec graphConfig
      (own_timers 0 [ [Timer 1]; []; [Timer 1; Trigger]; []; [];
                      [Parent true true] ]) sys in
  animationLock (shared done) = false
  /\ by_run 0 (history done)
     = [ Acquire;
         UpdateStyle (js "1") true; Delay 500;
         UpdateStyle (js "1") false; Delay 500;
         UpdateStyle (js "1-2") true; Delay 500;
         UpdateStyle (js "1-2") false; Delay 500;
         UpdateStyle (js "2") true; Delay 500;
         UpdateStyle (js "2") false; Delay 500;
         SetButtonClicked false; Release ]
  /\ exists rest,
       history (turn graphConfig (Timer 1) done)
       = history done ++ (1, Acquire) :: rest.
Proof.
  pose proof (sweep_runs_to_release graphConfig
                (exec graphConfig [Parent true false; Trigger;
                                   Parent true true; Trigger]
                   (mounted graphConfig))
                0 {| aiReplied_seen := false;
                     pc := AfterOn {| ids := [js "1"] |}
                             [ {| ids := [js "1-2"] |}; {| ids := [js "2"] |} ] |}
                [ [Timer 1]; []; [Timer 1; Trigger]; []; []; [Parent true true] ]
                (exec_invariant graphConfig _ _ (mounted_invariant graphConfig))
                eq_refl eq_refl eq_refl eq_refl) as H.
  cbv zeta in H. destruct H as (L & _ & _ & Hi & Served).
  cbv zeta. split; [exact L|]. split.
  - rewrite Hi. vm_compute. reflexivity.
  - apply (Served 1 {| aiReplied_seen := true; pc := AtLockTest |});
      vm_compute; reflexivity.
Defined.

End ReleaseExamples.
